(** * MimicVirgo: point sampling, potential fusion and percentile classes

    A shallow embedding of the computational core of the repository:

    - [02_dem_elevation.py]: the closure [get_value] of [get_dem_at_points];
    - [03_gw_potential.py]: [get_dem_value], [calculate_potential] and
      [create_potential_dataset];
    - [mapservice.py]: [calculate_percentile_class], [fetch_cadwr_data] and
      the marker of [add_groundwater_sites];
    - [cadwr_gwinfo.py]: [get_measurement_history] from the reply on, and
      the class counts of [get_percentile_stats] and [get_seasonal_change].

    Coordinates, depths and elevations are IEEE-754 binary64 numbers, as in
    Python and NumPy: they are modelled by Rocq's primitive floats, whose
    operations are specified by [FloatAxioms] over [SpecFloat].  Python
    exceptions are values of an error monad. *)

From Stdlib Require Import ZArith Lia List String Ascii Floats DecimalString Sorted.
From stdpp Require Import base option list strings gmap.

#[local] Set Warnings "-inexact-float".
#[local] Open Scope Z_scope.

(** ** Python exceptions *)

Module Py.

(** The exception classes the modelled code can raise. *)
Inductive exn :=
  | KeyError          (* a column label that is not in the frame *)
  | IndexError        (* [xs[0]] on an empty list, an index outside an array *)
  | TypeError         (* arithmetic or comparison on a text cell *)
  | ValueError        (* [int(nan)] *)
  | OverflowError.    (* [int(inf)] *)

Inductive result (A : Type) :=
  | Ok (a : A)
  | Raise (e : exn).
#[global] Arguments Ok {A} a.
#[global] Arguments Raise {A} e.

Definition bind {A B} (m : result A) (k : A -> result B) : result B :=
  match m with
  | Ok a => k a
  | Raise e => Raise e
  end.

(** [mapM f xs] runs [f] on the elements from left to right and stops at the
    first exception, like a comprehension or a row-wise [apply]. *)
Fixpoint mapM {A B} (f : A -> result B) (xs : list A) : result (list B) :=
  match xs with
  | [] => Ok []
  | x :: xs' =>
      match f x with
      | Raise e => Raise e
      | Ok y =>
          match mapM f xs' with
          | Raise e => Raise e
          | Ok ys => Ok (y :: ys)
          end
      end
  end.

End Py.
Export Py.

(** [x ← m; k] is stdpp's notation for [bind m (fun x => k)]. *)
#[global] Instance result_ret : MRet result := fun _ a => Ok a.
#[global] Instance result_bind : MBind result := fun _ _ k m => Py.bind m k.

(** ** binary64 numbers as Python sees them *)

Module F64.

(** The magnitude [m * 2^e] cut to an integer: [Z.shiftl] by a negative
    amount is a right shift. *)
Definition trunc_mag (m : positive) (e : Z) : Z := Z.shiftl (Z.pos m) e.

(** [int(x)] on a float: truncation toward zero; [int(nan)] raises
    ValueError and [int(inf)] raises OverflowError. *)
Definition py_int (x : float) : result Z :=
  match Prim2SF x with
  | S754_nan => Raise ValueError
  | S754_infinity _ => Raise OverflowError
  | S754_zero _ => Ok 0
  | S754_finite s m e => Ok (cond_Zopp s (trunc_mag m e))
  end.

(** [math.floor(x)], the function the specification names. *)
Definition py_floor (x : float) : result Z :=
  match Prim2SF x with
  | S754_nan => Raise ValueError
  | S754_infinity _ => Raise OverflowError
  | S754_zero _ => Ok 0
  | S754_finite s m e => Ok (Z.shiftl (cond_Zopp s (Z.pos m)) e)
  end.

(** An [int] operand of a float operation is converted to binary64 first
    (array dimensions are far below [2^63]). *)
Definition of_int (n : Z) : float := PrimFloat.of_uint63 (Uint63.of_Z n).

End F64.


(** Classes of binary64 values, on their [SpecFloat] form. *)
Module SF.

Definition sf_finite (x : spec_float) : bool :=
  match x with
  | S754_zero _ | S754_finite _ _ _ => true
  | _ => false
  end.

(** Zero of either sign, a positive number, [+inf] or NaN. *)
Definition nonneg_or_nan (x : spec_float) : Prop :=
  match x with
  | S754_finite true _ _ | S754_infinity true => False
  | _ => True
  end.

(** As above with the sign bit of a zero clear. *)
Definition sign_clear_or_nan (x : spec_float) : Prop :=
  match x with
  | S754_finite true _ _ | S754_infinity true | S754_zero true => False
  | _ => True
  end.

(** A positive number or [+inf]. *)
Definition positive_sf (x : spec_float) : Prop :=
  match x with
  | S754_finite false _ _ | S754_infinity false => True
  | _ => False
  end.

(** The difference of two finite values on their common exponent, as
    [SFsub] forms it before rounding. *)
Definition aligned_diff (sx : bool) (mx : positive) (ex : Z)
    (sy : bool) (my : positive) (ey : Z) : Z :=
  let ez := Z.min ex ey in
  cond_Zopp sx (Z.pos (fst (shl_align mx ex ez))) -
  cond_Zopp sy (Z.pos (fst (shl_align my ey ez))).

(** The number [1.0]. *)
Definition SFone : spec_float := S754_finite false 4503599627370496 (-52).

(** The value of a finite number in units of [2^-1074], the spacing of the
    subnormal numbers: every finite binary64 value is a whole number of
    them. *)
Definition units (x : spec_float) : Z :=
  match x with
  | S754_finite s m e => cond_Zopp s (Z.pos m * 2 ^ (e + 1074))
  | _ => 0
  end.

(** Where the [n] bits shifted out, of value [rho], lie in the rounding
    step [2^n]. *)
Definition loc_of_rem (rho n : Z) : location :=
  if rho =? 0 then loc_Exact else loc_Inexact (2 * rho ?= 2 ^ n).

(** [V] cut by [n] bits and rounded to nearest, ties to even. *)
Definition round_at (V n : Z) : Z :=
  round_nearest_even (V / 2 ^ n) (loc_of_rem (V mod 2 ^ n) n).

(** The last steps of [binary_round_aux] on a rounded mantissa: one more
    shift if rounding carried into a 54th bit, then the overflow test. *)
Definition round_finish (s : bool) (m2 t : Z) : spec_float :=
  let '(mrs, e) := shr_fexp prec emax m2 t loc_Exact in
  match shr_m mrs with
  | Z0 => S754_zero s
  | Zpos m => if e <=? emax - prec then S754_finite s m e else S754_infinity s
  | Zneg _ => S754_nan
  end.

Definition renormalize (m2 t : Z) : Z * Z :=
  if m2 =? 2 ^ 53 then (2 ^ 52, t + 1) else (m2, t).

Definition pack (s : bool) (mo eo : Z) : spec_float :=
  match mo with
  | Z0 => S754_zero s
  | Zpos m => if eo <=? 971 then S754_finite s m eo else S754_infinity s
  | Zneg _ => S754_nan
  end.

(** The binary64 number nearest to [V] units. *)
Definition round_units (V : Z) : spec_float :=
  binary_normalize prec emax V (-1074) false.

End SF.

(** ** The raster *)

(** A two-dimensional NumPy array as its list of rows; [dem.shape] is
    [(shape0, shape1)].  Every row of an array has the same length
    ([rectangular]). *)
Abbreviation ndarray := (list (list float)).

Definition shape0 (dem : ndarray) : Z := Z.of_nat (length dem).
Definition shape1 (dem : ndarray) : Z :=
  match dem with
  | [] => 0
  | r :: _ => Z.of_nat (length r)
  end.

Definition rectangular (dem : ndarray) : Prop :=
  Forall (fun r => Z.of_nat (length r) = shape1 dem) dem.

(** [xs[i]] on one axis of length [n]: a negative index counts from the end,
    anything outside [-n, n) raises IndexError. *)
Definition axis_index {A} (xs : list A) (i : Z) : result A :=
  let n := Z.of_nat (length xs) in
  if (0 <=? i) && (i <? n) then
    match xs !! Z.to_nat i with Some x => Ok x | None => Raise IndexError end
  else if (- n <=? i) && (i <? 0) then
    match xs !! Z.to_nat (i + n) with Some x => Ok x | None => Raise IndexError end
  else Raise IndexError.

(** [dem[row, col]] *)
Definition getitem2 (dem : ndarray) (row col : Z) : result float :=
  r ← axis_index dem row; axis_index r col.

(** The pixel [grid[row][col]] of direct indexing, for indices inside the
    array; there is none outside. *)
Definition pixel (dem : ndarray) (row col : Z) : option float :=
  if (row <? 0) || (col <? 0) then None
  else r ← dem !! Z.to_nat row; r !! Z.to_nat col.

(** [np.clip(x, lo, hi)] is [minimum(maximum(x, lo), hi)]. *)
Definition np_clip (x lo hi : Z) : Z := Z.min (Z.max x lo) hi.

(** The [bounds] dictionary built by [fetch_dem_from_usgs]. *)
Record Bounds := { west : float; south : float; east : float; north : float }.

(** The guard of both samplers: [west <= lon <= east and south <= lat <= north]. *)
Definition in_bounds (b : Bounds) (lat lon : float) : bool :=
  (west b <=? lon)%float && (lon <=? east b)%float &&
  (south b <=? lat)%float && (lat <=? north b)%float.

(** A point strictly inside the bounds. *)
Definition strictly_inside (b : Bounds) (lat lon : float) : bool :=
  (west b <? lon)%float && (lon <? east b)%float &&
  (south b <? lat)%float && (lat <? north b)%float.

(** The two scaled offsets, before [int]. *)
Definition col_offset (b : Bounds) (dem : ndarray) (lon : float) : float :=
  ((lon - west b) / (east b - west b) * F64.of_int (shape1 dem))%float.
Definition row_offset (b : Bounds) (dem : ndarray) (lat : float) : float :=
  ((north b - lat) / (north b - south b) * F64.of_int (shape0 dem))%float.

(** The invariant of [GeoBounds]: [west < east] and [south < north], with
    extents that do not overflow. *)
Definition wf_bounds (b : Bounds) : Prop :=
  (west b <? east b)%float = true /\ (south b <? north b)%float = true /\
  PrimFloat.is_finite (east b - west b)%float = true /\
  PrimFloat.is_finite (north b - south b)%float = true.

(** Bounds given in degrees of longitude and latitude. *)
Definition geographic (b : Bounds) : Prop :=
  (west b <? east b)%float = true /\ (south b <? north b)%float = true /\
  (-180 <=? west b)%float = true /\ (east b <=? 180)%float = true /\
  (-90 <=? south b)%float = true /\ (north b <=? 90)%float = true.

(** A raster with at least one pixel, its dimensions exact in binary64. *)
Definition wf_raster (dem : ndarray) : Prop :=
  rectangular dem /\ 0 < shape0 dem < 2 ^ 53 /\ 0 < shape1 dem < 2 ^ 53.

(** The two index formulas read in exact arithmetic,
    [floor((lon - west) / (east - west) * num_cols)] and
    [floor((north - lat) / (north - south) * num_rows)]: each finite
    coordinate is a whole number of [SF.units], so the floor of the rational
    is a division of integers. *)
Definition exact_col (b : Bounds) (dem : ndarray) (lon : float) : Z :=
  (SF.units (Prim2SF lon) - SF.units (Prim2SF (west b))) * shape1 dem
  / (SF.units (Prim2SF (east b)) - SF.units (Prim2SF (west b))).
Definition exact_row (b : Bounds) (dem : ndarray) (lat : float) : Z :=
  (SF.units (Prim2SF (north b)) - SF.units (Prim2SF lat)) * shape0 dem
  / (SF.units (Prim2SF (north b)) - SF.units (Prim2SF (south b))).

(** ** Tables read by [pd.read_csv] *)

(** A cell is a number (NaN stands for a missing entry) or text.  A column is
    either numeric ([int64] and [float64] both appear here with their binary64
    values, as pandas converts them in float arithmetic and in row-wise
    [apply]) or of dtype [object], holding text and NaN. *)
Inductive cell :=
  | CNum (x : float)
  | CStr (s : string).

Inductive series :=
  | Float64 (vals : list float)
  | Object (vals : list cell).

(** A frame is the list of its labelled columns, in file order. *)
Abbreviation DataFrame := (list (string * series)).

Definition isna (c : cell) : bool :=
  match c with
  | CNum x => PrimFloat.is_nan x
  | CStr _ => false
  end.

Definition cells (s : series) : list cell :=
  match s with
  | Float64 vals => CNum <$> vals
  | Object vals => vals
  end.

(** [df.columns] *)
Definition columns (df : DataFrame) : list string := fst <$> df.

(** [df.select_dtypes(include=[np.number]).columns.tolist()] *)
Definition is_number (s : series) : bool :=
  match s with
  | Float64 _ => true
  | Object _ => false
  end.
Definition numeric_columns (df : DataFrame) : list string :=
  fst <$> filter (fun c => is_number (snd c) = true) df.

(** [df[name]]: KeyError when the label is absent. *)
Definition getcol (df : DataFrame) (name : string) : result series :=
  match find (fun c => String.eqb (fst c) name) df with
  | Some c => Ok (snd c)
  | None => Raise KeyError
  end.

(** A JSON number slot of a response: [None] is written [null]; a float is
    written by [json.dumps] as it is, NaN included. *)
Inductive json_num :=
  | JNull
  | JFloat (x : float).

(** ** Rounding and aggregates *)

Module Stats.

(** C's [rint] (round half to even) by the [2^52] shift, valid for
    [|x| < 2^52]; larger magnitudes, infinities and NaN are integers or
    unchanged already.  A zero result keeps the sign of [x]. *)
Definition two52 : float := 4503599627370496%float.
Definition rint (x : float) : float :=
  if PrimFloat.is_nan x then x
  else if (PrimFloat.abs x <? two52)%float then
    let r := if PrimFloat.get_sign x then ((x - two52) + two52)%float
             else ((x + two52) - two52)%float in
    if (r =? 0)%float then (if PrimFloat.get_sign x then (-0)%float else 0%float)
    else r
  else x.

(** [round(x, 2)] on a NumPy float64: multiply by [10**2], [rint], divide. *)
Definition round2 (x : float) : float := (rint (x * 100) / 100)%float.

Definition fmin (a b : float) : float := if (b <? a)%float then b else a.
Definition fmax (a b : float) : float := if (a <? b)%float then b else a.

(** [Series.min()], [.max()] and [.mean()] skip NaN and give NaN when nothing
    is left.  The sum is taken from left to right. *)
Definition notna (xs : list float) : list float :=
  filter (fun x => PrimFloat.is_nan x = false) xs.
Definition series_min (xs : list float) : float :=
  match notna xs with
  | [] => nan
  | x :: rest => fold_left fmin rest x
  end.
Definition series_max (xs : list float) : float :=
  match notna xs with
  | [] => nan
  | x :: rest => fold_left fmax rest x
  end.
Definition series_mean (xs : list float) : float :=
  match notna xs with
  | [] => nan
  | x :: rest =>
      (fold_left PrimFloat.add rest x / F64.of_int (Z.of_nat (length (x :: rest))))%float
  end.

End Stats.

(** ** 02_dem_elevation.py *)

Module DemElevation.

(** The closure [get_value(lat, lon)] of [get_dem_at_points]; [dem] and
    [bounds] are the variables it captures. *)
Definition get_value (dem : ndarray) (bounds : Bounds) (lat lon : float)
  : result float :=
  if negb ((west bounds <=? lon)%float && (lon <=? east bounds)%float &&
           (south bounds <=? lat)%float && (lat <=? north bounds)%float)
  then Ok nan
  else
    col ← F64.py_int ((lon - west bounds) / (east bounds - west bounds)
                       * F64.of_int (shape1 dem))%float;
    row ← F64.py_int ((north bounds - lat) / (north bounds - south bounds)
                       * F64.of_int (shape0 dem))%float;
    let col := np_clip col 0 (shape1 dem - 1) in
    let row := np_clip row 0 (shape0 dem - 1) in
    getitem2 dem row col.

(** The lambda [r => get_value(r[lat_col], r[lon_col])] on the cells of a
    row.  Comparing a float with text raises TypeError; the chained
    comparison looks at [lon] first and, when it is out of range, never
    touches [lat]. *)
Definition get_value_cells (dem : ndarray) (bounds : Bounds) (lat lon : cell)
  : result float :=
  match lon, lat with
  | CNum lon, CNum lat => get_value dem bounds lat lon
  | CNum lon, CStr _ =>
      if (west bounds <=? lon)%float && (lon <=? east bounds)%float
      then Raise TypeError else Ok nan
  | CStr _, _ => Raise TypeError
  end.

Record dem_report := {
  dp_total_points : nat;
  dp_points_with_dem : nat;
  dp_min : json_num;
  dp_max : json_num;
  dp_mean : json_num
}.

(** [get_dem_at_points]: [fetched] is what [fetch_dem_from_usgs(bbox)]
    gave, [df] the table read from [points_csv].  The statistics are guarded:
    [round(...) if len(valid_dem) > 0 else None]. *)
Definition get_dem_at_points (fetched : result (ndarray * Bounds))
    (df : DataFrame) (lat_col lon_col : string) : result dem_report :=
  '(dem, bounds) ← fetched;
  if negb (bool_decide (lat_col ∈ columns df)) || negb (bool_decide (lon_col ∈ columns df))
  then Raise KeyError
  else
    lats ← getcol df lat_col;
    lons ← getcol df lon_col;
    dem_m ← mapM (fun r => get_value_cells dem bounds r.1 r.2)
                 (zip (cells lats) (cells lons));
    let valid_dem := Stats.notna dem_m in
    let guarded (x : float) :=
      if (0 <? Z.of_nat (length valid_dem)) then JFloat (Stats.round2 x) else JNull in
    Ok {| dp_total_points := length dem_m;
          dp_points_with_dem := length valid_dem;
          dp_min := guarded (Stats.series_min valid_dem);
          dp_max := guarded (Stats.series_max valid_dem);
          dp_mean := guarded (Stats.series_mean valid_dem) |}.

End DemElevation.

(** ** 03_gw_potential.py *)

Module GwPotential.

(** [get_dem_value(lat, lon, dem, bounds)] *)
Definition get_dem_value (lat lon : float) (dem : ndarray) (bounds : Bounds)
  : result float :=
  if negb ((west bounds <=? lon)%float && (lon <=? east bounds)%float &&
           (south bounds <=? lat)%float && (lat <=? north bounds)%float)
  then Ok nan
  else
    col ← F64.py_int ((lon - west bounds) / (east bounds - west bounds)
                       * F64.of_int (shape1 dem))%float;
    row ← F64.py_int ((north bounds - lat) / (north bounds - south bounds)
                       * F64.of_int (shape0 dem))%float;
    let col := np_clip col 0 (shape1 dem - 1) in
    let row := np_clip row 0 (shape0 dem - 1) in
    getitem2 dem row col.

(** [c for c in df.columns if '-' in str(c) and len(str(c)) == 10] *)
Definition is_date_col (c : string) : bool :=
  existsb (Ascii.eqb "-"%char) (list_ascii_of_string c) &&
  (Z.of_nat (String.length c) =? 10).
Definition date_cols (df : DataFrame) : list string :=
  filter (fun c => is_date_col c = true) (columns df).

(** The block under [if depth_col is None:], the same in both entry points:
    the last date-like label, else the first numeric label outside
    [exclude]; [[...][0]] on an empty list raises IndexError. *)
Definition infer_depth_col (df : DataFrame) (lat_col lon_col : string)
  : result string :=
  match last (date_cols df) with
  | Some c => Ok c
  | None =>
      let numeric_cols := numeric_columns df in
      let exclude := [lat_col; lon_col; "Site"%string] in
      match filter (fun c => c ∉ exclude) numeric_cols with
      | c :: _ => Ok c
      | [] => Raise IndexError
      end
  end.

(** [str.lower] on one character (code points below 256). *)
Definition lower_ascii (c : ascii) : ascii :=
  let n := N_of_ascii c in
  if ((65 <=? n) && (n <=? 90))%N then ascii_of_N (n + 32)
  else if ((192 <=? n) && (n <=? 222) && negb (n =? 215))%N then ascii_of_N (n + 32)
  else c.
Fixpoint lower (s : string) : string :=
  match s with
  | EmptyString => EmptyString
  | String c s' => String (lower_ascii c) (lower s')
  end.

(** A row of the working frame [result_df], with the index label it keeps
    from the input table. *)
Record row3 := {
  r_idx : nat;
  r_lat : cell;
  r_lon : cell;
  r_depth_original : cell
}.

(** [df[[lat_col, lon_col, depth_col]].copy()], relabelled. *)
Definition select3 (df : DataFrame) (lat_col lon_col depth_col : string)
  : result (list row3) :=
  lats ← getcol df lat_col;
  lons ← getcol df lon_col;
  depths ← getcol df depth_col;
  Ok (imap (fun i c => {| r_idx := i; r_lat := c.1.1; r_lon := c.1.2;
                          r_depth_original := c.2 |})
           (zip (zip (cells lats) (cells lons)) (cells depths))).

(** The first [result_df.dropna()]. *)
Definition dropna3 (rows : list row3) : list row3 :=
  filter (fun r => (isna (r_lat r) || isna (r_lon r) || isna (r_depth_original r)) = false)
         rows.

(** [Depth_original * 0.3048] on one cell: text times a float is a TypeError. *)
Definition mul_cell (c : cell) (k : float) : result cell :=
  match c with
  | CNum x => Ok (CNum (x * k)%float)
  | CStr _ => Raise TypeError
  end.

(** The unit block: [if depth_unit.lower() == 'ft': ... * 0.3048 else: ...]. *)
Definition depth_m_column (depth_unit : string) (rows : list row3)
  : result (list cell) :=
  if String.eqb (lower depth_unit) "ft" then
    mapM (fun r => mul_cell (r_depth_original r) 0.3048%float) rows
  else
    Ok (r_depth_original <$> rows).

(** The lambda [r => get_dem_value(r['Lat'], r['Lon'], dem, bounds)] on the
    cells of a row (see [DemElevation.get_value_cells] for the text cases). *)
Definition get_dem_value_cells (dem : ndarray) (bounds : Bounds) (lat lon : cell)
  : result float :=
  match lon, lat with
  | CNum lon, CNum lat => get_dem_value lat lon dem bounds
  | CNum lon, CStr _ =>
      if (west bounds <=? lon)%float && (lon <=? east bounds)%float
      then Raise TypeError else Ok nan
  | CStr _, _ => Raise TypeError
  end.

(** [DEM_m - Depth_m] on one row: a float minus text is a TypeError. *)
Definition sub_cell (dem_m : float) (depth_m : cell) : result (float * float) :=
  match depth_m with
  | CNum d => Ok (d, (dem_m - d)%float)
  | CStr _ => Raise TypeError
  end.

(** A row of [result_df] once [Depth_m], [DEM_m] and [Potential_m] are set. *)
Record row6 := {
  idx : nat;
  Lat : cell;
  Lon : cell;
  Depth_original : cell;
  Depth_m : float;
  DEM_m : float;
  Potential_m : float
}.

(** The three column assignments, in the order of the source.  On a frame
    with no rows each assignment yields an empty column, as [apply] does in
    current pandas. *)
Definition potential_rows (dem : ndarray) (bounds : Bounds) (depth_unit : string)
    (rows : list row3) : result (list row6) :=
  depth_m ← depth_m_column depth_unit rows;
  dem_m ← mapM (fun r => get_dem_value_cells dem bounds (r_lat r) (r_lon r)) rows;
  pot ← mapM (fun c => sub_cell c.1 c.2) (zip dem_m depth_m);
  Ok (zip_with (fun r c => {| idx := r_idx r; Lat := r_lat r; Lon := r_lon r;
                              Depth_original := r_depth_original r;
                              Depth_m := c.2.1; DEM_m := c.1; Potential_m := c.2.2 |})
               rows (zip dem_m pot)).

(** The second [result_df.dropna()], over all six columns. *)
Definition dropna6 (rows : list row6) : list row6 :=
  filter (fun r => (isna (Lat r) || isna (Lon r) || isna (Depth_original r) ||
                    PrimFloat.is_nan (Depth_m r) || PrimFloat.is_nan (DEM_m r) ||
                    PrimFloat.is_nan (Potential_m r)) = false)
         rows.

(** One entry of ["statistics"]: [round(col.min(), 2)] and so on, unguarded. *)
Record stat3 := { st_min : json_num; st_max : json_num; st_mean : json_num }.
Definition describe (xs : list float) : stat3 :=
  {| st_min := JFloat (Stats.round2 (Stats.series_min xs));
     st_max := JFloat (Stats.round2 (Stats.series_max xs));
     st_mean := JFloat (Stats.round2 (Stats.series_mean xs)) |}.

Record report := {
  depth_column : string;
  depth_unit_echo : option string;
  total_points : nat;
  stats_depth_m : stat3;
  stats_dem_m : stat3;
  stats_potential_m : stat3
}.

(** [calculate_potential].  [df] is the table read from [depth_csv] and
    [fetched] what [fetch_dem_from_usgs(bbox)] gives when it is called.  The
    result pairs [result_df], the frame [to_csv] writes, with the response;
    an exception anywhere is the response [{"error": ...}]. *)
Definition calculate_potential (df : DataFrame) (fetched : result (ndarray * Bounds))
    (depth_col : option string) (depth_unit lat_col lon_col : string)
  : result (list row6 * report) :=
  depth_col ← match depth_col with
              | Some c => Ok c
              | None => infer_depth_col df lat_col lon_col
              end;
  '(dem, bounds) ← fetched;
  result_df ← select3 df lat_col lon_col depth_col;
  let result_df := dropna3 result_df in
  result_df ← potential_rows dem bounds depth_unit result_df;
  let result_df := dropna6 result_df in
  Ok (result_df,
      {| depth_column := depth_col;
         depth_unit_echo := Some depth_unit;
         total_points := length result_df;
         stats_depth_m := describe (Depth_m <$> result_df);
         stats_dem_m := describe (DEM_m <$> result_df);
         stats_potential_m := describe (Potential_m <$> result_df) |}).

(** A row of the final frame of [create_potential_dataset]:
    [result_df[['Lat', 'Lon', 'Depth_m', 'DEM_m', 'Potential_m']]]. *)
Record row5 := {
  idx5 : nat;
  Lat5 : cell;
  Lon5 : cell;
  Depth_m5 : float;
  DEM_m5 : float;
  Potential_m5 : float
}.
Definition final_columns (r : row6) : row5 :=
  {| idx5 := idx r; Lat5 := Lat r; Lon5 := Lon r; Depth_m5 := Depth_m r;
     DEM_m5 := DEM_m r; Potential_m5 := Potential_m r |}.

(** [create_potential_dataset]; [fetched] is what
    [fetch_dem_from_usgs(bbox, resolution)] gives. *)
Definition create_potential_dataset (df : DataFrame)
    (fetched : result (ndarray * Bounds))
    (depth_col : option string) (depth_unit lat_col lon_col : string)
  : result (list row5 * report) :=
  depth_col ← match depth_col with
              | Some c => Ok c
              | None => infer_depth_col df lat_col lon_col
              end;
  '(dem, bounds) ← fetched;
  result_df ← select3 df lat_col lon_col depth_col;
  let result_df := dropna3 result_df in
  result_df ← potential_rows dem bounds depth_unit result_df;
  let result_df := dropna6 result_df in
  let result_df := final_columns <$> result_df in
  Ok (result_df,
      {| depth_column := depth_col;
         depth_unit_echo := None;
         total_points := length result_df;
         stats_depth_m := describe (Depth_m5 <$> result_df);
         stats_dem_m := describe (DEM_m5 <$> result_df);
         stats_potential_m := describe (Potential_m5 <$> result_df) |}).

End GwPotential.


(** ** mapservice.py *)

(** The comparisons the classifier applies to depths: [a <= b] and [a < b]
    ([a > b] is [b < a]).  The values come from JSON, so they are Python
    floats or ints. *)
Class PyOrd (V : Type) := {
  py_le : V -> V -> bool;
  py_lt : V -> V -> bool
}.

#[global] Instance float_PyOrd : PyOrd float :=
  {| py_le := PrimFloat.leb; py_lt := PrimFloat.ltb |}.
#[global] Instance int_PyOrd : PyOrd Z :=
  {| py_le := Z.leb; py_lt := Z.ltb |}.

(** What the comparisons of Python numbers satisfy. *)
Class PyOrdLaws (V : Type) `{PyOrd V} : Prop := {
  py_le_trans : forall a b c : V, py_le a b = true -> py_le b c = true -> py_le a c = true;
  py_lt_le : forall a b : V, py_lt a b = true -> py_le a b = true;
  py_lt_not_le : forall a b : V, py_lt a b = true -> py_le b a = false
}.

Module MapService.

(** [str(n)] of an int, as an f-string prints it. *)
Definition str_of_int (n : Z) : string := NilZero.string_of_int (Z.to_int n).

Section Classifier.
Context {V : Type} `{PyOrd V}.

(** [pct_data.get(key)]: [None] for an absent key and for a JSON null. *)
Definition dict_get (pct_data : gmap string (option V)) (key : string) : option V :=
  match pct_data !! key with
  | Some v => v
  | None => None
  end.

Definition boundaries (pct_data : gmap string (option V)) : list (Z * option V) :=
  [ (0, dict_get pct_data "pct_lowest");
    (10, dict_get pct_data "pct_10");
    (25, dict_get pct_data "pct_25");
    (50, dict_get pct_data "pct_50");
    (75, dict_get pct_data "pct_75");
    (90, dict_get pct_data "pct_90");
    (100, dict_get pct_data "pct_highest") ].

(** [[(p, v) for p, v in boundaries if v is not None]] *)
Definition valid_of (bs : list (Z * option V)) : list (Z * V) :=
  omap (fun b => match b.2 with Some v => Some (b.1, v) | None => None end) bs.

(** The body of [for i in range(len(valid) - 1)]: [range] lists the values
    of [i] still to run; the first pair with [v2 <= depth <= v1] returns. *)
Fixpoint interval_loop (depth : V) (valid : list (Z * V)) (range : list nat)
  : result (option (string * Z)) :=
  match range with
  | [] => Ok None
  | i :: range' =>
      '(p1, v1) ← axis_index valid (Z.of_nat i);
      '(p2, v2) ← axis_index valid (Z.of_nat i + 1);
      if py_le v2 depth && py_le depth v1
      then Ok (Some (str_of_int p1 +:+ "-" +:+ str_of_int p2, (p1 + p2) / 2))
      else interval_loop depth valid range'
  end.

(** [calculate_percentile_class] once [valid] is built. *)
Definition classify_valid (depth : V) (valid : list (Z * V))
  : result (option string * option Z) :=
  if Z.of_nat (length valid) <? 2 then Ok (None, None)
  else
    found ← interval_loop depth valid (seq 0 (length valid - 1));
    match found with
    | Some (label, rank) => Ok (Some label, Some rank)
    | None =>
        first ← axis_index valid 0;
        if py_lt first.2 depth
        then Ok (Some ("<" +:+ str_of_int first.1), Some 0)
        else
          final ← axis_index valid (-1);
          if py_lt depth final.2
          then Ok (Some (">" +:+ str_of_int final.1), Some 100)
          else Ok (None, None)
    end.

(** [calculate_percentile_class(depth, pct_data)] *)
Definition calculate_percentile_class (depth : option V)
    (pct_data : gmap string (option V)) : result (option string * option Z) :=
  match depth with
  | None => Ok (None, None)
  | Some depth => classify_valid depth (valid_of (boundaries pct_data))
  end.

(** The pair of anchors [i], [i + 1] brackets [depth]: [v2 <= depth <= v1]. *)
Definition bracket_at (depth : V) (valid : list (Z * V)) (i : nat) : bool :=
  match valid !! i, valid !! S i with
  | Some (_, v1), Some (_, v2) => py_le v2 depth && py_le depth v1
  | _, _ => false
  end.

(** The class of the pair [i], [i + 1]: the label [p1-p2] and the midpoint
    [(p1 + p2) // 2]. *)
Definition class_at (valid : list (Z * V)) (i : nat) : option (string * Z) :=
  match valid !! i, valid !! S i with
  | Some (p1, _), Some (p2, _) =>
      Some (str_of_int p1 +:+ "-" +:+ str_of_int p2, (p1 + p2) / 2)
  | _, _ => None
  end.

(** The invariant of a boundary table: values do not increase with rank. *)
Fixpoint non_increasing (valid : list (Z * V)) : bool :=
  match valid with
  | (_, v1) :: (((_, v2) :: _) as rest) => py_le v2 v1 && non_increasing rest
  | _ => true
  end.

End Classifier.
End MapService.

(** ** What the dataset computation promises, row by row *)

Module DatasetSpec.
Import GwPotential.

(** The three column assignments on a single row. *)
Definition row6_of (dem : ndarray) (bounds : Bounds) (depth_unit : string)
    (r : row3) : result row6 :=
  depth_m ← (if String.eqb (lower depth_unit) "ft"
             then mul_cell (r_depth_original r) 0.3048%float
             else Ok (r_depth_original r));
  dem_m ← get_dem_value_cells dem bounds (r_lat r) (r_lon r);
  p ← sub_cell dem_m depth_m;
  Ok {| idx := r_idx r; Lat := r_lat r; Lon := r_lon r;
        Depth_original := r_depth_original r;
        Depth_m := p.1; DEM_m := dem_m; Potential_m := p.2 |}.

(** The depth cell of a row converted from feet. *)
Definition feet_to_m (r : row3) : cell :=
  match r_depth_original r with
  | CNum d => CNum (d * 0.3048)%float
  | CStr t => CStr t
  end.

(** The three statistics of an empty column, as [describe] writes them. *)
Definition nan_stats : stat3 :=
  {| st_min := JFloat nan; st_max := JFloat nan; st_mean := JFloat nan |}.

(** An input row the computation drops: a missing coordinate or depth, or
    no elevation. *)
Definition dropped (dem : ndarray) (bounds : Bounds) (r : row3) : Prop :=
  isna (r_lat r) = true \/ isna (r_lon r) = true \/
  isna (r_depth_original r) = true \/
  get_dem_value_cells dem bounds (r_lat r) (r_lon r) = Ok nan.

(** The fields of an output record against the input row [r] it carries the
    index of. *)
Definition record_of (dem : ndarray) (bounds : Bounds) (depth_unit : string)
    (r : row3) (lat lon : cell) (depth_m dem_m potential_m : float) : Prop :=
  lat = r_lat r /\ lon = r_lon r /\
  (exists d, r_depth_original r = CNum d /\
             depth_m = if String.eqb (lower depth_unit) "ft"
                       then (d * 0.3048)%float else d) /\
  PrimFloat.is_nan depth_m = false /\
  get_dem_value_cells dem bounds (r_lat r) (r_lon r) = Ok dem_m /\
  PrimFloat.is_nan dem_m = false /\
  potential_m = (dem_m - depth_m)%float.

(** The output [recs] against the input rows: the invariant
    [Potential_m = DEM_m - Depth_m] on every record, the input order kept,
    every record computed from the input row of its index, and no record
    for a dropped row. *)
Definition dataset_ok {R : Type} (p_idx : R -> nat) (p_lat p_lon : R -> cell)
    (p_depth_m p_dem_m p_potential_m : R -> float)
    (dem : ndarray) (bounds : Bounds) (depth_unit : string)
    (rows : list row3) (recs : list R) : Prop :=
  Forall (fun rec => p_potential_m rec = (p_dem_m rec - p_depth_m rec)%float) recs /\
  StronglySorted lt (p_idx <$> recs) /\
  Forall (fun rec => exists r, rows !! p_idx rec = Some r /\
            record_of dem bounds depth_unit r (p_lat rec) (p_lon rec)
                      (p_depth_m rec) (p_dem_m rec) (p_potential_m rec)) recs /\
  (forall i r, rows !! i = Some r -> dropped dem bounds r ->
               i ∉ p_idx <$> recs).

End DatasetSpec.

(** ** Sample data *)

Module Sample.

(** A 2 x 2 raster over the square [-1, 1] x [-1, 1]. *)
Definition grid2x2 : ndarray := [[11; 12]; [21; 22]]%float.
Definition unit_bounds : Bounds :=
  {| west := -1; south := -1; east := 1; north := 1 |}.

(** A single row of ten pixels over the unit square. *)
Definition strip1x10 : ndarray := [[0; 1; 2; 3; 4; 5; 6; 7; 8; 9]]%float.
Definition unit_square : Bounds :=
  {| west := 0; south := 0; east := 1; north := 1 |}.

(** Four wells with two dated depth columns; the third has no latitude,
    the second lies outside the raster, the fourth has no reading at the
    first date. *)
Definition wells : DataFrame :=
  [ ("Lat", Float64 [0.5; 3; nan; -0.5]%float);
    ("Lon", Float64 [0.5; 0; 0; 0.25]%float);
    ("Site", Object [CStr "A"; CStr "B"; CStr "C"; CStr "D"]);
    ("2023-06-20", Float64 [10; 20; 30; nan]%float);
    ("2023-01-15", Float64 [10; 20; 30; 40]%float) ]%string.

(** One complete well outside the raster. *)
Definition far_well : DataFrame :=
  [ ("Lat", Float64 [5]%float); ("Lon", Float64 [5]%float);
    ("Depth", Float64 [10]%float) ]%string.

(** A table with nothing to take for a depth: the only numeric columns are
    the reserved ones. *)
Definition no_depth : DataFrame :=
  [ ("Lat", Float64 [0.5]%float); ("Lon", Float64 [0.5]%float);
    ("Site", Float64 [7]%float); ("Name", Object [CStr "A"]) ]%string.

(** The rows of two wells, 10 and 20 deep. *)
Definition two_rows : list GwPotential.row3 :=
  [ {| GwPotential.r_idx := 0; GwPotential.r_lat := CNum 0.5;
       GwPotential.r_lon := CNum 0.5; GwPotential.r_depth_original := CNum 10 |};
    {| GwPotential.r_idx := 1; GwPotential.r_lat := CNum (-0.5);
       GwPotential.r_lon := CNum 0.25; GwPotential.r_depth_original := CNum 20 |} ]%float.

(** The boundary table of the specification's example: depths in feet,
    larger is worse. *)
Definition boundary : gmap string (option float) :=
  list_to_map
    [ ("pct_lowest", Some 40); ("pct_10", Some 25); ("pct_25", Some 18);
      ("pct_50", Some 12); ("pct_75", Some 8); ("pct_90", Some 5);
      ("pct_highest", Some 2) ]%string%float.

(** A table that is not monotonic. *)
Definition crooked : gmap string (option float) :=
  list_to_map
    [ ("pct_lowest", Some 10); ("pct_10", Some 30); ("pct_25", Some 20) ]%string%float.

End Sample.

(** * The rest of the pipeline

    What follows models the code around the functions above: the runs of
    the two entry points of [03_gw_potential.py] as a whole, the classes
    [calculate_percentile_class] can return, [get_measurement_history] and
    the class counts of [cadwr_gwinfo.py], [fetch_cadwr_data] of
    [mapservice.py], which calls them, and the marker
    [add_groundwater_sites] computes from its points. *)

(** What chains of [<=] and [<] give. *)
Class PyOrdChain (V : Type) `{PyOrd V} : Prop := {
  py_le_lt_trans : forall a b c : V, py_le a b = true -> py_lt b c = true -> py_lt a c = true;
  py_lt_le_trans : forall a b c : V, py_lt a b = true -> py_le b c = true -> py_lt a c = true
}.

Module PotentialSpec.
Import GwPotential.

(** The depth column the run works on: the one asked for, else the inferred
    one. *)
Definition resolve_depth_col (df : DataFrame) (depth_col : option string)
    (lat_col lon_col : string) : result string :=
  match depth_col with
  | Some c => Ok c
  | None => infer_depth_col df lat_col lon_col
  end.

(** A cell that holds a number. *)
Definition numeric_cell (c : cell) : Prop := exists x, c = CNum x.

(** The record of [calculate_potential] as [create_potential_dataset] keeps
    it, and its response. *)
Definition dataset_report (rep : report) : report :=
  {| depth_column := depth_column rep; depth_unit_echo := None;
     total_points := total_points rep;
     stats_depth_m := stats_depth_m rep; stats_dem_m := stats_dem_m rep;
     stats_potential_m := stats_potential_m rep |}.

End PotentialSpec.

Module ClassifierSpec.
Import MapService.

Section Outcomes.
Context {V : Type} `{PyOrd V}.
Implicit Types (depth : V) (valid : list (Z * V)) (pct_data : gmap string (option V)).

(** The outcome of the classifier once the anchors are collected. *)
Inductive outcome depth valid : option string * option Z -> Prop :=
  | in_bracket i label rank :
      List.find (bracket_at depth valid) (seq 0 (length valid - 1)) = Some i ->
      class_at valid i = Some (label, rank) ->
      outcome depth valid (Some label, Some rank)
  | above_all p0 v0 :
      List.find (bracket_at depth valid) (seq 0 (length valid - 1)) = None ->
      head valid = Some (p0, v0) -> py_lt v0 depth = true ->
      outcome depth valid (Some ("<" +:+ str_of_int p0), Some 0)
  | below_all p0 v0 pn vn :
      List.find (bracket_at depth valid) (seq 0 (length valid - 1)) = None ->
      head valid = Some (p0, v0) -> last valid = Some (pn, vn) ->
      py_lt v0 depth = false -> py_lt depth vn = true ->
      outcome depth valid (Some (">" +:+ str_of_int pn), Some 100)
  | unclassified :
      outcome depth valid (None, None).

(** The classes a table can give. *)
Definition classes : list (option string * option Z) :=
  [ (Some "0-10", Some 5); (Some "10-25", Some 17); (Some "25-50", Some 37);
    (Some "50-75", Some 62); (Some "75-90", Some 82); (Some "90-100", Some 95);
    (Some "<0", Some 0); (Some ">100", Some 100); (None, None) ].

(** A table with all seven anchors, none of them null. *)
Definition complete pct_data : Prop :=
  forall key, key ∈ ["pct_lowest"; "pct_10"; "pct_25"; "pct_50"; "pct_75"; "pct_90";
                     "pct_highest"] ->
    exists v : V, pct_data !! key = Some (Some v).

End Outcomes.
End ClassifierSpec.

Module Cases.
(** Two wells and one dated depth column, read as text because of the
    second entry. *)
Definition dry_well : DataFrame :=
  [ ("Lat", Float64 [0.5; 0.25]%float); ("Lon", Float64 [0.5; 0.5]%float);
    ("2024-05-01", Object [CStr "10"; CStr "dry"]) ]%string.
End Cases.

(** ** JSON values *)

(** The values of a flat JSON object as [json.loads] gives them: [None],
    [bool], [int], [float] and [str] (a character is a code point below
    256). *)
Module Json.

Inductive scalar :=
  | SNull
  | SBool (b : bool)
  | SInt (n : Z)
  | SFloat (x : float)
  | SStr (s : string).

(** A flat object: a dict from keys to scalars. *)
Abbreviation object := (gmap string scalar).

(** [r.get(key)] and [r.get(key, d)] *)
Definition get (r : object) (key : string) : scalar := default SNull (r !! key).
Definition get_or (r : object) (key : string) (d : scalar) : scalar := default d (r !! key).

(** [bool(v)]: [None], [False], zero and the empty string are false; NaN is
    true. *)
Definition truthy (v : scalar) : bool :=
  match v with
  | SNull => false
  | SBool b => b
  | SInt n => negb (n =? 0)
  | SFloat x => negb (x =? 0)%float
  | SStr s => negb (String.eqb s "")
  end.

(** [a or b] *)
Definition py_or (a b : scalar) : scalar := if truthy a then a else b.

(** [float(n)] as arithmetic on an [int] and a [float] converts: rounded to
    nearest, OverflowError when the result is not finite. *)
Definition float_of_int (n : Z) : result float :=
  let x := SF2Prim (binary_normalize prec emax n 0 false) in
  if PrimFloat.is_infinity x then Raise OverflowError else Ok x.

(** The operand of an arithmetic operator: a [bool] counts as an [int]. *)
Definition as_num (v : scalar) : option (Z + float) :=
  match v with
  | SBool b => Some (inl (Z.b2z b))
  | SInt n => Some (inl n)
  | SFloat x => Some (inr x)
  | SNull | SStr _ => None
  end.

(** [-v] *)
Definition neg (v : scalar) : result scalar :=
  match as_num v with
  | Some (inl n) => Ok (SInt (- n))
  | Some (inr x) => Ok (SFloat (- x))
  | None => Raise TypeError
  end.

(** [a - b] *)
Definition sub (a b : scalar) : result scalar :=
  match as_num a, as_num b with
  | Some (inl m), Some (inl n) => Ok (SInt (m - n))
  | Some (inl m), Some (inr y) => x ← float_of_int m; Ok (SFloat (x - y))
  | Some (inr x), Some (inl n) => y ← float_of_int n; Ok (SFloat (x - y))
  | Some (inr x), Some (inr y) => Ok (SFloat (x - y))
  | _, _ => Raise TypeError
  end.

(** [a <= b] on strings, as a proposition. *)
Definition str_le (a b : string) : Prop := String.leb a b = true.

(** [bool(s)] of an optional string argument. *)
Definition given (s : option string) : bool :=
  match s with
  | Some s => negb (String.eqb s "")
  | None => false
  end.

End Json.

(** ** cadwr_gwinfo.py *)

Module CadwrGwinfo.
Import Json.

(** The reply of the CKAN datastore: [response.status_code] and
    [response.json()], an object with [success] and [result.records], the
    records flat objects.  [json] is [None] when the body is no JSON,
    [records] is [None] when [result] or [records] is missing. *)
Record body := {
  success : scalar;
  records : option (list object)
}.
Record response := {
  status_code : Z;
  json : option body
}.

(** One entry of [measurements]. *)
Record measurement := {
  date : string;
  gwe_ft : scalar;
  depth_ft : scalar;
  gse_ft : scalar;
  qa : scalar;
  method : scalar;
  org : scalar
}.

(** What [get_measurement_history] returns: the object with [error], or the
    one with the measurements. *)
Inductive failure :=
  | NoReply                 (* [requests.get] raised *)
  | ApiStatus (code : Z)    (* [API error: {status_code}] *)
  | ApiRefused              (* [success] is false *)
  | Exception (e : exn).    (* [str(e)] of an exception raised on the way *)

Inductive history :=
  | HError (why : failure)
  | HMeasurements (site_code : string) (start_date end_date : option string)
      (count : nat) (measurements : list measurement).

(** [r.get('msmt_date', '')[:10]] *)
Definition msmt_date (r : object) : result string :=
  match get_or r "msmt_date" (SStr "") with
  | SStr s => Ok (substring 0 10 s)
  | _ => Raise TypeError
  end.

(** The two [continue] tests of the loop. *)
Definition skipped (start_date end_date : option string) (d : string) : bool :=
  match start_date with
  | Some s => negb (String.eqb s "") && String.ltb d s
  | None => false
  end
  || match end_date with
     | Some e => negb (String.eqb e "") && String.ltb e d
     | None => false
     end.

Definition measure (d : string) (r : object) : measurement :=
  {| date := d;
     gwe_ft := get r "gwe";
     depth_ft := get r "gse_gwe";
     gse_ft := get r "wlm_gse";
     qa := get_or r "wlm_qa_desc" (SStr "");
     method := get_or r "wlm_mthd_desc" (SStr "");
     org := get_or r "wlm_org_name" (SStr "") |}.

(** [for r in records: ...] *)
Fixpoint collect (start_date end_date : option string) (records : list object)
  : result (list measurement) :=
  match records with
  | [] => Ok []
  | r :: rest =>
      d ← msmt_date r;
      if skipped start_date end_date d then collect start_date end_date rest
      else ms ← collect start_date end_date rest; Ok (measure d r :: ms)
  end.

(** [measurements.sort(key=lambda x: x['date'])]: the stable sort of
    [list.sort], which compares keys with [<]. *)
Fixpoint insert_by_date (m : measurement) (sorted : list measurement) : list measurement :=
  match sorted with
  | [] => [m]
  | x :: rest =>
      if String.ltb (date x) (date m) then x :: insert_by_date m rest
      else m :: x :: rest
  end.
Definition sort_by_date (ms : list measurement) : list measurement :=
  foldr insert_by_date [] ms.

(** [get_measurement_history(site_code, start_date, end_date)] from the
    reply on; [None] for a request that raised. *)
Definition get_measurement_history (reply : option response) (site_code : string)
    (start_date end_date : option string) : history :=
  match reply with
  | None => HError NoReply
  | Some response =>
      if negb (status_code response =? 200) then HError (ApiStatus (status_code response))
      else
        match json response with
        | None => HError (Exception ValueError)
        | Some data =>
            if negb (truthy (success data)) then HError ApiRefused
            else
              match records data with
              | None => HError (Exception KeyError)
              | Some records =>
                  match collect start_date end_date records with
                  | Raise e => HError (Exception e)
                  | Ok measurements =>
                      let measurements := sort_by_date measurements in
                      HMeasurements site_code start_date end_date
                        (length measurements) measurements
                  end
              end
        end
  end.

Definition date_le (a b : measurement) : Prop := str_le (date a) (date b).

(** The date lies in the window the caller gave. *)
Definition in_window (start_date end_date : option string) (d : string) : Prop :=
  (forall s, start_date = Some s -> s <> ""%string -> String.leb s d = true) /\
  (forall e, end_date = Some e -> e <> ""%string -> String.leb d e = true).

(** The records of a good reply, as measurements, in the reply's order. *)
Definition kept (start_date end_date : option string) (records : list object)
  : list measurement :=
  omap (fun r => match msmt_date r with
                 | Ok d => if skipped start_date end_date d then None
                           else Some (measure d r)
                 | Raise _ => None
                 end) records.

(** [pc = w['percentile_class'] or 'Unknown'], and the same line on
    [wse_change_category]: the class of a well is a string or null. *)
Definition class_key (c : option string) : string :=
  match c with
  | Some s => if String.eqb s "" then "Unknown" else s
  | None => "Unknown"
  end.

(** The loop that fills [class_counts] in [get_percentile_stats] and
    [categories] in [get_seasonal_change], over the classes of the wells. *)
Definition count_classes (classes : list (option string)) : gmap string Z :=
  foldl (fun class_counts c =>
           let pc := class_key c in
           <[pc := default 0 (class_counts !! pc) + 1]> class_counts)
    ∅ classes.

(** The sum of the counts. *)
Definition total (counts : gmap string Z) : Z :=
  map_fold (fun _ n acc => n + acc) 0 counts.

End CadwrGwinfo.

Module Replies.
Import Json CadwrGwinfo.

(** Three readings of one site, latest first as the datastore sends them;
    the depths come as text. *)
Definition readings : list object :=
  [ {[ "msmt_date" := SStr "2024-03-01T00:00:00"; "gse_gwe" := SStr "12.5" ]};
    {[ "msmt_date" := SStr "2024-01-10T00:00:00"; "gse_gwe" := SStr "13.1" ]};
    {[ "msmt_date" := SStr "2023-12-15T00:00:00"; "gse_gwe" := SStr "14" ]} ]%string.

Definition good (records : list object) : option response :=
  Some {| status_code := 200;
          json := Some {| success := SBool true; records := Some records |} |}.

(** A reading without a date. *)
Definition undated : list object :=
  [ {[ "msmt_date" := SNull; "gse_gwe" := SStr "12.5" ]} ]%string.

End Replies.

(** ** mapservice.py: the data of the map *)

Module MapData.
Import Json CadwrGwinfo MapService.

(** A well of [get_current_levels] and one of [get_percentile_stats], with
    the keys [fetch_cadwr_data] reads.  Both functions set every key, so no
    default of [.get] applies; the values are typed as the feature layers
    declare them: a text field holds a string or null, a numeric field a
    number or null. *)
Record well (V : Type) := {
  w_site_code : option string;
  w_name : option string;
  w_lat : option V;
  w_lon : option V;
  w_county : option string;
  w_basin_name : option string;
  w_measurement_date : option string;
  w_depth_ft : option V;
  w_gwe_ft : option V;
  w_gse_ft : option V;
  w_well_use : option string
}.

Record ranked (V : Type) := {
  r_site_code : option string;
  r_pct_lowest : option V;
  r_pct_10 : option V;
  r_pct_25 : option V;
  r_pct_50 : option V;
  r_pct_75 : option V;
  r_pct_90 : option V;
  r_pct_highest : option V;
  r_percentile_class : option string;
  r_percentile_class_code : option V;
  r_count : option V
}.

(** [point_info] *)
Record point (V : Type) := {
  site_no : string;
  name : option string;
  lat : option V;
  lon : option V;
  source : string;
  county : option string;
  basin_name : option string;
  measurement_date : option string;
  depth_ft : option V;
  gwe_ft : option V;
  gse_ft : option V;
  well_use : option string;
  change : scalar;
  pct_lowest : option V;
  pct_10 : option V;
  pct_25 : option V;
  pct_50 : option V;
  pct_75 : option V;
  pct_90 : option V;
  pct_highest : option V;
  percentile_class : option string;
  percentile_class_code : option V;
  measurement_count : option V
}.

(** An entry of [site_timeseries]. *)
Record site_series := {
  dates : list string;
  values : list scalar
}.

#[global] Arguments w_site_code {V} _.
#[global] Arguments w_name {V} _.
#[global] Arguments w_lat {V} _.
#[global] Arguments w_lon {V} _.
#[global] Arguments w_county {V} _.
#[global] Arguments w_basin_name {V} _.
#[global] Arguments w_measurement_date {V} _.
#[global] Arguments w_depth_ft {V} _.
#[global] Arguments w_gwe_ft {V} _.
#[global] Arguments w_gse_ft {V} _.
#[global] Arguments w_well_use {V} _.
#[global] Arguments r_site_code {V} _.
#[global] Arguments r_pct_lowest {V} _.
#[global] Arguments r_pct_10 {V} _.
#[global] Arguments r_pct_25 {V} _.
#[global] Arguments r_pct_50 {V} _.
#[global] Arguments r_pct_75 {V} _.
#[global] Arguments r_pct_90 {V} _.
#[global] Arguments r_pct_highest {V} _.
#[global] Arguments r_percentile_class {V} _.
#[global] Arguments r_percentile_class_code {V} _.
#[global] Arguments r_count {V} _.
#[global] Arguments site_no {V} _.
#[global] Arguments name {V} _.
#[global] Arguments lat {V} _.
#[global] Arguments lon {V} _.
#[global] Arguments source {V} _.
#[global] Arguments county {V} _.
#[global] Arguments basin_name {V} _.
#[global] Arguments measurement_date {V} _.
#[global] Arguments depth_ft {V} _.
#[global] Arguments gwe_ft {V} _.
#[global] Arguments gse_ft {V} _.
#[global] Arguments well_use {V} _.
#[global] Arguments change {V} _.
#[global] Arguments pct_lowest {V} _.
#[global] Arguments pct_10 {V} _.
#[global] Arguments pct_25 {V} _.
#[global] Arguments pct_50 {V} _.
#[global] Arguments pct_75 {V} _.
#[global] Arguments pct_90 {V} _.
#[global] Arguments pct_highest {V} _.
#[global] Arguments percentile_class {V} _.
#[global] Arguments percentile_class_code {V} _.
#[global] Arguments measurement_count {V} _.

Section Fetch.
Context {V : Type} `{PyOrd V}.

(** The dict [pct_info] as the classifier reads it. *)
Definition table_of (r : ranked V) : gmap string (option V) :=
  list_to_map
    [ ("pct_lowest", r_pct_lowest r); ("pct_10", r_pct_10 r); ("pct_25", r_pct_25 r);
      ("pct_50", r_pct_50 r); ("pct_75", r_pct_75 r); ("pct_90", r_pct_90 r);
      ("pct_highest", r_pct_highest r) ]%string.

(** [{w['site_code']: w for w in pct_data.get('wells', [])}]: a later well
    replaces an earlier one of the same code. *)
Definition index_by_site (wells : list (ranked V)) : gmap (option string) (ranked V) :=
  foldl (fun pct_wells w => <[r_site_code w := w]> pct_wells) ∅ wells.

Definition with_class (p : point V) (c : option string) : point V :=
  {| site_no := site_no p; name := name p; lat := lat p; lon := lon p;
     source := source p; county := county p; basin_name := basin_name p;
     measurement_date := measurement_date p; depth_ft := depth_ft p;
     gwe_ft := gwe_ft p; gse_ft := gse_ft p; well_use := well_use p;
     change := change p;
     pct_lowest := pct_lowest p; pct_10 := pct_10 p; pct_25 := pct_25 p;
     pct_50 := pct_50 p; pct_75 := pct_75 p; pct_90 := pct_90 p;
     pct_highest := pct_highest p;
     percentile_class := c;
     percentile_class_code := percentile_class_code p;
     measurement_count := measurement_count p |}.

Definition with_change (p : point V) (c : scalar) : point V :=
  {| site_no := site_no p; name := name p; lat := lat p; lon := lon p;
     source := source p; county := county p; basin_name := basin_name p;
     measurement_date := measurement_date p; depth_ft := depth_ft p;
     gwe_ft := gwe_ft p; gse_ft := gse_ft p; well_use := well_use p;
     change := c;
     pct_lowest := pct_lowest p; pct_10 := pct_10 p; pct_25 := pct_25 p;
     pct_50 := pct_50 p; pct_75 := pct_75 p; pct_90 := pct_90 p;
     pct_highest := pct_highest p;
     percentile_class := percentile_class p;
     percentile_class_code := percentile_class_code p;
     measurement_count := measurement_count p |}.

(** The dict [point_info] of a well; [pct_info] is [None] for the default
    [{}] of [pct_wells.get]. *)
Definition point_info_of (site_code : string) (w : well V) (pct_info : option (ranked V))
  : point V :=
  {| site_no := site_code;
     name := w_name w;
     lat := w_lat w; lon := w_lon w;
     source := "CADWR";
     county := w_county w;
     basin_name := w_basin_name w;
     measurement_date := w_measurement_date w;
     depth_ft := w_depth_ft w;
     gwe_ft := w_gwe_ft w;
     gse_ft := w_gse_ft w;
     well_use := w_well_use w;
     change := SInt 0;
     pct_lowest := pct_info ≫= r_pct_lowest;
     pct_10 := pct_info ≫= r_pct_10;
     pct_25 := pct_info ≫= r_pct_25;
     pct_50 := pct_info ≫= r_pct_50;
     pct_75 := pct_info ≫= r_pct_75;
     pct_90 := pct_info ≫= r_pct_90;
     pct_highest := pct_info ≫= r_pct_highest;
     percentile_class :=
       match pct_info with
       | Some r => r_percentile_class r
       | None => Some ""%string
       end;
     percentile_class_code := pct_info ≫= r_percentile_class_code;
     measurement_count := pct_info ≫= r_count |}.

(** The body of [for well in wells] past the [continue]: the class is
    computed again from the depth where the site has statistics. *)
Definition point_of (site_code : string) (w : well V) (pct_info : option (ranked V))
  : result (point V) :=
  let point_info := point_info_of site_code w pct_info in
  match pct_info, depth_ft point_info with
  | Some r, Some _ =>
      '(calc_class, _) ← calculate_percentile_class (depth_ft point_info) (table_of r);
      match calc_class with
      | Some label =>
          if negb (String.eqb label "")
          then Ok (with_class point_info (Some label))
          else Ok point_info
      | None => Ok point_info
      end
  | _, _ => Ok point_info
  end.

(** [for well in wells: ...] *)
Fixpoint points_of (pct_wells : gmap (option string) (ranked V)) (wells : list (well V))
  : result (list (point V)) :=
  match wells with
  | [] => Ok []
  | w :: rest =>
      match w_site_code w, w_lat w, w_lon w with
      | Some site_code, Some _, Some _ =>
          if String.eqb site_code "" then points_of pct_wells rest
          else
            point_info ← point_of site_code w (pct_wells !! Some site_code);
            points_data ← points_of pct_wells rest;
            Ok (point_info :: points_data)
      | _, _, _ => points_of pct_wells rest
      end
  end.

(** [history.get('measurements', [])] *)
Definition measurements_of (h : history) : list measurement :=
  match h with
  | HMeasurements _ _ _ _ ms => ms
  | HError _ => []
  end.

(** [m.get('depth_ft') or (-(m.get('gwe_ft') or 0))] *)
Definition reading (m : measurement) : result scalar :=
  if truthy (CadwrGwinfo.depth_ft m) then Ok (CadwrGwinfo.depth_ft m)
  else neg (py_or (CadwrGwinfo.gwe_ft m) (SInt 0)).

(** [[(m['date'], ...) for m in measurements if m.get('depth_ft') or
    m.get('gwe_ft')]] *)
Definition valid_data (ms : list measurement) : result (list (string * scalar)) :=
  mapM (fun m => v ← reading m; Ok (date m, v))
    (filter (fun m => truthy (py_or (CadwrGwinfo.depth_ft m) (CadwrGwinfo.gwe_ft m)) = true) ms).

(** The body of the loop over the first points: the [try] block with its
    [except: pass].  [reply] is what the datastore answers for the site. *)
Definition visit (reply : nat -> string -> option response)
    (start_date end_date : option string)
    (state : list (point V) * gmap string site_series) (i : nat)
  : list (point V) * gmap string site_series :=
  let '(points_data, site_timeseries) := state in
  match points_data !! i with
  | None => state
  | Some p =>
      let site_code := site_no p in
      let history :=
        get_measurement_history (reply i site_code) site_code start_date end_date in
      match measurements_of history with
      | [] => state
      | measurements =>
          match valid_data measurements with
          | Raise _ => state
          | Ok [] => state
          | Ok valid =>
              let site_timeseries :=
                <[site_code := {| dates := valid.*1; values := valid.*2 |}]>
                  site_timeseries in
              if 2 <=? Z.of_nat (length valid) then
                match last valid, head valid with
                | Some final, Some first =>
                    match sub final.2 first.2 with
                    | Ok c => (<[i := with_change p c]> points_data, site_timeseries)
                    | Raise _ => (points_data, site_timeseries)
                    end
                | _, _ => (points_data, site_timeseries)
                end
              else (points_data, site_timeseries)
          end
      end
  end.

(** [fetch_cadwr_data]: [levels] and [percentiles] are the wells of the two
    replies, [None] for the object with [error]. *)
Definition fetch_cadwr_data (levels : option (list (well V)))
    (percentiles : option (list (ranked V)))
    (reply : nat -> string -> option response)
    (start_date end_date : option string)
  : result (list (point V) * gmap string site_series) :=
  match levels with
  | None | Some [] => Ok ([], ∅)
  | Some wells =>
      let pct_wells := index_by_site (default [] percentiles) in
      points_data ← points_of pct_wells wells;
      if given start_date && given end_date && negb (bool_decide (points_data = []))
      then
        let fetch_count := Nat.min 50 (length points_data) in
        Ok (foldl (visit reply start_date end_date) (points_data, ∅) (seq 0 fetch_count))
      else Ok (points_data, ∅)
  end.

(** What the [try] block writes for one site: the entry of
    [site_timeseries], and the new [change] if the subtraction is reached
    and raises nothing. *)
Definition site_update (h : history) : option (site_series * option scalar) :=
  match measurements_of h with
  | [] => None
  | measurements =>
      match valid_data measurements with
      | Ok ((first :: _) as valid) =>
          Some ({| dates := valid.*1; values := valid.*2 |},
                if 2 <=? Z.of_nat (length valid) then
                  match last valid with
                  | Some final =>
                      match sub final.2 first.2 with
                      | Ok c => Some c
                      | Raise _ => None
                      end
                  | None => None
                  end
                else None)
      | _ => None
      end
  end.

(** The point at position [j] once the loop has passed the positions below
    [n]. *)
Definition after (reply : nat -> string -> option response)
    (start_date end_date : option string) (n j : nat) (p0 : point V) : point V :=
  if decide (j < n)%nat then
    match site_update (get_measurement_history (reply j (site_no p0)) (site_no p0)
                         start_date end_date) with
    | Some (_, Some c) => with_change p0 c
    | _ => p0
    end
  else p0.

(** A well that becomes a point: it has a site code and both coordinates. *)
Definition located (w : well V) : option string :=
  match w_site_code w, w_lat w, w_lon w with
  | Some site_code, Some _, Some _ =>
      if String.eqb site_code "" then None else Some site_code
  | _, _, _ => None
  end.

End Fetch.
End MapData.

Module Wells.
Import Json CadwrGwinfo MapData Replies.

(** A well with its statistics, the table of the specification's example;
    the datastore has three depths for it, the earliest an int. *)
Definition well_a : well float :=
  {| w_site_code := Some "S1"%string; w_name := Some "Well A"%string;
     w_lat := Some 33.125%float; w_lon := Some (-117.25)%float;
     w_county := Some "San Diego"%string; w_basin_name := Some ""%string;
     w_measurement_date := Some "2024-03-01"%string;
     w_depth_ft := Some 15%float; w_gwe_ft := Some 100%float;
     w_gse_ft := Some 115%float; w_well_use := Some "Observation"%string |}.

(** A well without a longitude. *)
Definition well_b : well float :=
  {| w_site_code := Some "S2"%string; w_name := None;
     w_lat := Some 33.5%float; w_lon := None;
     w_county := None; w_basin_name := None; w_measurement_date := None;
     w_depth_ft := None; w_gwe_ft := None; w_gse_ft := None; w_well_use := None |}.

Definition ranked_a : ranked float :=
  {| r_site_code := Some "S1"%string;
     r_pct_lowest := Some 40%float; r_pct_10 := Some 25%float;
     r_pct_25 := Some 18%float; r_pct_50 := Some 12%float;
     r_pct_75 := Some 8%float; r_pct_90 := Some 5%float;
     r_pct_highest := Some 2%float;
     r_percentile_class := Some "Below Normal"%string;
     r_percentile_class_code := Some 3%float; r_count := Some 25%float |}.

Definition depths : list object :=
  [ {[ "msmt_date" := SStr "2024-03-01T00:00:00"; "gse_gwe" := SFloat 12.5 ]};
    {[ "msmt_date" := SStr "2024-01-10T00:00:00"; "gse_gwe" := SFloat 13.25 ]};
    {[ "msmt_date" := SStr "2023-12-15T00:00:00"; "gse_gwe" := SInt 14 ]} ]%string.

Definition year : option string * option string :=
  (Some "2023-06-01", Some "2024-05-31")%string.

End Wells.

(** ** mapservice.py: the marker of the sites *)

Module Marker.
Import Json MapData.

(** [m < y] and [x < n] between an [int] and a [float]: Python compares the
    two values exactly, without converting the [int].  A finite binary64
    value is a whole number of units of [2^-1074]. *)
Definition int_lt_float (m : Z) (y : float) : bool :=
  match Prim2SF y with
  | S754_nan => false
  | S754_infinity s => negb s
  | _ => m * 2 ^ 1074 <? SF.units (Prim2SF y)
  end.
Definition float_lt_int (x : float) (n : Z) : bool :=
  match Prim2SF x with
  | S754_nan => false
  | S754_infinity s => s
  | _ => SF.units (Prim2SF x) <? n * 2 ^ 1074
  end.

(** [a < b]; [a > b] is [b < a]. *)
Definition lt (a b : scalar) : result bool :=
  match a, b with
  | SStr s, SStr t => Ok (String.ltb s t)
  | _, _ =>
      match as_num a, as_num b with
      | Some (inl m), Some (inl n) => Ok (m <? n)
      | Some (inl m), Some (inr y) => Ok (int_lt_float m y)
      | Some (inr x), Some (inl n) => Ok (float_lt_int x n)
      | Some (inr x), Some (inr y) => Ok (x <? y)%float
      | _, _ => Raise TypeError
      end
  end.

(** [c != 0] *)
Definition nonzero (c : scalar) : bool :=
  match c with
  | SNull | SStr _ => true
  | SBool b => b
  | SInt n => negb (n =? 0)
  | SFloat x => negb (x =? 0)%float
  end.

(** [min(xs)] and [max(xs)]: the first item stays unless a later one is
    smaller (greater); ValueError on an empty list. *)
Fixpoint min_from (lowest : scalar) (rest : list scalar) : result scalar :=
  match rest with
  | [] => Ok lowest
  | item :: rest =>
      match lt item lowest with
      | Ok smaller => min_from (if smaller then item else lowest) rest
      | Raise e => Raise e
      end
  end.
Fixpoint max_from (highest : scalar) (rest : list scalar) : result scalar :=
  match rest with
  | [] => Ok highest
  | item :: rest =>
      match lt highest item with
      | Ok greater => max_from (if greater then item else highest) rest
      | Raise e => Raise e
      end
  end.
Definition py_min (xs : list scalar) : result scalar :=
  match xs with
  | [] => Raise ValueError
  | x :: rest => min_from x rest
  end.
Definition py_max (xs : list scalar) : result scalar :=
  match xs with
  | [] => Raise ValueError
  | x :: rest => max_from x rest
  end.

(** The [marker] of [add_groundwater_sites]: the plain one, or the one
    coloured by the changes with its range; the other entries are
    constants. *)
Inductive marker :=
  | Plain
  | Scaled (cmin cmax : scalar).

(** [-10 if min(changes) > -10 else min(changes)] and
    [10 if max(changes) < 10 else max(changes)] *)
Definition cmin_of (changes : list scalar) : result scalar :=
  Py.bind (py_min changes) (fun lowest =>
  Py.bind (lt (SInt (-10)) lowest) (fun above : bool =>
  if above then Ok (SInt (-10)) else py_min changes)).
Definition cmax_of (changes : list scalar) : result scalar :=
  Py.bind (py_max changes) (fun highest =>
  Py.bind (lt highest (SInt 10)) (fun below : bool =>
  if below then Ok (SInt 10) else py_max changes)).

Definition marker_of (colorscale : option string) (changes : list scalar)
  : result marker :=
  if given colorscale && existsb nonzero changes then
    Py.bind (cmin_of changes) (fun cmin =>
    Py.bind (cmax_of changes) (fun cmax =>
    Ok (Scaled cmin cmax)))
  else Ok Plain.

(** [add_groundwater_sites] up to the marker: nothing is drawn without
    points. *)
Definition site_marker {V : Type} (points_data : list (point V))
    (colorscale : option string) : result (option marker) :=
  match points_data with
  | [] => Ok None
  | _ => Py.bind (marker_of colorscale (change <$> points_data)) (fun m => Ok (Some m))
  end.

(** [a <= b] on two numbers, as the comparison that decides it: [b < a] is
    false. *)
Definition not_above (a b : scalar) : Prop := lt b a = Ok false.

(** An [int], or a [float] other than NaN. *)
Definition ordered (c : scalar) : Prop :=
  match c with
  | SInt _ => True
  | SFloat x => PrimFloat.is_nan x = false
  | _ => False
  end.

(** An [int] or a [float], NaN included. *)
Definition numeric (c : scalar) : Prop :=
  match c with
  | SInt _ | SFloat _ => True
  | _ => False
  end.

(** The position of an ordered number on the line: its value in units of
    [2^-1074], or an end of the line. *)
Inductive place :=
  | Bottom
  | At (z : Z)
  | Top.

Definition sf_place (x : spec_float) : place :=
  match x with
  | S754_infinity s => if s then Bottom else Top
  | _ => At (SF.units x)
  end.

Definition place_of (c : scalar) : place :=
  match c with
  | SInt n => At (n * 2 ^ 1074)
  | SFloat x => sf_place (Prim2SF x)
  | _ => At 0
  end.

Definition place_ltb (p q : place) : bool :=
  match p, q with
  | Bottom, Bottom => false
  | Bottom, _ => true
  | At _, Bottom => false
  | At a, At b => a <? b
  | At _, Top => true
  | Top, _ => false
  end.

End Marker.

(** * Facts about binary64 arithmetic

    [FloatAxioms] gives each primitive operation its [SpecFloat] function;
    the lemmas below read off those functions what the samplers rely on:
    the order, the sign of a difference, a few exact results, and that
    rounding to nearest is monotone, so that a quotient of [0 <= x <= y]
    is at most [1] and its product with [n] at most [n]. *)

Module SFFacts.
Import SF.

(** [lia] with the powers of two taken as atoms. *)
Ltac pow_atoms :=
  repeat match goal with
         | |- context [Z.pow ?a ?b] =>
             let x := fresh "pw" in set (x := Z.pow a b) in *; clearbody x
         | H : context [Z.pow ?a ?b] |- _ =>
             let x := fresh "pw" in set (x := Z.pow a b) in *; clearbody x
         end.
Ltac lia_pow := pow_atoms; lia.

Lemma digits2_pos_bounds (p : positive) :
  2 ^ (Z.pos (digits2_pos p) - 1) <= Z.pos p < 2 ^ Z.pos (digits2_pos p).
Proof.
  induction p as [p IH|p IH|]; cbn [digits2_pos].
  - rewrite Pos2Z.inj_succ. change (Z.pos p~1) with (2 * Z.pos p + 1).
    replace (Z.succ (Z.pos (digits2_pos p)) - 1) with (Z.succ (Z.pos (digits2_pos p) - 1)) by lia.
    rewrite !Z.pow_succ_r by lia. lia_pow.
  - rewrite Pos2Z.inj_succ. change (Z.pos p~0) with (2 * Z.pos p).
    replace (Z.succ (Z.pos (digits2_pos p)) - 1) with (Z.succ (Z.pos (digits2_pos p) - 1)) by lia.
    rewrite !Z.pow_succ_r by lia. lia_pow.
  - simpl. lia.
Qed.

Lemma pos_iter_xO (m d : positive) :
  Z.pos (Pos.iter xO m d) = Z.pos m * 2 ^ Z.pos d.
Proof.
  induction d as [|d IH] using Pos.peano_ind.
  - simpl. lia.
  - rewrite Pos.iter_succ.
    change (Z.pos (Pos.iter xO m d)~0) with (2 * Z.pos (Pos.iter xO m d)).
    rewrite IH, Pos2Z.inj_succ, Z.pow_succ_r by lia. lia.
Qed.

Lemma shl_align_value (m : positive) (e e' : Z) :
  e' <= e ->
  Z.pos (fst (shl_align m e e')) = Z.pos m * 2 ^ (e - e').
Proof.
  intros He. unfold shl_align.
  destruct (e' - e) as [|d|d] eqn:Hd; cbn [fst].
  - replace (e - e') with 0 by lia. lia.
  - lia.
  - rewrite pos_iter_xO. f_equal. f_equal. lia.
Qed.

Lemma valid_finite (s : bool) (m : positive) (e : Z) :
  valid_binary (S754_finite s m e) = true ->
  -1074 <= e <= 971 /\ Z.pos (digits2_pos m) <= 53 /\
  (-1074 < e -> Z.pos (digits2_pos m) = 53).
Proof.
  unfold valid_binary, SpecFloat.valid_binary, bounded, canonical_mantissa, fexp, SpecFloat.emin, prec, emax.
  rewrite andb_true_iff, Z.eqb_eq, Z.leb_le. intros [H1 H2]. lia.
Qed.


Lemma pos_lt_aligned (mx my : positive) (ex ey : Z) :
  valid_binary (S754_finite false mx ex) = true ->
  valid_binary (S754_finite false my ey) = true ->
  ex < ey ->
  Z.pos mx < Z.pos my * 2 ^ (ey - ex).
Proof.
  intros Hx Hy Hlt.
  apply valid_finite in Hx as (Hex & Hdx & _).
  apply valid_finite in Hy as (Hey & _ & Hdy).
  specialize (Hdy ltac:(lia)).
  pose proof (digits2_pos_bounds mx) as [_ Bx].
  pose proof (digits2_pos_bounds my) as [By _].
  rewrite Hdy in By.
  assert (Z.pos mx < 2 ^ 53).
  { eapply Z.lt_le_trans; [exact Bx|]. apply Z.pow_le_mono_r; lia. }
  assert (2 ^ 1 <= 2 ^ (ey - ex)) by (apply Z.pow_le_mono_r; lia).
  change (2 ^ (53 - 1)) with 4503599627370496 in By.
  change (2 ^ 53) with 9007199254740992 in H.
  change (2 ^ 1) with 2 in H0. nia.
Qed.

Lemma compare_aligned_diff (sx : bool) (mx : positive) (ex : Z)
    (sy : bool) (my : positive) (ey : Z) :
  valid_binary (S754_finite sx mx ex) = true ->
  valid_binary (S754_finite sy my ey) = true ->
  SFcompare (S754_finite sx mx ex) (S754_finite sy my ey)
  = Some (aligned_diff sx mx ex sy my ey ?= 0).
Proof.
  intros Hx Hy. unfold aligned_diff.
  rewrite !shl_align_value by lia.
  assert (Vx : valid_binary (S754_finite false mx ex) = true) by exact Hx.
  assert (Vy : valid_binary (S754_finite false my ey) = true) by exact Hy.
  cbn [SFcompare]. f_equal.
  destruct (Z.compare_spec ex ey) as [Heq|Hlt|Hgt].
  - subst ey. rewrite Z.min_id, Z.sub_diag, Z.pow_0_r, !Z.mul_1_r.
    rewrite Pos.compare_cont_spec. cbn [Pos.switch_Eq].
    change (Pos.compare mx my) with (Z.compare (Z.pos mx) (Z.pos my)).
    destruct sx, sy; cbn [cond_Zopp];
      destruct (Z.compare_spec (Z.pos mx) (Z.pos my)); cbn [CompOpp]; symmetry;
      first [apply Z.compare_eq_iff | apply Z.compare_lt_iff | apply Z.compare_gt_iff]; lia.
  - pose proof (pos_lt_aligned mx my ex ey Vx Vy Hlt).
    rewrite Z.min_l, Z.sub_diag, Z.pow_0_r, Z.mul_1_r by lia.
    destruct sx, sy; cbn [cond_Zopp]; symmetry;
      first [apply Z.compare_lt_iff | apply Z.compare_gt_iff]; lia.
  - pose proof (pos_lt_aligned my mx ey ex Vy Vx ltac:(lia)).
    rewrite Z.min_r, Z.sub_diag, Z.pow_0_r, Z.mul_1_r by lia.
    destruct sx, sy; cbn [cond_Zopp]; symmetry;
      first [apply Z.compare_lt_iff | apply Z.compare_gt_iff]; lia.
Qed.


Lemma aligned_diff_swap sx mx ex sy my ey :
  aligned_diff sy my ey sx mx ex = - aligned_diff sx mx ex sy my ey.
Proof. unfold aligned_diff. rewrite (Z.min_comm ey ex). lia. Qed.

Lemma binary_round_aux_sign s m e l :
  match binary_round_aux prec emax s m e l with
  | S754_zero s' | S754_finite s' _ _ | S754_infinity s' => s' = s
  | S754_nan => True
  end.
Proof.
  unfold binary_round_aux.
  destruct (shr_fexp prec emax m e l) as [mrs' e'].
  destruct (shr_fexp prec emax _ e' loc_Exact) as [mrs'' e''].
  destruct (shr_m mrs''); try easy.
  destruct (e'' <=? emax - prec); easy.
Qed.

Lemma binary_normalize_nonneg d e :
  0 <= d -> sign_clear_or_nan (binary_normalize prec emax d e false).
Proof.
  intros Hd. destruct d as [|p|p]; [easy| |lia].
  cbn [binary_normalize]. unfold binary_round.
  destruct (shl_align _ _ _) as [mz ez].
  pose proof (binary_round_aux_sign false (Z.pos mz) ez loc_Exact) as Hs.
  destruct (binary_round_aux _ _ _ _ _ _); cbn; try easy; subst; easy.
Qed.

Lemma sign_clear_nonneg x : sign_clear_or_nan x -> nonneg_or_nan x.
Proof. destruct x as [[]|[]| |[] ? ?]; easy. Qed.

Lemma SFleb_compare x y :
  SFleb x y = true -> SFcompare x y = Some Lt \/ SFcompare x y = Some Eq.
Proof. unfold SFleb. destruct (SFcompare x y) as [[]|]; auto; discriminate. Qed.

Lemma SFltb_compare x y : SFltb x y = true -> SFcompare x y = Some Lt.
Proof. unfold SFltb. destruct (SFcompare x y) as [[]|]; auto; discriminate. Qed.

(** [y <= x] makes [x - y] zero, positive or NaN. *)
Lemma SFsub_nonneg x y :
  valid_binary x = true -> valid_binary y = true ->
  SFleb y x = true -> nonneg_or_nan (SFsub prec emax x y).
Proof.
  intros Vx Vy Hle.
  destruct x as [sx|sx| |sx mx ex], y as [sy|sy| |sy my ey];
    try discriminate Hle; try (destruct sx, sy; easy); try (destruct sx; easy);
    try (destruct sy; easy).
  cbn [SFsub]. apply sign_clear_nonneg, binary_normalize_nonneg.
  apply SFleb_compare in Hle. rewrite compare_aligned_diff in Hle by assumption.
  rewrite aligned_diff_swap in Hle. unfold aligned_diff in Hle. cbv zeta in *.
  set (A := cond_Zopp sx _) in *. set (B := cond_Zopp sy _) in *.
  destruct Hle as [Hc|Hc]; injection Hc as Hc.
  - change (- (A - B) < 0) in Hc. lia.
  - apply Z.compare_eq in Hc. lia.
Qed.


Lemma SFmul_nonneg x n :
  nonneg_or_nan x -> sign_clear_or_nan n -> nonneg_or_nan (SFmul prec emax x n).
Proof.
  intros Hx Hn.
  destruct x as [sx|sx| |sx mx ex], n as [sn|sn| |sn mn en];
    try easy; try (destruct sx, sn; easy).
  destruct sx, sn; try easy. cbn [SFmul].
  pose proof (binary_round_aux_sign (xorb false false) (Z.pos (mx * mn)) (ex + en) loc_Exact) as Hs.
  destruct (binary_round_aux _ _ _ _ _ _); cbn in *; try easy; subst; easy.
Qed.


(** The order is transitive: it is lexicographic on sign, exponent and
    mantissa. *)
Lemma SFleb_trans x y z :
  SFleb x y = true -> SFleb y z = true -> SFleb x z = true.
Proof.
  unfold SFleb.
  destruct x as [sx|sx| |sx mx ex], y as [sy|sy| |sy my ey], z as [sz|sz| |sz mz ez];
    cbn [SFcompare]; try easy;
    try (destruct sx; try easy; destruct sy; try easy; destruct sz; easy);
    try (destruct sx; try easy; destruct sy; easy);
    try (destruct sx; try easy; destruct sz; easy);
    try (destruct sy; try easy; destruct sz; easy).
  change (Pos.compare_cont Eq mx my) with (Pos.compare mx my).
  change (Pos.compare_cont Eq my mz) with (Pos.compare my mz).
  change (Pos.compare_cont Eq mx mz) with (Pos.compare mx mz).
  destruct sx, sy, sz; try easy;
    destruct (Z.compare_spec ex ey), (Z.compare_spec ey ez), (Z.compare_spec ex ez);
    try easy; try lia; subst;
    destruct (Pos.compare_spec mx my), (Pos.compare_spec my mz), (Pos.compare_spec mx mz);
    cbn [CompOpp]; try easy; lia.
Qed.


(** *** Shifts *)

Lemma iter_pos_nat {A} (f : A -> A) (p : positive) (x : A) :
  SpecFloat.iter_pos f p x = Nat.iter (Pos.to_nat p) f x.
Proof.
  revert x. induction p as [p IH|p IH|]; intros x; cbn [SpecFloat.iter_pos].
  - rewrite !IH, Pos2Nat.inj_xI.
    replace (S (2 * Pos.to_nat p))%nat with (Pos.to_nat p + S (Pos.to_nat p))%nat by lia.
    rewrite Nat.iter_add. f_equal. now rewrite Nat.iter_succ_r.
  - rewrite !IH, Pos2Nat.inj_xO.
    replace (2 * Pos.to_nat p)%nat with (Pos.to_nat p + Pos.to_nat p)%nat by lia.
    now rewrite Nat.iter_add.
  - reflexivity.
Qed.

Lemma shr_m_shr_1 (r : shr_record) :
  0 <= shr_m r -> shr_m (shr_1 r) = shr_m r / 2.
Proof.
  destruct r as [m rb sb]. cbn [shr_m shr_1]. intros Hm.
  destruct m as [|[p|p|]|p]; cbn [shr_m]; try lia; try reflexivity.
  - change (Z.pos p~1) with (2 * Z.pos p + 1).
    apply Z.div_unique with 1; lia.
  - change (Z.pos p~0) with (2 * Z.pos p).
    apply Z.div_unique with 0; lia.
Qed.

Lemma shr_m_iter (k : nat) (r : shr_record) :
  0 <= shr_m r -> shr_m (Nat.iter k shr_1 r) = shr_m r / 2 ^ Z.of_nat k.
Proof.
  intros Hm. induction k as [|k IH].
  - cbn. now rewrite Z.div_1_r.
  - rewrite Nat.iter_succ, shr_m_shr_1.
    + rewrite IH, Nat2Z.inj_succ, Z.pow_succ_r, Z.div_div by lia.
      f_equal. lia.
    + rewrite IH. apply Z.div_pos; lia.
Qed.

Lemma shr_m_shr (m : Z) (l : location) (e n : Z) :
  0 <= m ->
  shr_m (fst (shr (shr_record_of_loc m l) e n)) = m / 2 ^ Z.max n 0 /\
  snd (shr (shr_record_of_loc m l) e n) = e + Z.max n 0.
Proof.
  intros Hm.
  assert (Hr : shr_m (shr_record_of_loc m l) = m) by (destruct l as [|[]]; reflexivity).
  unfold shr. destruct n as [|p|p]; cbn [fst snd].
  - rewrite Hr. cbn. rewrite Z.div_1_r. lia.
  - rewrite iter_pos_nat, shr_m_iter, Hr by lia.
    rewrite positive_nat_Z. replace (Z.max (Z.pos p) 0) with (Z.pos p) by lia. lia.
  - rewrite Hr. replace (Z.max (Z.neg p) 0) with 0 by lia.
    cbn. rewrite Z.div_1_r. lia.
Qed.

Lemma Zdigits2_bounds (m : Z) :
  0 < m -> 2 ^ (Zdigits2 m - 1) <= m < 2 ^ Zdigits2 m.
Proof. destruct m as [|p|p]; try lia. intros _. apply digits2_pos_bounds. Qed.

(** Rounding a positive mantissa whose exponent is at least [emin] never
    reaches zero. *)
Lemma shr_fexp_pos (m : Z) (e : Z) (l : location) :
  0 < m -> -1074 <= e ->
  0 < shr_m (fst (shr_fexp prec emax m e l)) /\
  -1074 <= snd (shr_fexp prec emax m e l).
Proof.
  intros Hm He. unfold shr_fexp.
  destruct (shr_m_shr m l e (fexp prec emax (Zdigits2 m + e) - e) ltac:(lia)) as [-> ->].
  pose proof (Zdigits2_bounds m Hm) as [Hlo _].
  assert (Hd : 1 <= Zdigits2 m) by (destruct m; cbn; lia).
  unfold fexp, SpecFloat.emin, prec, emax.
  set (n := Z.max _ 0).
  assert (Hn : 0 <= n <= Zdigits2 m - 1) by (unfold n; lia).
  split; [|lia].
  apply Z.div_str_pos. split; [lia|].
  eapply Z.le_trans; [|exact Hlo]. apply Z.pow_le_mono_r; lia.
Qed.

Lemma round_nearest_even_pos (m : Z) (l : location) :
  0 < m -> 0 < round_nearest_even m l.
Proof. intros Hm. destruct l as [|[]]; cbn; try lia. destruct (Z.even m); lia. Qed.


Lemma binary_round_aux_pos (m : Z) (e : Z) (l : location) :
  0 < m -> -1074 <= e ->
  positive_sf (binary_round_aux prec emax false m e l).
Proof.
  intros Hm He. unfold binary_round_aux.
  pose proof (shr_fexp_pos m e l Hm He) as [H1 H2].
  destruct (shr_fexp prec emax m e l) as [mrs' e']. cbn [fst snd] in H1, H2.
  pose proof (shr_fexp_pos _ e' loc_Exact
                (round_nearest_even_pos _ (loc_of_shr_record mrs') H1) H2) as [H3 _].
  destruct (shr_fexp prec emax _ e' loc_Exact) as [mrs'' e'']. cbn [fst] in H3.
  destruct (shr_m mrs''); try lia.
  destruct (e'' <=? emax - prec); exact I.
Qed.

Lemma binary_normalize_pos (d : Z) (e : Z) :
  0 < d -> -1074 <= e ->
  positive_sf (binary_normalize prec emax d e false).
Proof.
  intros Hd He. destruct d as [|p|p]; try lia.
  cbn [binary_normalize]. unfold binary_round, shl_align.
  set (e' := fexp prec emax (Z.pos (digits2_pos p) + e)).
  assert (-1074 <= e') by (unfold e', fexp, SpecFloat.emin, prec, emax; lia).
  destruct (e' - e) eqn:Hs; apply binary_round_aux_pos; lia.
Qed.

(** [y < x] makes [x - y] positive: subtraction never rounds to zero. *)
Lemma SFsub_pos x y :
  valid_binary x = true -> valid_binary y = true ->
  SFltb y x = true -> positive_sf (SFsub prec emax x y).
Proof.
  intros Vx Vy Hlt.
  destruct x as [sx|sx| |sx mx ex], y as [sy|sy| |sy my ey];
    try discriminate Hlt; try (destruct sx, sy; easy); try (destruct sx; easy);
    try (destruct sy; easy).
  cbn [SFsub].
  apply valid_finite in Vx as Hx. apply valid_finite in Vy as Hy.
  apply binary_normalize_pos; [|lia].
  apply SFltb_compare in Hlt. rewrite compare_aligned_diff in Hlt by assumption.
  rewrite aligned_diff_swap in Hlt. unfold aligned_diff in Hlt. cbv zeta in *.
  injection Hlt as Hc.
  set (A := cond_Zopp sx _) in *. set (B := cond_Zopp sy _) in *.
  change (- (A - B) < 0) in Hc. lia.
Qed.


(** *** Exact results *)

Lemma shr_1_even (q : Z) :
  0 <= q ->
  shr_1 (Build_shr_record (2 * q) false false) = Build_shr_record q false false.
Proof. destruct q as [|p|p]; try lia; reflexivity. Qed.

Lemma shr_iter_exact (k : nat) (q : Z) :
  0 <= q ->
  Nat.iter k shr_1 (Build_shr_record (q * 2 ^ Z.of_nat k) false false)
  = Build_shr_record q false false.
Proof.
  intros Hq. induction k as [|k IH].
  - cbn. now rewrite Z.mul_1_r.
  - rewrite Nat.iter_succ_r, Nat2Z.inj_succ, Z.pow_succ_r by lia.
    replace (q * (2 * 2 ^ Z.of_nat k)) with (2 * (q * 2 ^ Z.of_nat k)) by lia.
    rewrite shr_1_even; [exact IH|]. apply Z.mul_nonneg_nonneg; lia.
Qed.

Lemma digits2_pos_unique (p : positive) (d : Z) :
  2 ^ (d - 1) <= Z.pos p < 2 ^ d -> Z.pos (digits2_pos p) = d.
Proof.
  intros [Hlo Hhi]. pose proof (digits2_pos_bounds p) as [Blo Bhi].
  assert (0 < d).
  { destruct (Z_lt_le_dec 0 d) as [|Hd]; [assumption|].
    assert (2 ^ d <= 2 ^ 0) by (destruct (Z.eq_dec d 0) as [->|];
      [lia | rewrite Z.pow_neg_r by lia; cbn; lia]).
    cbn in *. lia. }
  assert (d - 1 < Z.pos (digits2_pos p)).
  { apply (Z.pow_lt_mono_r_iff 2); lia. }
  assert (Z.pos (digits2_pos p) - 1 < d).
  { apply (Z.pow_lt_mono_r_iff 2); lia. }
  lia.
Qed.

Lemma digits2_pos_shift (m m' : positive) (k : Z) :
  0 <= k -> Z.pos m' = Z.pos m * 2 ^ k ->
  Z.pos (digits2_pos m') = Z.pos (digits2_pos m) + k.
Proof.
  intros Hk Hm. apply digits2_pos_unique. rewrite Hm.
  pose proof (digits2_pos_bounds m) as [Blo Bhi].
  replace (Z.pos (digits2_pos m) + k - 1) with (Z.pos (digits2_pos m) - 1 + k) by lia.
  rewrite !Z.pow_add_r by lia.
  assert (0 < 2 ^ k) by (apply Z.pow_pos_nonneg; lia).
  split; [apply Z.mul_le_mono_nonneg_r | apply Z.mul_lt_mono_pos_r]; lia.
Qed.

(** A mantissa that is a representable one shifted left by [k] rounds to
    it, exactly. *)
Lemma binary_round_aux_exact (s : bool) (m m' : positive) (e k : Z) :
  bounded prec emax m e = true -> 0 <= k -> Z.pos m' = Z.pos m * 2 ^ k ->
  binary_round_aux prec emax s (Z.pos m') (e - k) loc_Exact = S754_finite s m e.
Proof.
  intros Hb Hk Hm.
  pose proof Hb as Hb'. unfold bounded, canonical_mantissa in Hb'.
  apply andb_true_iff in Hb' as [Hc He]. apply Z.eqb_eq in Hc.
  unfold binary_round_aux, shr_fexp. cbn [Zdigits2].
  rewrite (digits2_pos_shift m m' k Hk Hm).
  replace (Z.pos (digits2_pos m) + k + (e - k)) with (Z.pos (digits2_pos m) + e) by lia.
  rewrite Hc. replace (e - (e - k)) with k by lia.
  assert (Hshr : shr (shr_record_of_loc (Z.pos m') loc_Exact) (e - k) k
                 = (Build_shr_record (Z.pos m) false false, e)).
  { unfold shr, shr_record_of_loc. destruct k as [|p|p]; try lia.
    - f_equal; [|lia]. f_equal. rewrite Hm. cbn. lia.
    - rewrite iter_pos_nat, Hm, <- (positive_nat_Z p), shr_iter_exact by lia.
      f_equal. lia. }
  rewrite Hshr. cbn [shr_m loc_of_shr_record round_nearest_even Zdigits2].
  rewrite Hc, Z.sub_diag. cbn [shr shr_record_of_loc shr_m].
  now rewrite He.
Qed.

Lemma binary_round_aux_canonical (s : bool) (m : positive) (e : Z) :
  bounded prec emax m e = true ->
  binary_round_aux prec emax s (Z.pos m) e loc_Exact = S754_finite s m e.
Proof.
  intros Hb. rewrite <- (binary_round_aux_exact s m m e 0 Hb); try lia.
  now rewrite Z.sub_0_r.
Qed.


Lemma SFcompare_refl x : x <> S754_nan -> SFcompare x x = Some Eq.
Proof.
  destruct x as [s|s| |s m e]; try easy; intros _; cbn [SFcompare].
  - now destruct s.
  - rewrite Z.compare_refl, Pos.compare_cont_refl. now destruct s.
Qed.

Lemma SFltb_leb x y : SFltb x y = true -> SFleb x y = true.
Proof. unfold SFltb, SFleb. now destruct (SFcompare x y) as [[]|]. Qed.


Lemma SFsub_finite x y :
  sf_finite (SFsub prec emax x y) = true -> sf_finite x = true /\ sf_finite y = true.
Proof.
  destruct x as [sx|sx| |sx mx ex], y as [sy|sy| |sy my ey]; try easy;
    destruct sx, sy; easy.
Qed.

Lemma SFsub_diag x : sf_finite x = true -> SFsub prec emax x x = S754_zero false.
Proof.
  destruct x as [s|s| |s m e]; try easy; intros _; cbn [SFsub].
  - now destruct s.
  - now rewrite Z.sub_diag.
Qed.


Lemma SFdiv_diag s m e :
  SFdiv prec emax (S754_finite s m e) (S754_finite s m e) = SFone.
Proof.
  cbn [SFdiv]. unfold SFdiv_core_binary. cbn [Zdigits2].
  rewrite !Z.sub_diag.
  change (Z.min (fexp prec emax 0) 0) with (-53).
  change (0 - -53) with 53.
  assert (Hd : Z.div_eucl (Z.shiftl (Z.pos m) 53) (Z.pos m) = (2 ^ 53, 0)).
  { rewrite Z.shiftl_mul_pow2 by lia.
    pose proof (Z_div_mod (Z.pos m * 2 ^ 53) (Z.pos m) ltac:(lia)) as Hdm.
    destruct (Z.div_eucl _ _) as [q r]. destruct Hdm as [Heq Hr].
    assert (q = 2 ^ 53) by nia. subst q. f_equal. lia. }
  cbv iota.
  change (IntDef.Z.div_eucl (Z.shiftl (Z.pos m) 53) (Z.pos m))
    with (Z.div_eucl (Z.shiftl (Z.pos m) 53) (Z.pos m)).
  rewrite Hd.
  assert (Hl : new_location (Z.pos m) 0 = loc_Exact).
  { unfold new_location. now destruct (Z.even (Z.pos m)). }
  rewrite Hl. destruct s; reflexivity.
Qed.

Lemma SFmul_one_l x : valid_binary x = true -> SFmul prec emax SFone x = x.
Proof.
  destruct x as [s|s| |s m e]; try easy; intros Hv; cbn [SFone SFmul xorb].
  replace (-52 + e) with (e - 52) by lia.
  apply binary_round_aux_exact; [exact Hv|lia|].
  rewrite Pos2Z.inj_mul. change (2 ^ 52) with 4503599627370496. lia.
Qed.

Lemma SFcompare_antisym x y :
  SFcompare y x = CompOpp <$> SFcompare x y.
Proof.
  destruct x as [sx|sx| |sx mx ex], y as [sy|sy| |sy my ey]; cbn [SFcompare];
    try reflexivity; try (destruct sx, sy; reflexivity);
    try (destruct sx; reflexivity); try (destruct sy; reflexivity).
  cbn [fmap option_fmap option_map]. f_equal.
  change (Pos.compare_cont Eq mx my) with (Pos.compare mx my).
  change (Pos.compare_cont Eq my mx) with (Pos.compare my mx).
  destruct sx, sy; try reflexivity;
    destruct (Z.compare_spec ex ey), (Z.compare_spec ey ex); try lia;
    cbn [CompOpp]; try reflexivity;
    destruct (Pos.compare_spec mx my), (Pos.compare_spec my mx); try lia;
    reflexivity.
Qed.

Lemma SFltb_not_leb x y : SFltb x y = true -> SFleb y x = false.
Proof.
  unfold SFltb, SFleb. rewrite (SFcompare_antisym x y).
  now destruct (SFcompare x y) as [[]|].
Qed.

Lemma shl_align_exp (m : positive) (e e' : Z) :
  e' <= e -> snd (shl_align m e e') = e'.
Proof.
  intros He. unfold shl_align. destruct (e' - e) eqn:Hd; cbn [snd]; lia.
Qed.

(** An integer below [2^53] converts exactly. *)
Lemma binary_normalize_int (p : positive) :
  Z.pos p < 2 ^ 53 ->
  exists m e, binary_normalize prec emax (Z.pos p) 0 false = S754_finite false m e /\
              e <= 0 /\ Z.pos m = Z.pos p * 2 ^ (- e).
Proof.
  intros Hp. cbn [binary_normalize]. unfold binary_round.
  pose proof (digits2_pos_bounds p) as [Blo _].
  set (d := Z.pos (digits2_pos p)) in *.
  assert (Hd : 1 <= d <= 53).
  { split; [unfold d; lia|].
    assert (d - 1 < 53) by (apply (Z.pow_lt_mono_r_iff 2); lia). lia. }
  assert (Hf : fexp prec emax (d + 0) = d - 53)
    by (unfold fexp, SpecFloat.emin, prec, emax; lia).
  rewrite Hf.
  pose proof (shl_align_value p 0 (d - 53) ltac:(lia)) as Hm.
  pose proof (shl_align_exp p 0 (d - 53) ltac:(lia)) as He.
  destruct (shl_align p 0 (d - 53)) as [mz ez]. cbn [fst snd] in Hm, He. subst ez.
  replace (0 - (d - 53)) with (53 - d) in Hm by lia.
  exists mz, (d - 53). split; [|split; [lia|rewrite Hm; f_equal; f_equal; lia]].
  apply binary_round_aux_canonical.
  unfold bounded, canonical_mantissa.
  rewrite (digits2_pos_shift p mz (53 - d)) by (lia || assumption).
  fold d. apply andb_true_iff. split; [apply Z.eqb_eq | apply Z.leb_le];
    unfold fexp, SpecFloat.emin, prec, emax; lia.
Qed.

(** *** Rounding as a function of the value *)

Lemma shr_1_nonneg (q : Z) (r s : bool) :
  0 <= q ->
  shr_1 (Build_shr_record q r s) = Build_shr_record (q / 2) (Z.odd q) (r || s).
Proof.
  intros Hq. destruct q as [|[p|p|]|p]; try lia; cbn [shr_1 Z.odd]; try reflexivity.
  - assert (E : Z.pos p~1 / 2 = Z.pos p).
    { change (Z.pos p~1) with (2 * Z.pos p + 1).
      symmetry. apply Z.div_unique with 1; lia. }
    now rewrite E.
  - assert (E : Z.pos p~0 / 2 = Z.pos p).
    { change (Z.pos p~0) with (2 * Z.pos p).
      symmetry. apply Z.div_unique with 0; lia. }
    now rewrite E.
Qed.

Lemma mod_pow2_succ (m k : Z) :
  0 <= k ->
  m mod 2 ^ (k + 1) = m mod 2 ^ k + 2 ^ k * ((m / 2 ^ k) mod 2).
Proof.
  intros Hk. rewrite Z.pow_add_r, Z.pow_1_r by lia.
  assert (0 < 2 ^ k) by (apply Z.pow_pos_nonneg; lia).
  rewrite Z.rem_mul_r by lia. reflexivity.
Qed.

Lemma shr_iter_succ (k : nat) (m : Z) :
  0 <= m ->
  Nat.iter (S k) shr_1 (Build_shr_record m false false)
  = Build_shr_record (m / 2 ^ Z.of_nat (S k)) (Z.odd (m / 2 ^ Z.of_nat k))
      (negb (m mod 2 ^ Z.of_nat k =? 0)).
Proof.
  intros Hm. induction k as [|k IH].
  - cbn [Nat.iter nat_rect]. rewrite shr_1_nonneg by lia.
    change (2 ^ Z.of_nat 1) with 2. change (2 ^ Z.of_nat 0) with 1.
    rewrite Z.div_1_r, Z.mod_1_r. reflexivity.
  - rewrite Nat.iter_succ, IH.
    assert (0 < 2 ^ Z.of_nat k) by (apply Z.pow_pos_nonneg; lia).
    assert (0 < 2 ^ Z.of_nat (S k)) by (apply Z.pow_pos_nonneg; lia).
    rewrite shr_1_nonneg by (apply Z.div_pos; lia).
    f_equal.
    + rewrite Z.div_div by lia. f_equal.
      rewrite (Nat2Z.inj_succ (S k)), Z.pow_succ_r by lia. lia.
    + replace (Z.of_nat (S k)) with (Z.of_nat k + 1) by lia.
      rewrite mod_pow2_succ by lia.
      pose proof (Z.mod_pos_bound m (2 ^ Z.of_nat k) ltac:(lia)).
      rewrite Zmod_odd.
      destruct (Z.odd (m / 2 ^ Z.of_nat k));
        destruct (Z.eqb_spec (m mod 2 ^ Z.of_nat k) 0) as [E'|E']; cbn [negb orb];
        symmetry; first [apply Z.eqb_eq | apply negb_true_iff, Z.eqb_neq | apply negb_false_iff, Z.eqb_eq]; nia.
Qed.

Lemma shr_iter_loc (k : nat) (m : Z) :
  0 <= m ->
  shr_m (Nat.iter k shr_1 (Build_shr_record m false false)) = m / 2 ^ Z.of_nat k /\
  loc_of_shr_record (Nat.iter k shr_1 (Build_shr_record m false false))
  = loc_of_rem (m mod 2 ^ Z.of_nat k) (Z.of_nat k).
Proof.
  intros Hm. destruct k as [|k].
  - cbn [Nat.iter nat_rect shr_m loc_of_shr_record]. change (2 ^ Z.of_nat 0) with 1.
    now rewrite Z.div_1_r, Z.mod_1_r.
  - rewrite shr_iter_succ by assumption. cbn [shr_m]. split; [reflexivity|].
    assert (Hp : 0 < 2 ^ Z.of_nat k) by (apply Z.pow_pos_nonneg; lia).
    replace (Z.of_nat (S k)) with (Z.of_nat k + 1) by lia.
    rewrite mod_pow2_succ by lia. unfold loc_of_rem.
    rewrite Z.pow_add_r, Z.pow_1_r by lia.
    pose proof (Z.mod_pos_bound m (2 ^ Z.of_nat k) Hp) as Hr.
    rewrite Zmod_odd.
    set (rho := m mod 2 ^ Z.of_nat k) in *. set (P := 2 ^ Z.of_nat k) in *.
    destruct (Z.odd (m / P)); destruct (Z.eqb_spec rho 0) as [E|E];
      cbn [negb loc_of_shr_record].
    + destruct (Z.eqb_spec (rho + P * 1) 0); [lia|].
      f_equal. symmetry. apply Z.compare_eq_iff. lia.
    + destruct (Z.eqb_spec (rho + P * 1) 0); [lia|].
      f_equal. symmetry. apply Z.compare_gt_iff. lia.
    + destruct (Z.eqb_spec (rho + P * 0) 0); [reflexivity|lia].
    + destruct (Z.eqb_spec (rho + P * 0) 0); [lia|].
      f_equal. symmetry. apply Z.compare_lt_iff. lia.
Qed.

Lemma shr_exact_spec (m e n : Z) :
  0 <= m -> 0 <= n ->
  shr_m (fst (shr (Build_shr_record m false false) e n)) = m / 2 ^ n /\
  loc_of_shr_record (fst (shr (Build_shr_record m false false) e n))
  = loc_of_rem (m mod 2 ^ n) n /\
  snd (shr (Build_shr_record m false false) e n) = e + n.
Proof.
  intros Hm Hn. unfold shr. destruct n as [|p|p]; try lia; cbn [fst snd].
  - pose proof (shr_iter_loc 0 m Hm) as [H1 H2]. cbn [Nat.iter nat_rect] in H1, H2.
    change (Z.of_nat 0) with 0 in *. rewrite H1, H2.
    split; [reflexivity|split; [reflexivity|lia]].
  - rewrite iter_pos_nat.
    pose proof (shr_iter_loc (Pos.to_nat p) m Hm) as [H1 H2].
    rewrite positive_nat_Z in H1, H2. rewrite H1, H2.
    split; [reflexivity|split; reflexivity].
Qed.

Lemma round_nearest_even_bounds (a : Z) (l : location) :
  a <= round_nearest_even a l <= a + 1.
Proof. destruct l as [|[]]; cbn; try lia. destruct (Z.even a); lia. Qed.

Lemma round_at_bounds (V n : Z) : V / 2 ^ n <= round_at V n <= V / 2 ^ n + 1.
Proof. apply round_nearest_even_bounds. Qed.

Lemma round_at_mono (V1 V2 n : Z) :
  0 <= n -> V1 <= V2 -> round_at V1 n <= round_at V2 n.
Proof.
  intros Hn HV.
  assert (Hp : 0 < 2 ^ n) by (apply Z.pow_pos_nonneg; lia).
  pose proof (Z.div_le_mono V1 V2 (2 ^ n) Hp HV) as Ha.
  pose proof (round_at_bounds V1 n) as B1. pose proof (round_at_bounds V2 n) as B2.
  destruct (Z.eq_dec (V1 / 2 ^ n) (V2 / 2 ^ n)) as [E|E]; [|lia].
  pose proof (Z.div_mod V1 (2 ^ n) ltac:(lia)) as D1.
  pose proof (Z.div_mod V2 (2 ^ n) ltac:(lia)) as D2.
  pose proof (Z.mod_pos_bound V1 (2 ^ n) Hp) as R1.
  pose proof (Z.mod_pos_bound V2 (2 ^ n) Hp) as R2.
  unfold round_at, loc_of_rem in *. rewrite E in *.
  set (a := V2 / 2 ^ n) in *. set (r1 := V1 mod 2 ^ n) in *.
  set (r2 := V2 mod 2 ^ n) in *. set (P := 2 ^ n) in *.
  assert (r1 <= r2) by lia.
  destruct (Z.eqb_spec r1 0), (Z.eqb_spec r2 0);
    destruct (Z.compare_spec (2 * r1) P), (Z.compare_spec (2 * r2) P);
    cbn [round_nearest_even]; destruct (Z.even a); lia.
Qed.

Lemma binary_round_aux_split (s : bool) (m e : Z) (l : location) :
  binary_round_aux prec emax s m e l
  = round_finish s (round_nearest_even (shr_m (fst (shr_fexp prec emax m e l)))
                (loc_of_shr_record (fst (shr_fexp prec emax m e l))))
      (snd (shr_fexp prec emax m e l)).
Proof.
  unfold binary_round_aux, round_finish.
  destruct (shr_fexp prec emax m e l) as [r e']. reflexivity.
Qed.

Lemma round_finish_spec (s : bool) (m2 t : Z) :
  0 <= m2 <= 2 ^ 53 -> -1074 <= t ->
  round_finish s m2 t = pack s (fst (renormalize m2 t)) (snd (renormalize m2 t)).
Proof.
  intros Hm Ht. unfold round_finish, renormalize, shr_fexp.
  destruct (Z.eqb_spec m2 (2 ^ 53)) as [->|Hne]; cbn [fst snd].
  - change (Zdigits2 (2 ^ 53)) with 54.
    replace (fexp prec emax (54 + t) - t) with 1
      by (unfold fexp, SpecFloat.emin, prec, emax; lia).
    reflexivity.
  - assert (Hn : fexp prec emax (Zdigits2 m2 + t) - t <= 0).
    { destruct (Z.eq_dec m2 0) as [->|Hz].
      - cbn [Zdigits2]. unfold fexp, SpecFloat.emin, prec, emax. lia.
      - pose proof (Zdigits2_bounds m2 ltac:(lia)) as [Blo _].
        assert (Zdigits2 m2 - 1 < 53) by (apply (Z.pow_lt_mono_r_iff 2); lia).
        unfold fexp, SpecFloat.emin, prec, emax. lia. }
    unfold shr. destruct (fexp prec emax (Zdigits2 m2 + t) - t) as [|p|p]; try lia;
      cbn [shr_record_of_loc shr_m]; reflexivity.
Qed.

Lemma round_units_spec (V : Z) :
  0 < V ->
  round_units V = round_finish false (round_at V (Z.max (Zdigits2 V - 53) 0))
          (-1074 + Z.max (Zdigits2 V - 53) 0).
Proof.
  intros HV. destruct V as [|p|p]; try lia.
  unfold round_units. cbn [binary_normalize]. unfold binary_round.
  assert (Hd : 1 <= Z.pos (digits2_pos p)) by lia.
  set (F := fexp prec emax (Z.pos (digits2_pos p) + -1074)).
  assert (HF : F - -1074 = Z.max (Zdigits2 (Z.pos p) - 53) 0).
  { unfold F, fexp, SpecFloat.emin, prec, emax. cbn [Zdigits2]. lia. }
  assert (Hs : shl_align p (-1074) F = (p, -1074)).
  { unfold shl_align. destruct (F - -1074) eqn:E; try reflexivity. lia. }
  rewrite Hs, binary_round_aux_split. unfold shr_fexp.
  cbn [Zdigits2 shr_record_of_loc]. fold F. rewrite HF.
  set (n := Z.max _ 0).
  destruct (shr_exact_spec (Z.pos p) (-1074) n ltac:(lia) ltac:(lia)) as (-> & -> & ->).
  reflexivity.
Qed.

Lemma Zdigits2_mono (V1 V2 : Z) : 0 < V1 -> V1 <= V2 -> Zdigits2 V1 <= Zdigits2 V2.
Proof.
  intros H1 H2.
  pose proof (Zdigits2_bounds V1 H1) as [Blo _].
  pose proof (Zdigits2_bounds V2 ltac:(lia)) as [_ Bhi].
  assert (Zdigits2 V1 - 1 < Zdigits2 V2); [|lia].
  apply (Z.pow_lt_mono_r_iff 2); try lia.
  destruct V2; cbn; lia.
Qed.

Lemma Zdigits2_pos (V : Z) : 0 < V -> 1 <= Zdigits2 V.
Proof. destruct V; cbn; lia. Qed.

(** The mantissa kept by the first shift has at most 53 digits, and exactly
    53 once a shift takes place. *)
Lemma kept_mantissa (V : Z) :
  0 < V ->
  let n := Z.max (Zdigits2 V - 53) 0 in
  1 <= V / 2 ^ n < 2 ^ 53 /\ (0 < n -> 2 ^ 52 <= V / 2 ^ n).
Proof.
  intros HV n.
  pose proof (Zdigits2_bounds V HV) as [Blo Bhi].
  pose proof (Zdigits2_pos V HV) as Hd.
  assert (Hp : 0 < 2 ^ n) by (apply Z.pow_pos_nonneg; lia).
  destruct (Z_le_gt_dec (Zdigits2 V) 53) as [Hle|Hgt].
  - assert (Hn : n = 0) by lia. rewrite Hn. change (2 ^ 0) with 1.
    rewrite Z.div_1_r. split; [|lia]. split; [lia|].
    eapply Z.lt_le_trans; [exact Bhi|]. apply Z.pow_le_mono_r; lia.
  - assert (Hn : n = Zdigits2 V - 53) by lia.
    assert (E1 : 2 ^ Zdigits2 V = 2 ^ 53 * 2 ^ n)
      by (rewrite <- Z.pow_add_r by lia; f_equal; lia).
    assert (E2 : 2 ^ (Zdigits2 V - 1) = 2 ^ 52 * 2 ^ n)
      by (rewrite <- Z.pow_add_r by lia; f_equal; lia).
    assert (Hlo : 2 ^ 52 <= V / 2 ^ n)
      by (apply Z.div_le_lower_bound; [lia|]; rewrite Z.mul_comm, <- E2; exact Blo).
    assert (Hhi : V / 2 ^ n < 2 ^ 53)
      by (apply Z.div_lt_upper_bound; [lia|]; rewrite Z.mul_comm, <- E1; exact Bhi).
    change (2 ^ 52) with 4503599627370496 in *. lia.
Qed.

Lemma renormalize_spec (m t : Z) :
  1 <= m <= 2 ^ 53 -> -1074 <= t -> (-1074 < t -> 2 ^ 52 <= m) ->
  let mo := fst (renormalize m t) in
  let eo := snd (renormalize m t) in
  1 <= mo < 2 ^ 53 /\ -1074 <= eo /\ (-1074 < eo -> 2 ^ 52 <= mo) /\
  mo * 2 ^ (eo - t) = m /\ t <= eo.
Proof.
  intros Hm Ht Hn. unfold renormalize.
  destruct (Z.eqb_spec m (2 ^ 53)) as [->|Hne]; cbn [fst snd].
  - replace (t + 1 - t) with 1 by lia. cbn. lia.
  - rewrite Z.sub_diag. cbn. lia.
Qed.

Lemma lex_of_value (mo1 eo1 mo2 eo2 : Z) :
  0 < mo1 -> mo2 < 2 ^ 53 -> (-1074 < eo1 -> 2 ^ 52 <= mo1) ->
  -1074 <= eo1 -> -1074 <= eo2 ->
  mo1 * 2 ^ (eo1 + 1074) <= mo2 * 2 ^ (eo2 + 1074) ->
  eo1 < eo2 \/ (eo1 = eo2 /\ mo1 <= mo2).
Proof.
  intros H1 H2 Hn He1 He2 HW.
  assert (Hp : 0 < 2 ^ (eo2 + 1074)) by (apply Z.pow_pos_nonneg; lia).
  destruct (Z.lt_trichotomy eo1 eo2) as [Hlt|[Heq|Hgt]]; [now left| |].
  - right. split; [assumption|]. subst eo2. nia.
  - exfalso. specialize (Hn ltac:(lia)).
    replace (eo1 + 1074) with ((eo1 - eo2 - 1) + 1 + (eo2 + 1074)) in HW by lia.
    rewrite !Z.pow_add_r, Z.pow_1_r in HW by lia.
    assert (0 < 2 ^ (eo1 - eo2 - 1)) by (apply Z.pow_pos_nonneg; lia).
    change (2 ^ 52) with 4503599627370496 in *.
    change (2 ^ 53) with 9007199254740992 in *.
    set (P := 2 ^ (eo2 + 1074)) in *. set (Q := 2 ^ (eo1 - eo2 - 1)) in *.
    assert (A : 4503599627370496 <= mo1 * Q) by nia.
    assert (B : 4503599627370496 * (2 * P) <= (mo1 * Q) * (2 * P))
      by (apply Z.mul_le_mono_nonneg_r; lia).
    assert (C : mo2 * P < 9007199254740992 * P)
      by (apply Z.mul_lt_mono_pos_r; lia).
    lia.
Qed.

Lemma SFleb_pack (mo1 eo1 mo2 eo2 : Z) :
  0 < mo1 -> 0 < mo2 ->
  eo1 < eo2 \/ (eo1 = eo2 /\ mo1 <= mo2) ->
  SFleb (pack false mo1 eo1) (pack false mo2 eo2) = true.
Proof.
  intros H1 H2 Hlex. destruct mo1 as [|p1|p1], mo2 as [|p2|p2]; try lia.
  unfold pack, SFleb.
  destruct (Z.leb_spec eo1 971), (Z.leb_spec eo2 971); cbn [SFcompare]; try reflexivity.
  - change (Pos.compare_cont Eq p1 p2) with (Pos.compare p1 p2).
    destruct Hlex as [Hlt|[-> Hle]].
    + apply Z.compare_lt_iff in Hlt. now rewrite Hlt.
    + rewrite Z.compare_refl.
      destruct (Pos.compare_spec p1 p2); try reflexivity. lia.
  - lia.
Qed.

(** The rounded value of [V] units of [2^-1074], as a normalised mantissa
    and exponent. *)
Lemma round_units_pack (V : Z) :
  0 < V ->
  exists mo eo,
    round_units V = pack false mo eo /\
    1 <= mo < 2 ^ 53 /\ -1074 <= eo /\ (-1074 < eo -> 2 ^ 52 <= mo) /\
    mo * 2 ^ (eo + 1074)
    = round_at V (Z.max (Zdigits2 V - 53) 0) * 2 ^ Z.max (Zdigits2 V - 53) 0.
Proof.
  intros HV. rewrite (round_units_spec V HV).
  set (n := Z.max (Zdigits2 V - 53) 0).
  pose proof (kept_mantissa V HV) as [Ha Hn]. fold n in Ha, Hn.
  pose proof (round_at_bounds V n) as Hr.
  assert (Hm : 1 <= round_at V n <= 2 ^ 53) by lia.
  assert (Ht : -1074 <= -1074 + n) by lia.
  assert (Hnorm : -1074 < -1074 + n -> 2 ^ 52 <= round_at V n).
  { intros Hlt. specialize (Hn ltac:(lia)). lia. }
  rewrite round_finish_spec by lia.
  pose proof (renormalize_spec (round_at V n) (-1074 + n) Hm Ht Hnorm) as (H1 & H2 & H3 & H4 & H5).
  cbv zeta in *.
  set (mo := fst (renormalize (round_at V n) (-1074 + n))) in *.
  set (eo := snd (renormalize (round_at V n) (-1074 + n))) in *.
  exists mo, eo. repeat split; try lia; try assumption.
  replace (eo + 1074) with ((eo - (-1074 + n)) + n) by lia.
  rewrite Z.pow_add_r by lia. rewrite Z.mul_assoc, H4. reflexivity.
Qed.

(** Rounding to nearest-even is monotone. *)
Lemma round_units_mono (V1 V2 : Z) :
  0 < V1 -> V1 <= V2 -> SFleb (round_units V1) (round_units V2) = true.
Proof.
  intros H1 H12.
  destruct (round_units_pack V1 H1) as (mo1 & eo1 & -> & Hm1 & He1 & Hn1 & W1).
  destruct (round_units_pack V2 ltac:(lia)) as (mo2 & eo2 & -> & Hm2 & He2 & Hn2 & W2).
  apply SFleb_pack; try lia.
  apply lex_of_value; try lia.
  rewrite W1, W2.
  pose proof (Zdigits2_mono V1 V2 H1 H12) as Hd.
  set (n1 := Z.max (Zdigits2 V1 - 53) 0) in *.
  set (n2 := Z.max (Zdigits2 V2 - 53) 0) in *.
  assert (Hn : n1 <= n2) by lia.
  assert (Hp1 : 0 < 2 ^ n1) by (apply Z.pow_pos_nonneg; lia).
  destruct (Z.eq_dec n1 n2) as [E|E].
  - rewrite <- E. apply Z.mul_le_mono_nonneg_r; [lia|].
    apply round_at_mono; lia.
  - pose proof (kept_mantissa V1 H1) as [Ha1 _]. fold n1 in Ha1.
    pose proof (kept_mantissa V2 ltac:(lia)) as [_ Ha2]. fold n2 in Ha2.
    specialize (Ha2 ltac:(lia)).
    pose proof (round_at_bounds V1 n1) as B1. pose proof (round_at_bounds V2 n2) as B2.
    assert (E2 : 2 ^ n2 = 2 ^ (n2 - n1 - 1) * 2 * 2 ^ n1).
    { replace n2 with ((n2 - n1 - 1) + 1 + n1) at 1 by lia.
      now rewrite !Z.pow_add_r, Z.pow_1_r by lia. }
    assert (0 < 2 ^ (n2 - n1 - 1)) by (apply Z.pow_pos_nonneg; lia).
    rewrite E2.
    change (2 ^ 52) with 4503599627370496 in *.
    change (2 ^ 53) with 9007199254740992 in *.
    set (P := 2 ^ n1) in *. set (Q := 2 ^ (n2 - n1 - 1)) in *.
    set (r1 := round_at V1 n1) in *. set (r2 := round_at V2 n2) in *.
    assert (A : r1 * P <= 9007199254740992 * P)
      by (apply Z.mul_le_mono_nonneg_r; lia).
    assert (B : 4503599627370496 <= r2 * Q) by nia.
    assert (C : 4503599627370496 * (2 * P) <= (r2 * Q) * (2 * P))
      by (apply Z.mul_le_mono_nonneg_r; lia).
    lia.
Qed.

Lemma round_at_scale (V n k : Z) :
  0 <= n -> 0 <= k -> round_at (V * 2 ^ k) (n + k) = round_at V n.
Proof.
  intros Hn Hk. unfold round_at, loc_of_rem.
  assert (Hp : 0 < 2 ^ k) by (apply Z.pow_pos_nonneg; lia).
  assert (Hq : 0 < 2 ^ n) by (apply Z.pow_pos_nonneg; lia).
  rewrite Z.pow_add_r by lia.
  rewrite Z.div_mul_cancel_r by lia.
  rewrite Z.mul_mod_distr_r by lia.
  f_equal.
  destruct (Z.eqb_spec (V mod 2 ^ n) 0) as [E|E].
  - rewrite E. reflexivity.
  - destruct (Z.eqb_spec (V mod 2 ^ n * 2 ^ k) 0) as [E'|E']; [nia|].
    f_equal. rewrite Z.mul_assoc.
    destruct (Z.compare_spec (2 * (V mod 2 ^ n)) (2 ^ n));
      [apply Z.compare_eq_iff | apply Z.compare_lt_iff | apply Z.compare_gt_iff]; nia.
Qed.

Lemma shl_align_units (p : positive) (e F : Z) :
  -1074 <= e -> -1074 <= F ->
  Z.pos (fst (shl_align p e F)) * 2 ^ (snd (shl_align p e F) + 1074)
  = Z.pos p * 2 ^ (e + 1074) /\
  snd (shl_align p e F) = Z.min e F.
Proof.
  intros He HF. unfold shl_align.
  destruct (F - e) as [|d|d] eqn:Hd; cbn [fst snd].
  - split; [reflexivity|lia].
  - split; [reflexivity|lia].
  - split; [|lia]. rewrite pos_iter_xO.
    replace (e + 1074) with (Z.pos d + (F + 1074)) by lia.
    rewrite (Z.pow_add_r 2 (Z.pos d)) by lia. lia.
Qed.

Lemma Zdigits2_shift (V k : Z) :
  0 < V -> 0 <= k -> Zdigits2 (V * 2 ^ k) = Zdigits2 V + k.
Proof.
  intros HV Hk.
  assert (Hp : 0 < 2 ^ k) by (apply Z.pow_pos_nonneg; lia).
  destruct V as [|p|p]; try lia.
  destruct (Z.pos p * 2 ^ k) as [|q|q] eqn:E; try lia.
  cbn [Zdigits2]. apply (digits2_pos_shift p q k Hk). now symmetry.
Qed.

(** Rounding depends on the value alone, not on how mantissa and exponent
    share it. *)
Lemma binary_round_units (p : positive) (e : Z) :
  -1074 <= e ->
  binary_round prec emax false p e = round_units (Z.pos p * 2 ^ (e + 1074)).
Proof.
  intros He.
  assert (Hk : 0 < 2 ^ (e + 1074)) by (apply Z.pow_pos_nonneg; lia).
  rewrite round_units_spec by lia.
  rewrite Zdigits2_shift by lia. cbn [Zdigits2].
  unfold binary_round.
  set (D := Z.pos (digits2_pos p)).
  set (F := fexp prec emax (D + e)).
  assert (HF : -1074 <= F /\ F = Z.max (D + e - 53) (-1074))
    by (unfold F, fexp, SpecFloat.emin, prec, emax; lia).
  destruct (shl_align_units p e F He ltac:(lia)) as [HV Hez].
  destruct (shl_align p e F) as [mz ez]. cbn [fst snd] in HV, Hez.
  assert (Hdz : Z.pos (digits2_pos mz) + ez = D + e).
  { assert (Hm : Z.pos mz = Z.pos p * 2 ^ (e - ez)).
    { replace (e + 1074) with ((e - ez) + (ez + 1074)) in HV by lia.
      rewrite (Z.pow_add_r 2 (e - ez) (ez + 1074)) in HV by lia.
      assert (0 < 2 ^ (ez + 1074)) by (apply Z.pow_pos_nonneg; lia).
      nia. }
    rewrite (digits2_pos_shift p mz (e - ez)) by (lia || assumption). fold D. lia. }
  rewrite binary_round_aux_split. unfold shr_fexp.
  cbn [Zdigits2 shr_record_of_loc]. rewrite Hdz. fold F.
  destruct (shr_exact_spec (Z.pos mz) ez (F - ez) ltac:(lia) ltac:(lia)) as (-> & -> & ->).
  fold (round_at (Z.pos mz) (F - ez)).
  rewrite <- HV.
  replace (Z.max (D + (e + 1074) - 53) 0) with ((F - ez) + (ez + 1074)) by lia.
  rewrite round_at_scale by lia. f_equal. lia.
Qed.

Lemma binary_round_canonical (s : bool) (m : positive) (e : Z) :
  bounded prec emax m e = true ->
  binary_round prec emax s m e = S754_finite s m e.
Proof.
  intros Hb. unfold binary_round.
  pose proof Hb as Hb'. unfold bounded, canonical_mantissa in Hb'.
  apply andb_true_iff in Hb' as [Hc _]. apply Z.eqb_eq in Hc.
  rewrite Hc. unfold shl_align. rewrite Z.sub_diag.
  now apply binary_round_aux_canonical.
Qed.

Lemma units_aligned_diff sx mx ex sy my ey :
  -1074 <= ex -> -1074 <= ey ->
  aligned_diff sx mx ex sy my ey * 2 ^ (Z.min ex ey + 1074)
  = units (S754_finite sx mx ex) - units (S754_finite sy my ey).
Proof.
  intros Hx Hy. unfold aligned_diff. cbv zeta.
  rewrite !shl_align_value by lia. cbn [units].
  set (ez := Z.min ex ey).
  replace (ex + 1074) with ((ex - ez) + (ez + 1074)) by lia.
  replace (ey + 1074) with ((ey - ez) + (ez + 1074)) by lia.
  rewrite (Z.pow_add_r 2 (ex - ez)), (Z.pow_add_r 2 (ey - ez)) by lia.
  destruct sx, sy; cbn [cond_Zopp]; lia.
Qed.

Lemma units_pos (m : positive) (e : Z) : 0 < Z.pos m * 2 ^ (e + 1074) \/ e < -1074.
Proof.
  destruct (Z_le_gt_dec (-1074) e); [left|right; lia].
  assert (0 < 2 ^ (e + 1074)) by (apply Z.pow_pos_nonneg; lia). lia.
Qed.

(** The order of two finite numbers is the order of their values. *)
Lemma SFcompare_units x y :
  valid_binary x = true -> valid_binary y = true ->
  sf_finite x = true -> sf_finite y = true ->
  SFcompare x y = Some (units x ?= units y).
Proof.
  intros Vx Vy Fx Fy.
  destruct x as [sx|sx| |sx mx ex], y as [sy|sy| |sy my ey]; try discriminate.
  - reflexivity.
  - apply valid_finite in Vy as (Hey & _).
    destruct (units_pos my ey) as [Hp|]; [|lia].
    cbn [SFcompare units]. f_equal. symmetry.
    destruct sy; cbn [cond_Zopp];
      [apply Z.compare_gt_iff | apply Z.compare_lt_iff]; lia.
  - apply valid_finite in Vx as (Hex & _).
    destruct (units_pos mx ex) as [Hp|]; [|lia].
    cbn [SFcompare units]. f_equal. symmetry.
    destruct sx; cbn [cond_Zopp];
      [apply Z.compare_lt_iff | apply Z.compare_gt_iff]; lia.
  - rewrite compare_aligned_diff by assumption.
    apply valid_finite in Vx as (Hex & _). apply valid_finite in Vy as (Hey & _).
    pose proof (units_aligned_diff sx mx ex sy my ey ltac:(lia) ltac:(lia)) as E.
    assert (Hp : 0 < 2 ^ (Z.min ex ey + 1074)) by (apply Z.pow_pos_nonneg; lia).
    set (d := aligned_diff sx mx ex sy my ey) in *.
    set (ux := units (S754_finite sx mx ex)) in *.
    set (uy := units (S754_finite sy my ey)) in *.
    f_equal.
    destruct (Z.compare_spec d 0); symmetry;
      [apply Z.compare_eq_iff | apply Z.compare_lt_iff | apply Z.compare_gt_iff]; nia.
Qed.

Lemma SFleb_units x y :
  valid_binary x = true -> valid_binary y = true ->
  sf_finite x = true -> sf_finite y = true ->
  SFleb x y = (units x <=? units y).
Proof.
  intros Vx Vy Fx Fy. unfold SFleb. rewrite SFcompare_units by assumption.
  unfold Z.leb. now destruct (units x ?= units y).
Qed.


Lemma round_units_canonical (m : positive) (e : Z) :
  valid_binary (S754_finite false m e) = true ->
  round_units (Z.pos m * 2 ^ (e + 1074)) = S754_finite false m e.
Proof.
  intros Hv. pose proof (valid_finite _ _ _ Hv) as (He & _).
  rewrite <- binary_round_units by lia. now apply binary_round_canonical.
Qed.

(** A positive difference is the rounding of the exact difference. *)
Lemma SFsub_units x y :
  valid_binary x = true -> valid_binary y = true ->
  sf_finite x = true -> sf_finite y = true ->
  0 < units x - units y ->
  SFsub prec emax x y = round_units (units x - units y).
Proof.
  intros Vx Vy Fx Fy Hd.
  destruct x as [sx|sx| |sx mx ex], y as [sy|sy| |sy my ey]; try discriminate.
  - pose proof (valid_finite _ _ _ Vy) as (Hey & _).
    destruct (units_pos my ey) as [Hp|]; [|lia].
    cbn [units] in Hd. destruct sy; cbn [cond_Zopp] in Hd; [|lia].
    cbn [SFsub negb units cond_Zopp].
    replace (0 - - (Z.pos my * 2 ^ (ey + 1074))) with (Z.pos my * 2 ^ (ey + 1074)) by lia.
    symmetry. now apply round_units_canonical.
  - pose proof (valid_finite _ _ _ Vx) as (Hex & _).
    destruct (units_pos mx ex) as [Hp|]; [|lia].
    cbn [units] in Hd. destruct sx; cbn [cond_Zopp] in Hd; [lia|].
    cbn [SFsub units cond_Zopp]. rewrite Z.sub_0_r.
    symmetry. now apply round_units_canonical.
  - pose proof (valid_finite _ _ _ Vx) as (Hex & _).
    pose proof (valid_finite _ _ _ Vy) as (Hey & _).
    pose proof (units_aligned_diff sx mx ex sy my ey ltac:(lia) ltac:(lia)) as E.
    rewrite <- E in *. cbn [SFsub]. fold (aligned_diff sx mx ex sy my ey).
    assert (Hp : 0 < 2 ^ (Z.min ex ey + 1074)) by (apply Z.pow_pos_nonneg; lia).
    destruct (aligned_diff sx mx ex sy my ey) as [|p|p]; try lia.
    cbn [binary_normalize]. apply binary_round_units. lia.
Qed.

Lemma loc_of_shr_record_of_loc (m : Z) (l : location) :
  loc_of_shr_record (shr_record_of_loc m l) = l.
Proof. now destruct l as [|[]]. Qed.

Lemma pow2_split (a b : Z) : 0 <= a -> 0 <= b -> 2 ^ (a + b) = 2 ^ a * 2 ^ b.
Proof. intros. now apply Z.pow_add_r. Qed.

(** What [binary_round_aux] returns stays below a representable number that
    the exact value stays below. *)
Lemma binary_round_aux_value_upper (P ep : Z) (l : location) (M : positive) (E B : Z) :
  0 <= P -> B <= ep -> B <= -1074 ->
  valid_binary (S754_finite false M E) = true ->
  P * 2 ^ (ep - B) < Z.pos M * 2 ^ (E - B) ->
  (l <> loc_Exact -> (P + 1) * 2 ^ (ep - B) <= Z.pos M * 2 ^ (E - B)) ->
  exists m2 t,
    binary_round_aux prec emax false P ep l = round_finish false m2 t /\
    0 <= m2 <= 2 ^ 53 /\ -1074 <= t /\
    m2 * 2 ^ (t + 1074) <= Z.pos M * 2 ^ (E + 1074).
Proof.
  intros HP HBp HB HV Hlt Hle.
  pose proof (valid_finite _ _ _ HV) as (HE & HdM & _).
  pose proof (digits2_pos_bounds M) as [_ BM].
  assert (HM : Z.pos M < 2 ^ 53).
  { eapply Z.lt_le_trans; [exact BM|]. apply Z.pow_le_mono_r; lia. }
  rewrite binary_round_aux_split. unfold shr_fexp.
  set (n := fexp prec emax (Zdigits2 P + ep) - ep).
  destruct (shr_m_shr P l ep n HP) as [Hm Ht].
  set (r1 := fst (shr (shr_record_of_loc P l) ep n)) in *.
  rewrite Ht.
  set (N := Z.max n 0) in *.
  assert (HN : 0 <= N) by (unfold N; lia).
  assert (Hfe : -1074 <= fexp prec emax (Zdigits2 P + ep)
                /\ Zdigits2 P + ep - 53 <= fexp prec emax (Zdigits2 P + ep)
                /\ (-1074 < fexp prec emax (Zdigits2 P + ep) ->
                    fexp prec emax (Zdigits2 P + ep) = Zdigits2 P + ep - 53))
    by (unfold fexp, SpecFloat.emin, prec, emax; lia).
  pose proof (round_nearest_even_bounds (shr_m r1) (loc_of_shr_record r1)) as Hr.
  set (m2 := round_nearest_even (shr_m r1) (loc_of_shr_record r1)) in *.
  rewrite Hm in Hr.
  set (a := P / 2 ^ N) in *.
  assert (HpN : 0 < 2 ^ N) by (apply Z.pow_pos_nonneg; lia).
  assert (Ha0 : 0 <= a) by (apply Z.div_pos; lia).
  assert (HaN : a * 2 ^ N <= P).
  { unfold a. rewrite Z.mul_comm. apply Z.mul_div_le. lia. }
  assert (Ha : a < 2 ^ 53).
  { destruct (Z.eq_dec P 0) as [E0|E0].
    - unfold a. rewrite E0, Z.div_0_l by lia. lia.
    - pose proof (Zdigits2_bounds P ltac:(lia)) as [_ Bhi].
      pose proof (Zdigits2_pos P ltac:(lia)) as Hd.
      apply Z.div_lt_upper_bound; [lia|].
      destruct (Z_le_gt_dec (Zdigits2 P) 53).
      + assert (2 ^ Zdigits2 P <= 2 ^ 53) by (apply Z.pow_le_mono_r; lia). nia.
      + assert (E1 : 2 ^ Zdigits2 P = 2 ^ (Zdigits2 P - 53) * 2 ^ 53)
          by (rewrite <- Z.pow_add_r by lia; f_equal; lia).
        assert (2 ^ (Zdigits2 P - 53) <= 2 ^ N) by (apply Z.pow_le_mono_r; unfold N, n; lia).
        assert (0 < 2 ^ 53) by lia.
        rewrite E1 in Bhi.
        eapply Z.lt_le_trans; [exact Bhi|].
        apply Z.mul_le_mono_nonneg_r; lia. }
  exists m2, (ep + N). split; [reflexivity|].
  split; [lia|]. split; [unfold N, n; lia|].
  (* the value bound *)
  assert (HpB : 0 < 2 ^ (-1074 - B)) by (apply Z.pow_pos_nonneg; lia).
  assert (HpE : 0 < 2 ^ (E + 1074)) by (apply Z.pow_pos_nonneg; lia).
  assert (EU : 2 ^ (E - B) = 2 ^ (E + 1074) * 2 ^ (-1074 - B))
    by (rewrite <- Z.pow_add_r by lia; f_equal; lia).
  destruct (Z_le_gt_dec n 0) as [Hn0|Hn0].
  - (* no shift *)
    assert (EN : N = 0) by (unfold N; lia).
    assert (Hep : -1074 <= ep) by (unfold n in Hn0; lia).
    assert (Ea : a = P) by (unfold a; rewrite EN; change (2 ^ 0) with 1; apply Z.div_1_r).
    assert (Eloc : loc_of_shr_record r1 = l).
    { unfold r1, shr. destruct n as [|q|q]; try lia; apply loc_of_shr_record_of_loc. }
    assert (Ep : 2 ^ (ep - B) = 2 ^ (ep + 1074) * 2 ^ (-1074 - B))
      by (rewrite <- Z.pow_add_r by lia; f_equal; lia).
    rewrite EN, Z.add_0_r.
    assert (Hp1 : 0 < 2 ^ (ep + 1074)) by (apply Z.pow_pos_nonneg; lia).
    destruct l as [|c].
    + assert (Em : m2 = P).
      { unfold m2. rewrite Eloc. cbn [round_nearest_even]. rewrite Hm. exact Ea. }
      rewrite Em. rewrite Ep, EU in Hlt.
      set (X := 2 ^ (ep + 1074)) in *. set (Y := 2 ^ (E + 1074)) in *.
      set (Z0 := 2 ^ (-1074 - B)) in *. nia.
    + specialize (Hle ltac:(discriminate)). rewrite Ep, EU in Hle.
      assert (m2 * 2 ^ (ep + 1074) <= (P + 1) * 2 ^ (ep + 1074))
        by (apply Z.mul_le_mono_nonneg_r; lia).
      set (X := 2 ^ (ep + 1074)) in *. set (Y := 2 ^ (E + 1074)) in *.
      set (Z0 := 2 ^ (-1074 - B)) in *. nia.
  - (* a right shift by [n] *)
    assert (EN : N = n) by (unfold N; lia).
    assert (Et : ep + N = fexp prec emax (Zdigits2 P + ep)) by (unfold n in EN; lia).
    set (t := ep + N) in *.
    assert (Ht1 : -1074 <= t) by lia.
    assert (Hpt : 0 < 2 ^ (t + 1074)) by (apply Z.pow_pos_nonneg; lia).
    assert (Ep : 2 ^ (t - B) = 2 ^ N * 2 ^ (ep - B))
      by (rewrite <- Z.pow_add_r by lia; f_equal; lia).
    assert (Ep' : 2 ^ (t - B) = 2 ^ (t + 1074) * 2 ^ (-1074 - B))
      by (rewrite <- Z.pow_add_r by lia; f_equal; lia).
    assert (HpB' : 0 < 2 ^ (ep - B)) by (apply Z.pow_pos_nonneg; lia).
    assert (Hm2 : m2 * 2 ^ (t + 1074) <= (a + 1) * 2 ^ (t + 1074))
      by (apply Z.mul_le_mono_nonneg_r; lia).
    eapply Z.le_trans; [exact Hm2|].
    destruct (Z_le_gt_dec t E) as [HtE|HtE].
    + (* the bound is a multiple of the rounding step *)
      assert (EE : 2 ^ (E + 1074) = 2 ^ (E - t) * 2 ^ (t + 1074))
        by (rewrite <- Z.pow_add_r by lia; f_equal; lia).
      assert (EB : 2 ^ (E - B) = 2 ^ (E - t) * 2 ^ N * 2 ^ (ep - B)).
      { rewrite <- Z.mul_assoc, <- Ep, <- Z.pow_add_r by lia. f_equal. lia. }
      assert (0 < 2 ^ (E - t)) by (apply Z.pow_pos_nonneg; lia).
      rewrite EB in Hlt.
      assert (Hc : P < Z.pos M * 2 ^ (E - t) * 2 ^ N).
      { set (X := 2 ^ (ep - B)) in *. set (c := Z.pos M * 2 ^ (E - t)).
        assert (P * X < c * 2 ^ N * X) by (unfold c; lia).
        apply Z.mul_lt_mono_pos_r with X; assumption. }
      assert (Hac : a < Z.pos M * 2 ^ (E - t)).
      { apply Z.div_lt_upper_bound; [lia|]. lia. }
      rewrite EE, Z.mul_assoc.
      apply Z.mul_le_mono_nonneg_r; lia.
    + (* the rounded mantissa has 53 digits, so the bound is below it *)
      exfalso.
      assert (Et' : t = Zdigits2 P + ep - 53) by lia.
      assert (HPpos : 0 < P).
      { destruct (Z.eq_dec P 0) as [E0|]; [|lia].
        rewrite E0 in Et'. cbn [Zdigits2] in Et'. lia. }
      pose proof (Zdigits2_bounds P HPpos) as [Blo _].
      assert (E2 : 2 ^ (Zdigits2 P - 1) = 2 ^ 52 * 2 ^ N)
        by (rewrite <- Z.pow_add_r by lia; f_equal; lia).
      assert (Hlo : 2 ^ 52 <= a).
      { apply Z.div_le_lower_bound; [lia|]. rewrite Z.mul_comm, <- E2. exact Blo. }
      assert (EtE : 2 ^ (t + 1074) = 2 ^ (t - E - 1) * 2 * 2 ^ (E + 1074)).
      { replace (t + 1074) with ((t - E - 1) + 1 + (E + 1074)) by lia.
        now rewrite !Z.pow_add_r, Z.pow_1_r by lia. }
      assert (0 < 2 ^ (t - E - 1)) by (apply Z.pow_pos_nonneg; lia).
      (* a * 2^(t-B) <= P * 2^(ep-B) < M * 2^(E-B) *)
      assert (H1 : a * 2 ^ (t - B) <= P * 2 ^ (ep - B)).
      { rewrite Ep, Z.mul_assoc. apply Z.mul_le_mono_nonneg_r; lia. }
      rewrite Ep', EU in *. rewrite EtE in H1.
      change (2 ^ 52) with 4503599627370496 in *.
      change (2 ^ 53) with 9007199254740992 in *.
      set (Y := 2 ^ (E + 1074)) in *. set (Z0 := 2 ^ (-1074 - B)) in *.
      set (Q := 2 ^ (t - E - 1)) in *.
      assert (A1 : 4503599627370496 <= a * Q) by nia.
      assert (A2 : 4503599627370496 * (2 * Y * Z0) <= a * Q * (2 * Y * Z0))
        by (apply Z.mul_le_mono_nonneg_r; nia).
      assert (A3 : Z.pos M * (Y * Z0) < 9007199254740992 * (Y * Z0))
        by (apply Z.mul_lt_mono_pos_r; nia).
      lia.
Qed.

Lemma renormalize_value (m t : Z) :
  fst (renormalize m t) * 2 ^ (snd (renormalize m t) + 1074) = m * 2 ^ (t + 1074)
  \/ t < -1074.
Proof.
  destruct (Z_le_gt_dec (-1074) t) as [Ht|Ht]; [left|right; lia].
  unfold renormalize. destruct (Z.eqb_spec m (2 ^ 53)) as [->|Hne]; cbn [fst snd].
  - replace (t + 1 + 1074) with (1 + (t + 1074)) by lia.
    rewrite (Z.pow_add_r 2 1) by lia. change (2 ^ 53) with (2 ^ 52 * 2 ^ 1). lia.
  - reflexivity.
Qed.

Lemma renormalize_pos (m t : Z) : 0 < m -> 0 < fst (renormalize m t).
Proof.
  intros Hm. unfold renormalize. destruct (m =? 2 ^ 53); cbn [fst]; [reflexivity|lia].
Qed.

Lemma binary_round_aux_upper (P ep : Z) (l : location) (M : positive) (E B : Z) :
  0 <= P -> B <= ep -> B <= -1074 ->
  valid_binary (S754_finite false M E) = true -> E <= 918 ->
  P * 2 ^ (ep - B) < Z.pos M * 2 ^ (E - B) ->
  (l <> loc_Exact -> (P + 1) * 2 ^ (ep - B) <= Z.pos M * 2 ^ (E - B)) ->
  valid_binary (binary_round_aux prec emax false P ep l) = true ->
  SFleb (binary_round_aux prec emax false P ep l) (S754_finite false M E) = true.
Proof.
  intros HP HBp HB HV HE Hlt Hle.
  destruct (binary_round_aux_value_upper P ep l M E B HP HBp HB HV Hlt Hle)
    as (m2 & t & -> & Hm2 & Ht & Hval).
  rewrite round_finish_spec by assumption.
  destruct (renormalize_value m2 t) as [Hno|]; [|lia].
  pose proof (renormalize_pos m2 t) as Hpos.
  set (mo := fst (renormalize m2 t)) in *. set (eo := snd (renormalize m2 t)) in *.
  intros Hvo.
  destruct (Z.eq_dec m2 0) as [E0|E0].
  - assert (mo = 0).
    { unfold mo, renormalize. rewrite E0. reflexivity. }
    rewrite H. reflexivity.
  - specialize (Hpos ltac:(lia)).
    destruct mo as [|p|p] eqn:Emo; try lia.
    pose proof (valid_finite _ _ _ HV) as (HE' & HdM & _).
    pose proof (digits2_pos_bounds M) as [_ BM].
    assert (HM : Z.pos M < 2 ^ 53).
    { eapply Z.lt_le_trans; [exact BM|]. apply Z.pow_le_mono_r; lia. }
    assert (Heo : eo <= 971).
    { destruct (Z_le_gt_dec eo 971) as [|Hgt]; [assumption|exfalso].
      assert (He1 : 2 ^ (eo + 1074) = 2 ^ (eo - E - 53) * 2 ^ 53 * 2 ^ (E + 1074)).
      { replace (eo + 1074) with ((eo - E - 53) + 53 + (E + 1074)) by lia.
        now rewrite (pow2_split ((eo - E - 53) + 53) (E + 1074)),
          (pow2_split (eo - E - 53) 53) by lia. }
      assert (0 < 2 ^ (eo - E - 53)) by (apply Z.pow_pos_nonneg; lia).
      assert (0 < 2 ^ (E + 1074)) by (apply Z.pow_pos_nonneg; lia).
      rewrite <- Hno, He1 in Hval.
      change (2 ^ 53) with 9007199254740992 in *.
      set (X := 2 ^ (eo - E - 53)) in *. set (U := 2 ^ (E + 1074)) in *.
      assert (1 <= Z.pos p * X) by nia.
      assert (1 * (9007199254740992 * U) <= Z.pos p * X * (9007199254740992 * U))
        by (apply Z.mul_le_mono_nonneg_r; nia).
      assert (Z.pos M * U < 9007199254740992 * U) by (apply Z.mul_lt_mono_pos_r; lia).
      lia. }
    unfold pack in *. apply Z.leb_le in Heo. rewrite Heo in *.
    rewrite SFleb_units by (assumption || reflexivity).
    apply Z.leb_le. cbn [units cond_Zopp]. lia.
Qed.

Lemma SFsub_zero x y :
  valid_binary x = true -> valid_binary y = true ->
  sf_finite x = true -> sf_finite y = true ->
  units x = units y ->
  exists s, SFsub prec emax x y = S754_zero s.
Proof.
  intros Vx Vy Fx Fy Hu.
  destruct x as [sx|sx| |sx mx ex], y as [sy|sy| |sy my ey]; try discriminate.
  - destruct sx, sy; cbn; eauto.
  - pose proof (valid_finite _ _ _ Vy) as (Hey & _).
    destruct (units_pos my ey) as [Hp|]; [|lia].
    cbn [units] in Hu. destruct sy; cbn [cond_Zopp] in Hu; lia.
  - pose proof (valid_finite _ _ _ Vx) as (Hex & _).
    destruct (units_pos mx ex) as [Hp|]; [|lia].
    cbn [units] in Hu. destruct sx; cbn [cond_Zopp] in Hu; lia.
  - pose proof (valid_finite _ _ _ Vx) as (Hex & _).
    pose proof (valid_finite _ _ _ Vy) as (Hey & _).
    pose proof (units_aligned_diff sx mx ex sy my ey ltac:(lia) ltac:(lia)) as E.
    assert (Hp : 0 < 2 ^ (Z.min ex ey + 1074)) by (apply Z.pow_pos_nonneg; lia).
    cbn [SFsub]. fold (aligned_diff sx mx ex sy my ey).
    assert (E0 : aligned_diff sx mx ex sy my ey = 0) by nia.
    rewrite E0. cbn. eauto.
Qed.

Lemma round_units_positive (V : Z) : 0 < V -> positive_sf (round_units V).
Proof. intros HV. apply binary_normalize_pos; lia. Qed.

(** Subtraction is monotone on non-negative differences. *)
Lemma SFsub_mono a b c d :
  valid_binary a = true -> valid_binary b = true ->
  valid_binary c = true -> valid_binary d = true ->
  sf_finite a = true -> sf_finite b = true ->
  sf_finite c = true -> sf_finite d = true ->
  0 <= units a - units b <= units c - units d ->
  SFleb (SFsub prec emax a b) (SFsub prec emax c d) = true.
Proof.
  intros Va Vb Vc Vd Fa Fb Fc Fd [H0 Hle].
  destruct (Z.eq_dec (units a - units b) 0) as [E|E].
  - destruct (SFsub_zero a b Va Vb Fa Fb ltac:(lia)) as [s ->].
    destruct (Z.eq_dec (units c - units d) 0) as [E'|E'].
    + destruct (SFsub_zero c d Vc Vd Fc Fd ltac:(lia)) as [s' ->]. reflexivity.
    + rewrite (SFsub_units c d) by (assumption || lia).
      pose proof (round_units_positive (units c - units d) ltac:(lia)) as Hp.
      destruct (round_units _) as [?|[]| |[] ? ?]; easy.
  - rewrite (SFsub_units a b), (SFsub_units c d) by (assumption || lia).
    apply round_units_mono; lia.
Qed.

Lemma SFleb_finite_l x y :
  SFleb x y = true -> sf_finite y = true -> nonneg_or_nan x -> sf_finite x = true.
Proof.
  destruct x as [sx|[]| |sx mx ex], y as [sy|sy| |sy my ey]; try easy.
Qed.

Lemma SFcompare_Eq_finite s mx ex my ey :
  SFcompare (S754_finite s mx ex) (S754_finite s my ey) = Some Eq ->
  mx = my /\ ex = ey.
Proof.
  cbn [SFcompare].
  change (Pos.compare_cont Eq mx my) with (Pos.compare mx my).
  destruct s; destruct (Z.compare_spec ex ey); try discriminate;
    destruct (Pos.compare_spec mx my); try discriminate; auto.
Qed.

Lemma SFcompare_le_exp mx ex my ey :
  SFleb (S754_finite false mx ex) (S754_finite false my ey) = true -> ex <= ey.
Proof.
  unfold SFleb. cbn [SFcompare].
  destruct (Z.compare_spec ex ey); try discriminate; lia.
Qed.

Lemma SFdiv_core_binary_quotient (mx : positive) (ex : Z) (my : positive) (ey : Z) :
  let e' := Z.min (fexp prec emax (Zdigits2 (Z.pos mx) + ex - (Zdigits2 (Z.pos my) + ey)))
              (ex - ey) in
  exists l,
    SFdiv_core_binary prec emax (Z.pos mx) ex (Z.pos my) ey
    = (Z.pos mx * 2 ^ (ex - ey - e') / Z.pos my, e', l).
Proof.
  intros e'. unfold SFdiv_core_binary. fold e'.
  set (s := ex - ey - e').
  assert (Hs : 0 <= s) by (unfold s, e'; lia).
  set (m' := match s with Z.pos _ => Z.shiftl (Z.pos mx) s | 0 => Z.pos mx | Z.neg _ => 0 end).
  assert (Hm : m' = Z.pos mx * 2 ^ s).
  { unfold m'. destruct s as [|p|p] eqn:E; try lia.
    now rewrite Z.shiftl_mul_pow2 by lia. }
  change (IntDef.Z.div_eucl m' (Z.pos my)) with (Z.div_eucl m' (Z.pos my)).
  assert (Hq : m' / Z.pos my = fst (Z.div_eucl m' (Z.pos my))) by reflexivity.
  destruct (Z.div_eucl m' (Z.pos my)) as [q r]. cbn [fst] in Hq.
  exists (new_location (Z.pos my) r). now rewrite <- Hm, Hq.
Qed.

Lemma valid_SFone : valid_binary SFone = true.
Proof. reflexivity. Qed.

(** A quotient of [0 <= x <= y] is at most one. *)
Lemma SFdiv_le_one x y :
  valid_binary x = true -> valid_binary y = true ->
  sf_finite x = true -> sf_finite y = true ->
  0 <= units x <= units y -> 0 < units y ->
  valid_binary (SFdiv prec emax x y) = true ->
  SFleb (SFdiv prec emax x y) SFone = true.
Proof.
  intros Vx Vy Fx Fy [Hx0 Hxy] Hy0 Vq.
  destruct y as [sy|sy| |sy my ey]; try discriminate.
  pose proof (valid_finite _ _ _ Vy) as (Hey & _).
  destruct (units_pos my ey) as [Hpy|]; [|lia].
  destruct sy; [cbn [units cond_Zopp] in Hy0; lia|].
  destruct x as [sx|sx| |sx mx ex]; try discriminate; [now destruct sx|].
  pose proof (valid_finite _ _ _ Vx) as (Hex & _).
  destruct (units_pos mx ex) as [Hpx|]; [|lia].
  destruct sx; [cbn [units cond_Zopp] in Hx0; lia|].
  assert (Hle : SFleb (S754_finite false mx ex) (S754_finite false my ey) = true).
  { rewrite SFleb_units by (assumption || reflexivity). now apply Z.leb_le. }
  destruct (Z.eq_dec (units (S754_finite false mx ex)) (units (S754_finite false my ey)))
    as [E|E].
  - assert (Hc : SFcompare (S754_finite false mx ex) (S754_finite false my ey) = Some Eq).
    { rewrite SFcompare_units by (assumption || reflexivity). now rewrite E, Z.compare_refl. }
    apply SFcompare_Eq_finite in Hc as [-> ->]. now rewrite SFdiv_diag.
  - pose proof (SFcompare_le_exp _ _ _ _ Hle) as Hexp.
    cbn [units cond_Zopp] in Hxy, E.
    revert Vq. cbn [SFdiv xorb].
    destruct (SFdiv_core_binary_quotient mx ex my ey) as [l ->]. cbv zeta.
    set (e' := Z.min _ (ex - ey)).
    assert (He' : e' <= ex - ey) by (unfold e'; lia).
    assert (He'' : -1074 - 971 - 1074 <= e').
    { unfold e', fexp, SpecFloat.emin, prec, emax. lia. }
    set (s := ex - ey - e').
    set (q := Z.pos mx * 2 ^ s / Z.pos my).
    assert (Hs : 0 < 2 ^ s) by (apply Z.pow_pos_nonneg; unfold s; lia).
    assert (Hq0 : 0 <= q) by (apply Z.div_pos; lia).
    assert (Hq : q + 1 <= 2 ^ (- e')).
    { assert (q < 2 ^ (- e')); [|lia].
      apply Z.div_lt_upper_bound; [lia|].
      assert (Ee : 2 ^ (- e') = 2 ^ (ey - ex) * 2 ^ s)
        by (rewrite <- Z.pow_add_r by (unfold s; lia); f_equal; unfold s; lia).
      assert (Ey : 2 ^ (ey + 1074) = 2 ^ (ey - ex) * 2 ^ (ex + 1074))
        by (rewrite <- Z.pow_add_r by lia; f_equal; lia).
      assert (0 < 2 ^ (ex + 1074)) by (apply Z.pow_pos_nonneg; lia).
      rewrite Ee. rewrite Ey in Hxy, E.
      set (X := 2 ^ (ex + 1074)) in *. set (D := 2 ^ (ey - ex)) in *.
      assert (Z.pos mx < Z.pos my * D) by nia.
      rewrite Z.mul_assoc. apply Z.mul_lt_mono_pos_r; lia. }
    intros Vq.
    assert (EU : 4503599627370496 * 2 ^ (-52 - (e' - 1074)) = 2 ^ (- e') * 2 ^ 1074).
    { change 4503599627370496 with (2 ^ 52).
      rewrite <- !Z.pow_add_r by lia. f_equal. lia. }
    assert (0 < 2 ^ 1074) by (apply Z.pow_pos_nonneg; lia).
    apply (binary_round_aux_upper q e' l 4503599627370496 (-52) (e' - 1074));
      try lia; try exact valid_SFone; try exact Vq;
      replace (e' - (e' - 1074)) with 1074 by lia; rewrite EU.
    + apply Z.mul_lt_mono_pos_r; lia.
    + intros _. apply Z.mul_le_mono_nonneg_r; lia.
Qed.

(** Scaling by a factor in [[0, 1]] does not increase a number. *)
Lemma SFmul_le q (mn : positive) (en : Z) :
  valid_binary q = true -> sf_finite q = true -> 0 <= units q ->
  SFleb q SFone = true ->
  valid_binary (S754_finite false mn en) = true -> en <= 0 ->
  valid_binary (SFmul prec emax q (S754_finite false mn en)) = true ->
  SFleb (SFmul prec emax q (S754_finite false mn en)) (S754_finite false mn en) = true.
Proof.
  intros Vq Fq Hq0 Hq1 Vn Hen.
  destruct q as [sq|sq| |sq mq eq]; try discriminate; [now destruct sq|].
  pose proof (valid_finite _ _ _ Vq) as (Heq & _).
  pose proof (valid_finite _ _ _ Vn) as (Hen' & _).
  destruct (units_pos mq eq) as [Hpq|]; [|lia].
  destruct sq; [cbn [units cond_Zopp] in Hq0; lia|].
  destruct (SFcompare (S754_finite false mq eq) SFone) as [[]|] eqn:Hc;
    try (unfold SFleb in Hq1; rewrite Hc in Hq1; discriminate).
  - apply SFcompare_Eq_finite in Hc as [-> ->]. fold SFone.
    rewrite SFmul_one_l by assumption. intros _.
    unfold SFleb. now rewrite SFcompare_refl.
  - rewrite SFcompare_units in Hc by (assumption || reflexivity).
    injection Hc as Hc. cbn [units cond_Zopp SFone] in Hc.
    change (Z.pos 4503599627370496 * 2 ^ (-52 + 1074)) with (2 ^ 1074) in Hc.
    change (Z.pos mq * 2 ^ (eq + 1074) < 2 ^ 1074) in Hc.
    assert (Hneg : eq < 0).
    { destruct (Z_lt_ge_dec eq 0) as [|Hge]; [assumption|exfalso].
      assert (2 ^ 1074 <= 2 ^ (eq + 1074)) by (apply Z.pow_le_mono_r; lia).
      assert (0 < 2 ^ 1074) by (apply Z.pow_pos_nonneg; lia). nia. }
    assert (Hm : Z.pos mq < 2 ^ (- eq)).
    { assert (E1 : 2 ^ 1074 = 2 ^ (- eq) * 2 ^ (eq + 1074))
        by (rewrite <- Z.pow_add_r by lia; f_equal; lia).
      assert (0 < 2 ^ (eq + 1074)) by (apply Z.pow_pos_nonneg; lia).
      rewrite E1 in Hc. apply Z.mul_lt_mono_pos_r in Hc; assumption. }
    cbn [SFmul xorb]. intros Vp.
    assert (0 < 2 ^ 1074) by (apply Z.pow_pos_nonneg; lia).
    apply (binary_round_aux_upper _ _ _ mn en (eq + en - 1074));
      try lia; try assumption; try easy.
    replace (eq + en - (eq + en - 1074)) with 1074 by lia.
    replace (en - (eq + en - 1074)) with (- eq + 1074) by lia.
    rewrite Z.pow_add_r, Pos2Z.inj_mul by lia.
    set (X := 2 ^ 1074) in *. set (Y := 2 ^ (- eq)) in *.
    assert (Z.pos mq * (Z.pos mn * X) < Y * (Z.pos mn * X))
      by (apply Z.mul_lt_mono_pos_r; lia).
    lia.
Qed.

Lemma trunc_mag_units (m : positive) (e : Z) :
  -1074 <= e -> F64.trunc_mag m e = Z.pos m * 2 ^ (e + 1074) / 2 ^ 1074.
Proof.
  intros He. unfold F64.trunc_mag.
  assert (0 < 2 ^ 1074) by (apply Z.pow_pos_nonneg; lia).
  destruct (Z_le_gt_dec 0 e) as [H0|H0].
  - rewrite Z.shiftl_mul_pow2, Z.pow_add_r, Z.mul_assoc, Z.div_mul by lia. reflexivity.
  - rewrite Z.shiftl_div_pow2 by lia.
    assert (E1 : 2 ^ 1074 = 2 ^ (- e) * 2 ^ (e + 1074))
      by (rewrite <- Z.pow_add_r by lia; f_equal; lia).
    assert (0 < 2 ^ (e + 1074)) by (apply Z.pow_pos_nonneg; lia).
    assert (0 < 2 ^ (- e)) by (apply Z.pow_pos_nonneg; lia).
    rewrite E1, Z.div_mul_cancel_r by lia. reflexivity.
Qed.

Lemma SFleb_between_finite lo a hi :
  SFleb lo a = true -> SFleb a hi = true ->
  sf_finite lo = true -> sf_finite hi = true -> sf_finite a = true.
Proof.
  destruct lo as [?|?| |? ? ?], a as [?|[]| |? ? ?], hi as [?|?| |? ? ?]; try easy.
  all: try (destruct s; easy); try (destruct s0; easy).
Qed.

Lemma nonneg_units x : nonneg_or_nan x -> 0 <= units x.
Proof.
  destruct x as [s|s| |[] m e]; cbn [units cond_Zopp]; try easy.
  intros _. destruct (Z_le_gt_dec (-1074) e).
  - assert (0 < 2 ^ (e + 1074)) by (apply Z.pow_pos_nonneg; lia). lia.
  - rewrite Z.pow_neg_r by lia. lia.
Qed.

Lemma SFdiv_sign x y :
  valid_binary x = true -> valid_binary y = true ->
  sf_finite x = true -> sf_finite y = true ->
  0 <= units x -> 0 < units y ->
  nonneg_or_nan (SFdiv prec emax x y).
Proof.
  intros Vx Vy Fx Fy Hx Hy.
  destruct y as [sy|sy| |sy my ey]; try discriminate.
  pose proof (valid_finite _ _ _ Vy) as (Hey & _).
  destruct (units_pos my ey) as [Hpy|]; [|lia].
  destruct sy; [cbn [units cond_Zopp] in Hy; lia|].
  destruct x as [sx|sx| |sx mx ex]; try discriminate; [now destruct sx|].
  pose proof (valid_finite _ _ _ Vx) as (Hex & _).
  destruct (units_pos mx ex) as [Hpx|]; [|lia].
  destruct sx; [cbn [units cond_Zopp] in Hx; lia|].
  cbn [SFdiv]. destruct (SFdiv_core_binary _ _ _ _ _ _) as [[mz ez] lz].
  pose proof (binary_round_aux_sign (xorb false false) mz ez lz) as Hs.
  destruct (binary_round_aux _ _ _ _ _ _); cbn in *; try easy; subst; easy.
Qed.

End SFFacts.

(** * The samplers *)

Module F64Facts.
Import SF SFFacts.

Lemma is_nan_spec (x : float) :
  PrimFloat.is_nan x = match Prim2SF x with S754_nan => true | _ => false end.
Proof.
  unfold PrimFloat.is_nan. rewrite FloatAxioms.eqb_spec. unfold SFeqb.
  destruct (Prim2SF x) as [s|s| |s m e] eqn:E; try reflexivity;
    rewrite SFcompare_refl by discriminate; reflexivity.
Qed.

Lemma is_infinity_spec (x : float) :
  PrimFloat.is_infinity x
  = match Prim2SF x with S754_infinity _ => true | _ => false end.
Proof.
  unfold PrimFloat.is_infinity. rewrite FloatAxioms.eqb_spec, abs_spec.
  change (Prim2SF infinity) with (S754_infinity false).
  destruct (Prim2SF x) as [s|s| |s m e]; reflexivity.
Qed.

Lemma is_finite_spec (x : float) :
  PrimFloat.is_finite x = sf_finite (Prim2SF x).
Proof.
  unfold PrimFloat.is_finite. rewrite is_nan_spec, is_infinity_spec.
  destruct (Prim2SF x); reflexivity.
Qed.

(** [int] and [floor] agree on what is not negative. *)
Lemma py_int_floor (x : float) :
  nonneg_or_nan (Prim2SF x) -> F64.py_int x = F64.py_floor x.
Proof.
  unfold F64.py_int, F64.py_floor, F64.trunc_mag.
  destruct (Prim2SF x) as [s|s| |[] m e]; easy.
Qed.


Lemma of_int_sign (n : Z) : sign_clear_or_nan (Prim2SF (F64.of_int n)).
Proof.
  unfold F64.of_int. rewrite of_uint63_spec.
  apply binary_normalize_nonneg. apply Uint63.to_Z_bounded.
Qed.


Lemma py_int_of_int (n : Z) :
  0 <= n < 2 ^ 53 -> F64.py_int (F64.of_int n) = Ok n.
Proof.
  intros Hn. unfold F64.py_int, F64.of_int. rewrite of_uint63_spec, Uint63.of_Z_spec.
  rewrite Z.mod_small by (change Uint63.wB with (2 ^ 63); change (2 ^ 53) with 9007199254740992 in Hn; change (2 ^ 63) with 9223372036854775808; lia).
  destruct n as [|p|p]; [reflexivity| |lia].
  destruct (binary_normalize_int p ltac:(lia)) as (m & e & -> & He & Hm).
  cbn [cond_Zopp]. unfold F64.trunc_mag. rewrite Hm.
  rewrite Z.shiftl_div_pow2 by lia. f_equal. apply Z.div_mul.
  apply Z.pow_nonzero; lia.
Qed.

Lemma of_int_finite (n : Z) :
  0 <= n < 2 ^ 53 ->
  sf_finite (Prim2SF (F64.of_int n)) = true /\ sign_clear_or_nan (Prim2SF (F64.of_int n)).
Proof.
  intros Hn. split; [|apply of_int_sign].
  pose proof (py_int_of_int n Hn) as H. unfold F64.py_int in H.
  destruct (Prim2SF (F64.of_int n)); easy.
Qed.

(** The extent of well-formed bounds is a positive number. *)
Lemma extent_positive (lo hi : float) :
  (lo <? hi)%float = true -> PrimFloat.is_finite (hi - lo)%float = true ->
  exists m e, Prim2SF (hi - lo)%float = S754_finite false m e.
Proof.
  rewrite FloatAxioms.ltb_spec, is_finite_spec, sub_spec. unfold SF64sub.
  intros Hlt Hf.
  pose proof (SFsub_pos _ _ (Prim2SF_valid hi) (Prim2SF_valid lo) Hlt) as Hp.
  destruct (SFsub prec emax (Prim2SF hi) (Prim2SF lo)) as [s|s| |s m e]; try easy.
  destruct s; [easy|]. now exists m, e.
Qed.

Lemma extent_ends_finite (lo hi : float) :
  PrimFloat.is_finite (hi - lo)%float = true ->
  sf_finite (Prim2SF hi) = true /\ sf_finite (Prim2SF lo) = true.
Proof. rewrite is_finite_spec, sub_spec. apply SFsub_finite. Qed.

(** At the low end of an axis the offset is [0]; at the high end it is the
    length of the axis. *)
Lemma offset_at_zero (x lo hi : float) (n : Z) :
  sf_finite (Prim2SF x) = true ->
  (lo <? hi)%float = true -> PrimFloat.is_finite (hi - lo)%float = true ->
  0 <= n < 2 ^ 53 ->
  F64.py_int ((x - x) / (hi - lo) * F64.of_int n)%float = Ok 0.
Proof.
  intros Hx Hlt Hf Hn.
  destruct (extent_positive lo hi Hlt Hf) as (m & e & Hext).
  destruct (of_int_finite n Hn) as [Hnf Hns].
  unfold F64.py_int. rewrite mul_spec, div_spec, (sub_spec x x), Hext.
  rewrite SFsub_diag by exact Hx. cbn [SF64div SFdiv xorb].
  destruct (Prim2SF (F64.of_int n)) as [[]|[]| |[] mn en]; easy.
Qed.

Lemma offset_at_one (lo hi : float) (n : Z) :
  (lo <? hi)%float = true -> PrimFloat.is_finite (hi - lo)%float = true ->
  0 <= n < 2 ^ 53 ->
  F64.py_int ((hi - lo) / (hi - lo) * F64.of_int n)%float = Ok n.
Proof.
  intros Hlt Hf Hn.
  destruct (extent_positive lo hi Hlt Hf) as (m & e & Hext).
  transitivity (F64.py_int (F64.of_int n)); [|now apply py_int_of_int].
  unfold F64.py_int.
  rewrite mul_spec, div_spec, Hext. unfold SF64div. rewrite SFdiv_diag.
  unfold SF64mul. now rewrite SFmul_one_l by apply Prim2SF_valid.
Qed.

Lemma leb_refl_finite (x : float) :
  sf_finite (Prim2SF x) = true -> (x <=? x)%float = true.
Proof.
  intros Hx. rewrite FloatAxioms.leb_spec. unfold SFleb.
  rewrite SFcompare_refl; [reflexivity|]. now destruct (Prim2SF x).
Qed.

Lemma ltb_leb (x y : float) : (x <? y)%float = true -> (x <=? y)%float = true.
Proof. rewrite FloatAxioms.ltb_spec, FloatAxioms.leb_spec. apply SFltb_leb. Qed.

(** *** Offsets along an axis *)

Lemma py_int_units (x : float) :
  sf_finite (Prim2SF x) = true -> nonneg_or_nan (Prim2SF x) ->
  F64.py_int x = Ok (units (Prim2SF x) / 2 ^ 1074).
Proof.
  intros Hf Hs. unfold F64.py_int.
  pose proof (Prim2SF_valid x) as Hv.
  destruct (Prim2SF x) as [s|s| |[] m e]; try easy.
  pose proof (valid_finite _ _ _ Hv) as (He & _).
  cbn [cond_Zopp units]. now rewrite trunc_mag_units by lia.
Qed.

(** A quotient of [0 <= num <= den] scaled by an axis length [n] converts
    to an integer between [0] and [n]. *)
Lemma scaled_fraction_index (num den : float) (n : Z) :
  sf_finite (Prim2SF num) = true -> sf_finite (Prim2SF den) = true ->
  0 <= units (Prim2SF num) <= units (Prim2SF den) -> 0 < units (Prim2SF den) ->
  0 < n < 2 ^ 53 ->
  exists c, F64.py_int (num / den * F64.of_int n)%float = Ok c /\
            F64.py_floor (num / den * F64.of_int n)%float = Ok c /\
            PrimFloat.is_finite (num / den * F64.of_int n)%float = true /\
            0 <= c <= n.
Proof.
  intros Fn Fd Hnd Hd Hn.
  (* the quotient *)
  pose proof (Prim2SF_valid (num / den)%float) as Vq.
  pose proof (SFdiv_le_one _ _ (Prim2SF_valid num) (Prim2SF_valid den) Fn Fd Hnd Hd) as Hq1.
  rewrite div_spec in Vq. unfold SF64div in Vq. specialize (Hq1 Vq).
  assert (Sq : nonneg_or_nan (SFdiv prec emax (Prim2SF num) (Prim2SF den)))
    by (apply SFdiv_sign; auto using Prim2SF_valid; lia).
  assert (Fq : sf_finite (SFdiv prec emax (Prim2SF num) (Prim2SF den)) = true)
    by (eapply SFleb_finite_l; [exact Hq1|reflexivity|exact Sq]).
  (* the axis length *)
  assert (Hn' : 0 <= n < 2 ^ 53) by lia.
  pose proof (py_int_of_int n Hn') as Hpn.
  destruct (of_int_finite n Hn') as [Fk Sk].
  pose proof (Prim2SF_valid (F64.of_int n)) as Vk.
  rewrite py_int_units in Hpn by (assumption || now apply sign_clear_nonneg).
  injection Hpn as Hpn.
  assert (Hk : exists mn en, Prim2SF (F64.of_int n) = S754_finite false mn en /\ en <= 0).
  { unfold F64.of_int. rewrite of_uint63_spec, Uint63.of_Z_spec.
    rewrite Z.mod_small
      by (change Uint63.wB with (2 ^ 63); change (2 ^ 53) with 9007199254740992 in Hn;
          change (2 ^ 63) with 9223372036854775808; lia).
    destruct n as [|p|p]; try lia.
    destruct (binary_normalize_int p ltac:(lia)) as (m & e & E & He & _).
    exists m, e. split; [exact E|exact He]. }
  destruct Hk as (mn & en & Ek & Hen).
  (* the product *)
  pose proof (Prim2SF_valid (num / den * F64.of_int n)%float) as Vp.
  pose proof (is_finite_spec (num / den * F64.of_int n)%float) as Hfin.
  pose proof (py_int_units (num / den * F64.of_int n)%float) as Hpi.
  pose proof (py_int_floor (num / den * F64.of_int n)%float) as Hfl.
  rewrite mul_spec, div_spec in Vp, Hfin, Hpi, Hfl. unfold SF64mul, SF64div in *.
  rewrite Ek in *.
  pose proof (SFmul_le _ mn en Vq Fq (nonneg_units _ Sq) Hq1 Vk Hen Vp) as Hle.
  assert (Sp : nonneg_or_nan (SFmul prec emax (SFdiv prec emax (Prim2SF num) (Prim2SF den))
                                (S754_finite false mn en)))
    by (apply SFmul_nonneg; easy).
  assert (Fp : sf_finite (SFmul prec emax (SFdiv prec emax (Prim2SF num) (Prim2SF den))
                            (S754_finite false mn en)) = true)
    by (eapply SFleb_finite_l; [exact Hle|reflexivity|exact Sp]).
  rewrite SFleb_units in Hle by (assumption || reflexivity).
  apply Z.leb_le in Hle.
  pose proof (nonneg_units _ Sp) as Hp0.
  assert (H1074 : 0 < 2 ^ 1074) by (apply Z.pow_pos_nonneg; lia).
  eexists. split; [apply Hpi; assumption|].
  split; [rewrite <- Hfl by assumption; apply Hpi; assumption|].
  split; [now rewrite Hfin|].
  split; [apply Z.div_pos; lia|].
  rewrite <- Hpn. apply Z.div_le_mono; lia.
Qed.

Lemma difference_below_extent (p q lo hi : float) :
  (lo <? hi)%float = true -> PrimFloat.is_finite (hi - lo)%float = true ->
  sf_finite (Prim2SF p) = true -> sf_finite (Prim2SF q) = true ->
  0 <= units (Prim2SF p) - units (Prim2SF q)
    <= units (Prim2SF hi) - units (Prim2SF lo) ->
  sf_finite (Prim2SF (p - q)%float) = true /\
  0 <= units (Prim2SF (p - q)%float) <= units (Prim2SF (hi - lo)%float) /\
  0 < units (Prim2SF (hi - lo)%float).
Proof.
  intros Hlt Hf Fp Fq Hu.
  destruct (extent_ends_finite lo hi Hf) as [Fhi Flo].
  destruct (extent_positive lo hi Hlt Hf) as (m & e & Hext).
  pose proof (Prim2SF_valid (hi - lo)%float) as Vd.
  pose proof (Prim2SF_valid (p - q)%float) as Vn.
  pose proof (SFsub_mono _ _ _ _ (Prim2SF_valid p) (Prim2SF_valid q)
                (Prim2SF_valid hi) (Prim2SF_valid lo) Fp Fq Fhi Flo Hu) as Hle.
  assert (Sn : nonneg_or_nan (Prim2SF (p - q)%float)).
  { rewrite sub_spec. apply SFsub_nonneg; auto using Prim2SF_valid.
    rewrite SFleb_units by auto using Prim2SF_valid. apply Z.leb_le. lia. }
  rewrite is_finite_spec in Hf.
  rewrite sub_spec in Hf, Vd. unfold SF64sub in *.
  rewrite (sub_spec p q) in *. rewrite (sub_spec hi lo) in *. unfold SF64sub in *.
  assert (Fn : sf_finite (SFsub prec emax (Prim2SF p) (Prim2SF q)) = true)
    by (eapply SFleb_finite_l; eassumption).
  rewrite SFleb_units in Hle by assumption. apply Z.leb_le in Hle.
  split; [exact Fn|]. split; [split; [now apply nonneg_units|exact Hle]|].
  rewrite Hext in *. pose proof (valid_finite _ _ _ Vd) as (He & _).
  destruct (units_pos m e); [assumption|lia].
Qed.

Lemma guard_units (lo a hi : float) :
  (lo <=? a)%float = true -> (a <=? hi)%float = true ->
  sf_finite (Prim2SF lo) = true -> sf_finite (Prim2SF hi) = true ->
  sf_finite (Prim2SF a) = true /\
  units (Prim2SF lo) <= units (Prim2SF a) <= units (Prim2SF hi).
Proof.
  rewrite !FloatAxioms.leb_spec. intros H1 H2 Flo Fhi.
  assert (Fa : sf_finite (Prim2SF a) = true) by (eapply SFleb_between_finite; eassumption).
  rewrite !SFleb_units in * by auto using Prim2SF_valid.
  apply Z.leb_le in H1, H2. auto.
Qed.

(** The offset of a guarded coordinate from the low end of its axis, scaled
    by the axis length [n], converts to an integer in [[0, n]]; so does its
    offset from the high end. *)
Lemma offset_from_low (lo a hi : float) (n : Z) :
  (lo <? hi)%float = true -> PrimFloat.is_finite (hi - lo)%float = true ->
  (lo <=? a)%float = true -> (a <=? hi)%float = true -> 0 < n < 2 ^ 53 ->
  exists c, F64.py_int ((a - lo) / (hi - lo) * F64.of_int n)%float = Ok c /\
            F64.py_floor ((a - lo) / (hi - lo) * F64.of_int n)%float = Ok c /\
            PrimFloat.is_finite ((a - lo) / (hi - lo) * F64.of_int n)%float = true /\
            0 <= c <= n.
Proof.
  intros Hlt Hf H1 H2 Hn.
  destruct (extent_ends_finite lo hi Hf) as [Fhi Flo].
  destruct (guard_units lo a hi H1 H2 Flo Fhi) as [Fa Hu].
  destruct (difference_below_extent a lo lo hi Hlt Hf Fa Flo ltac:(lia)) as (Fn & Hnd & Hd).
  apply scaled_fraction_index; try assumption.
  now rewrite <- is_finite_spec.
Qed.

Lemma offset_from_high (lo a hi : float) (n : Z) :
  (lo <? hi)%float = true -> PrimFloat.is_finite (hi - lo)%float = true ->
  (lo <=? a)%float = true -> (a <=? hi)%float = true -> 0 < n < 2 ^ 53 ->
  exists c, F64.py_int ((hi - a) / (hi - lo) * F64.of_int n)%float = Ok c /\
            F64.py_floor ((hi - a) / (hi - lo) * F64.of_int n)%float = Ok c /\
            PrimFloat.is_finite ((hi - a) / (hi - lo) * F64.of_int n)%float = true /\
            0 <= c <= n.
Proof.
  intros Hlt Hf H1 H2 Hn.
  destruct (extent_ends_finite lo hi Hf) as [Fhi Flo].
  destruct (guard_units lo a hi H1 H2 Flo Fhi) as [Fa Hu].
  destruct (difference_below_extent hi a lo hi Hlt Hf Fhi Fa ltac:(lia)) as (Fn & Hnd & Hd).
  apply scaled_fraction_index; try assumption.
  now rewrite <- is_finite_spec.
Qed.

End F64Facts.

Module SamplerFacts.
Import SF SFFacts F64Facts GwPotential.

Lemma bind_Ok {A B} (a : A) (k : A -> result B) : (x ← Ok a; k x) = k a.
Proof. reflexivity. Qed.

Lemma axis_index_in_range {A} (xs : list A) (i : Z) :
  0 <= i < Z.of_nat (length xs) ->
  exists x, axis_index xs i = Ok x /\ xs !! Z.to_nat i = Some x.
Proof.
  intros Hi. unfold axis_index.
  destruct (lookup_lt_is_Some_2 xs (Z.to_nat i) ltac:(lia)) as [x Hx].
  exists x. rewrite Hx.
  replace ((0 <=? i) && (i <? Z.of_nat (length xs))) with true; [done|].
  symmetry. apply andb_true_iff. split; [apply Z.leb_le | apply Z.ltb_lt]; lia.
Qed.

Lemma getitem2_pixel (dem : ndarray) (r c : Z) :
  rectangular dem -> 0 <= r < shape0 dem -> 0 <= c < shape1 dem ->
  exists v, getitem2 dem r c = Ok v /\ pixel dem r c = Some v.
Proof.
  intros Hrect Hr Hc. unfold getitem2, pixel.
  destruct (axis_index_in_range dem r Hr) as (row & -> & Hrow).
  rewrite bind_Ok, Hrow.
  assert (Hlen : Z.of_nat (length row) = shape1 dem).
  { unfold rectangular in Hrect. rewrite Forall_forall in Hrect.
    apply Hrect. eapply list_elem_of_lookup_2, Hrow. }
  destruct (axis_index_in_range row c ltac:(lia)) as (v & -> & Hv).
  exists v. split; [reflexivity|].
  replace ((r <? 0) || (c <? 0)) with false; [exact Hv|].
  symmetry. apply orb_false_iff. split; apply Z.ltb_ge; lia.
Qed.

(** Past the guard, [get_dem_value] is the clamped lookup. *)
Lemma get_dem_value_inside (dem : ndarray) (b : Bounds) (lat lon : float) (r c : Z) :
  in_bounds b lat lon = true ->
  F64.py_int (row_offset b dem lat) = Ok r ->
  F64.py_int (col_offset b dem lon) = Ok c ->
  get_dem_value lat lon dem b
  = getitem2 dem (np_clip r 0 (shape0 dem - 1)) (np_clip c 0 (shape1 dem - 1)).
Proof.
  unfold in_bounds, row_offset, col_offset, get_dem_value.
  intros -> -> ->. reflexivity.
Qed.

Lemma in_bounds_inv (b : Bounds) (lat lon : float) :
  in_bounds b lat lon = true ->
  (west b <=? lon)%float = true /\ (lon <=? east b)%float = true /\
  (south b <=? lat)%float = true /\ (lat <=? north b)%float = true.
Proof. unfold in_bounds. rewrite !andb_true_iff. tauto. Qed.

(** Past the guard, with offsets that convert to non-negative integers, the
    sample is the pixel at those integers, each cut to the last index of its
    axis. *)
Lemma sample_at (dem : ndarray) (b : Bounds) (lat lon : float) (r c : Z) :
  rectangular dem -> 0 < shape0 dem -> 0 < shape1 dem ->
  in_bounds b lat lon = true ->
  F64.py_int (row_offset b dem lat) = Ok r -> 0 <= r ->
  F64.py_int (col_offset b dem lon) = Ok c -> 0 <= c ->
  exists v, get_dem_value lat lon dem b = Ok v /\
            pixel dem (Z.min r (shape0 dem - 1)) (Z.min c (shape1 dem - 1)) = Some v.
Proof.
  intros Hrect H0 H1 Hin Hr Hr0 Hc Hc0.
  destruct (getitem2_pixel dem (Z.min r (shape0 dem - 1)) (Z.min c (shape1 dem - 1))
              Hrect ltac:(lia) ltac:(lia)) as (v & Hget & Hpix).
  exists v. split; [|exact Hpix].
  rewrite (get_dem_value_inside dem b lat lon r c Hin Hr Hc).
  unfold np_clip. rewrite !Z.max_l by lia. exact Hget.
Qed.

(** The offset of a point that passed the guard converts to an integer
    that is its floor and lies between [0] and the length of the axis, both
    included. *)
Lemma row_index (dem : ndarray) (b : Bounds) (lat lon : float) :
  wf_bounds b -> 0 < shape0 dem < 2 ^ 53 ->
  in_bounds b lat lon = true ->
  exists r, F64.py_int (row_offset b dem lat) = Ok r /\
            F64.py_floor (row_offset b dem lat) = Ok r /\ 0 <= r <= shape0 dem.
Proof.
  intros (_ & Hsn & _ & Hfy) H0 Hin.
  destruct (in_bounds_inv b lat lon Hin) as (_ & _ & Hs & Hn).
  destruct (offset_from_high _ _ _ (shape0 dem) Hsn Hfy Hs Hn H0)
    as (r & Hi & Hf & _ & Hr).
  now exists r.
Qed.

Lemma col_index (dem : ndarray) (b : Bounds) (lat lon : float) :
  wf_bounds b -> 0 < shape1 dem < 2 ^ 53 ->
  in_bounds b lat lon = true ->
  exists c, F64.py_int (col_offset b dem lon) = Ok c /\
            F64.py_floor (col_offset b dem lon) = Ok c /\ 0 <= c <= shape1 dem.
Proof.
  intros (Hwe & _ & Hfx & _) H1 Hin.
  destruct (in_bounds_inv b lat lon Hin) as (Hw & He & _ & _).
  destruct (offset_from_low _ _ _ (shape1 dem) Hwe Hfx Hw He H1)
    as (c & Hi & Hf & _ & Hc).
  now exists c.
Qed.

(** For a point that passed the guard both offsets floor to integers
    between [0] and the axis length, and the sample is the pixel at those
    indices, each cut to the last index of its axis. *)
Lemma sample_clamped (dem : ndarray) (b : Bounds) (lat lon : float) :
  wf_bounds b -> wf_raster dem -> in_bounds b lat lon = true ->
  exists row col v,
    F64.py_floor (row_offset b dem lat) = Ok row /\
    F64.py_floor (col_offset b dem lon) = Ok col /\
    0 <= row <= shape0 dem /\ 0 <= col <= shape1 dem /\
    get_dem_value lat lon dem b = Ok v /\
    pixel dem (Z.min row (shape0 dem - 1)) (Z.min col (shape1 dem - 1)) = Some v.
Proof.
  intros Hb (Hrect & H0 & H1) Hin.
  destruct (row_index dem b lat lon Hb H0 Hin) as (row & Hri & Hrf & Hr).
  destruct (col_index dem b lat lon Hb H1 Hin) as (col & Hci & Hcf & Hc).
  destruct (sample_at dem b lat lon row col Hrect ltac:(lia) ltac:(lia) Hin
              Hri ltac:(lia) Hci ltac:(lia)) as (v & Hget & Hpix).
  now exists row, col, v.
Qed.

(** The integer offsets at the two ends of each axis. *)
Lemma col_at_west (dem : ndarray) (b : Bounds) :
  wf_bounds b -> wf_raster dem -> F64.py_int (col_offset b dem (west b)) = Ok 0.
Proof.
  intros (Hwe & _ & Hfx & _) (_ & _ & H1).
  destruct (extent_ends_finite _ _ Hfx) as [_ Hw].
  apply offset_at_zero; (assumption || lia).
Qed.

Lemma col_at_east (dem : ndarray) (b : Bounds) :
  wf_bounds b -> wf_raster dem ->
  F64.py_int (col_offset b dem (east b)) = Ok (shape1 dem).
Proof.
  intros (Hwe & _ & Hfx & _) (_ & _ & H1). apply offset_at_one; (assumption || lia).
Qed.

Lemma row_at_north (dem : ndarray) (b : Bounds) :
  wf_bounds b -> wf_raster dem -> F64.py_int (row_offset b dem (north b)) = Ok 0.
Proof.
  intros (_ & Hsn & _ & Hfy) (_ & H0 & _).
  destruct (extent_ends_finite _ _ Hfy) as [Hn _].
  apply offset_at_zero; (assumption || lia).
Qed.

Lemma row_at_south (dem : ndarray) (b : Bounds) :
  wf_bounds b -> wf_raster dem ->
  F64.py_int (row_offset b dem (south b)) = Ok (shape0 dem).
Proof.
  intros (_ & Hsn & _ & Hfy) (_ & H0 & _). apply offset_at_one; (assumption || lia).
Qed.

(** The sample of a guarded point once the integer offset of one axis is
    known. *)
Lemma sample_in_column (dem : ndarray) (b : Bounds) (lat lon : float) (c : Z) :
  wf_bounds b -> wf_raster dem -> in_bounds b lat lon = true ->
  F64.py_int (col_offset b dem lon) = Ok c -> 0 <= c ->
  exists r v, 0 <= r < shape0 dem /\ get_dem_value lat lon dem b = Ok v /\
              pixel dem r (Z.min c (shape1 dem - 1)) = Some v.
Proof.
  intros Hb (Hrect & H0 & H1) Hin Hc Hc0.
  destruct (row_index dem b lat lon Hb H0 Hin) as (row & Hri & _ & Hr).
  destruct (sample_at dem b lat lon row c Hrect ltac:(lia) ltac:(lia) Hin
              Hri ltac:(lia) Hc Hc0) as (v & Hget & Hpix).
  exists (Z.min row (shape0 dem - 1)), v. split; [lia|]. now split.
Qed.

Lemma sample_in_row (dem : ndarray) (b : Bounds) (lat lon : float) (r : Z) :
  wf_bounds b -> wf_raster dem -> in_bounds b lat lon = true ->
  F64.py_int (row_offset b dem lat) = Ok r -> 0 <= r ->
  exists c v, 0 <= c < shape1 dem /\ get_dem_value lat lon dem b = Ok v /\
              pixel dem (Z.min r (shape0 dem - 1)) c = Some v.
Proof.
  intros Hb (Hrect & H0 & H1) Hin Hr Hr0.
  destruct (col_index dem b lat lon Hb H1 Hin) as (col & Hci & _ & Hc).
  destruct (sample_at dem b lat lon r col Hrect ltac:(lia) ltac:(lia) Hin
              Hr Hr0 Hci ltac:(lia)) as (v & Hget & Hpix).
  exists (Z.min col (shape1 dem - 1)), v. split; [lia|]. now split.
Qed.

(** Bounds in degrees are well formed: their extents are at most [360] and
    [180]. *)
Lemma degrees_extent_finite (lo hi lim : float) :
  (lo <? hi)%float = true -> (- lim <=? lo)%float = true -> (hi <=? lim)%float = true ->
  sf_finite (Prim2SF lim) = true ->
  PrimFloat.is_finite (lim - - lim)%float = true ->
  PrimFloat.is_finite (hi - lo)%float = true.
Proof.
  intros Hlt Hlo Hhi Flim Fext.
  pose proof (ltb_leb _ _ Hlt) as Hle.
  rewrite FloatAxioms.ltb_spec in Hlt.
  rewrite !FloatAxioms.leb_spec in *.
  destruct (extent_ends_finite _ _ Fext) as [_ Fneg].
  assert (Flo : sf_finite (Prim2SF lo) = true).
  { eapply SFleb_between_finite; [exact Hlo| |exact Fneg|exact Flim].
    eapply SFleb_trans; eassumption. }
  assert (Fhi : sf_finite (Prim2SF hi) = true).
  { eapply SFleb_between_finite; [|exact Hhi|exact Fneg|exact Flim].
    eapply SFleb_trans; eassumption. }
  rewrite !SFleb_units in Hlo, Hhi, Hle by auto using Prim2SF_valid.
  apply Z.leb_le in Hlo, Hhi, Hle.
  pose proof (SFsub_mono _ _ _ _ (Prim2SF_valid hi) (Prim2SF_valid lo)
                (Prim2SF_valid lim) (Prim2SF_valid (- lim)%float)
                Fhi Flo Flim Fneg ltac:(lia)) as Hmono.
  rewrite is_finite_spec, sub_spec in *. unfold SF64sub in *.
  eapply SFleb_finite_l; [exact Hmono|exact Fext|].
  apply SFsub_nonneg; auto using Prim2SF_valid.
  rewrite SFleb_units by auto using Prim2SF_valid. now apply Z.leb_le.
Qed.

Lemma geographic_wf (b : Bounds) : geographic b -> wf_bounds b.
Proof.
  intros (Hwe & Hsn & Hw & He & Hs & Hn).
  split; [exact Hwe|]. split; [exact Hsn|]. split.
  - now apply (degrees_extent_finite (west b) (east b) 180).
  - now apply (degrees_extent_finite (south b) (north b) 90).
Qed.

End SamplerFacts.

(** * Claims about the samplers *)

Module SamplerSpec.
Import SF SFFacts F64Facts SamplerFacts GwPotential Sample.

(** C2, as amended.  For every point inside well-formed bounds,
    [get_dem_value] is a pure nearest-pixel lookup: with
    [row = floor((north - lat) / (north - south) * num_rows)] and
    [col = floor((lon - west) / (east - west) * num_cols)], computed in
    binary64, [0 <= row <= num_rows] and [0 <= col <= num_cols], and the
    sample is the pixel at [min(row, num_rows - 1)], [min(col, num_cols - 1)],
    which is [grid[row][col]] itself whenever [row] and [col] index the
    array. *)
Theorem get_dem_value_nearest_pixel (dem : ndarray) (b : Bounds) (lat lon : float) :
  wf_bounds b -> wf_raster dem -> in_bounds b lat lon = true ->
  exists row col v,
    F64.py_floor (row_offset b dem lat) = Ok row /\
    F64.py_floor (col_offset b dem lon) = Ok col /\
    0 <= row <= shape0 dem /\ 0 <= col <= shape1 dem /\
    get_dem_value lat lon dem b = Ok v /\
    pixel dem (Z.min row (shape0 dem - 1)) (Z.min col (shape1 dem - 1)) = Some v /\
    (row < shape0 dem -> col < shape1 dem -> pixel dem row col = Some v).
Proof.
  intros Hb Hdem Hin.
  destruct (sample_clamped dem b lat lon Hb Hdem Hin)
    as (row & col & v & Hrow & Hcol & Hr & Hc & Hget & Hpix).
  exists row, col, v. repeat split; try assumption; try lia.
  intros Hr' Hc'. now rewrite !Z.min_l in Hpix by lia.
Qed.

Lemma get_dem_value_nearest_pixel_witness :
  wf_bounds unit_bounds /\ wf_raster grid2x2 /\
  in_bounds unit_bounds 0.5 0.5 = true /\
  exists row col v,
    F64.py_floor (row_offset unit_bounds grid2x2 0.5) = Ok row /\
    F64.py_floor (col_offset unit_bounds grid2x2 0.5) = Ok col /\
    0 <= row <= shape0 grid2x2 /\ 0 <= col <= shape1 grid2x2 /\
    get_dem_value 0.5 0.5 grid2x2 unit_bounds = Ok v /\
    pixel grid2x2 (Z.min row (shape0 grid2x2 - 1)) (Z.min col (shape1 grid2x2 - 1)) = Some v /\
    (row < shape0 grid2x2 -> col < shape1 grid2x2 -> pixel grid2x2 row col = Some v).
Proof.
  assert (Hb : wf_bounds unit_bounds) by (repeat split; reflexivity).
  assert (Hr : wf_raster grid2x2) by (repeat split; repeat constructor).
  split; [exact Hb|]. split; [exact Hr|]. split; [reflexivity|].
  apply (get_dem_value_nearest_pixel grid2x2 unit_bounds 0.5 0.5 Hb Hr).
  reflexivity.
Defined.

(** C2 as stated fails, whichever way the formula is read.  Evaluated in
    binary64 it gives [col = num_cols] on the east edge, and already at the
    last number before it (where [lon - west] rounds to the full extent):
    direct indexing has no such pixel, and the sampler returns the pixel of
    the last column.  Evaluated exactly it gives column [2] for
    [lon = 0.3] on ten columns over [[0, 1]], where the sampler, whose
    product [0.3 * 10] rounds to [3.0], returns the pixel of column [3]. *)
Lemma get_dem_value_unclamped_index_fails :
  (in_bounds unit_bounds 0 1 = true /\
   F64.py_floor (row_offset unit_bounds grid2x2 0) = Ok 1 /\
   F64.py_floor (col_offset unit_bounds grid2x2 1) = Ok 2 /\
   pixel grid2x2 1 2 = None /\
   get_dem_value 0 1 grid2x2 unit_bounds = Ok 22%float) /\
  (strictly_inside unit_bounds 0 0.9999999999999999 = true /\
   F64.py_floor (row_offset unit_bounds grid2x2 0) = Ok 1 /\
   F64.py_floor (col_offset unit_bounds grid2x2 0.9999999999999999) = Ok 2 /\
   pixel grid2x2 1 2 = None /\
   get_dem_value 0 0.9999999999999999 grid2x2 unit_bounds = Ok 22%float) /\
  (strictly_inside unit_square 0.5 0.3 = true /\
   exact_row unit_square strip1x10 0.5 = 0 /\
   exact_col unit_square strip1x10 0.3 = 2 /\
   pixel strip1x10 0 2 = Some 2%float /\
   get_dem_value 0.5 0.3 strip1x10 unit_square = Ok 3%float).
Proof. vm_compute. repeat split; reflexivity. Qed.

(** The four corners of well-formed bounds pass the guard. *)
Lemma corners_in_bounds (b : Bounds) :
  wf_bounds b ->
  in_bounds b (north b) (west b) = true /\ in_bounds b (south b) (east b) = true.
Proof.
  intros (Hwe & Hsn & Hfx & Hfy).
  destruct (extent_ends_finite _ _ Hfx) as [He Hw].
  destruct (extent_ends_finite _ _ Hfy) as [Hn Hs].
  unfold in_bounds.
  rewrite !leb_refl_finite, !ltb_leb by assumption. now split.
Qed.

(** C3.  Outside the inclusive bounds the sample is NaN.  Inside
    well-formed bounds, boundary included, the indices are clamped into the
    array, so the sample is the value of a pixel and never an index error.
    On the west edge that pixel lies in column [0], on the east edge in the
    last column, on the north edge in row [0], on the south edge in the last
    row; the north-west corner samples pixel [(0, 0)] and the south-east
    corner the pixel [(num_rows - 1, num_cols - 1)]. *)
Theorem get_dem_value_bounds_and_clamping (dem : ndarray) (b : Bounds) :
  (forall lat lon, in_bounds b lat lon = false ->
     get_dem_value lat lon dem b = Ok nan) /\
  (wf_bounds b -> wf_raster dem ->
   (forall lat lon, in_bounds b lat lon = true ->
      exists r c v, 0 <= r < shape0 dem /\ 0 <= c < shape1 dem /\
        get_dem_value lat lon dem b = Ok v /\ pixel dem r c = Some v) /\
   (forall lat, in_bounds b lat (west b) = true ->
      exists r v, 0 <= r < shape0 dem /\
        get_dem_value lat (west b) dem b = Ok v /\ pixel dem r 0 = Some v) /\
   (forall lat, in_bounds b lat (east b) = true ->
      exists r v, 0 <= r < shape0 dem /\
        get_dem_value lat (east b) dem b = Ok v /\
        pixel dem r (shape1 dem - 1) = Some v) /\
   (forall lon, in_bounds b (north b) lon = true ->
      exists c v, 0 <= c < shape1 dem /\
        get_dem_value (north b) lon dem b = Ok v /\ pixel dem 0 c = Some v) /\
   (forall lon, in_bounds b (south b) lon = true ->
      exists c v, 0 <= c < shape1 dem /\
        get_dem_value (south b) lon dem b = Ok v /\
        pixel dem (shape0 dem - 1) c = Some v) /\
   (exists v, get_dem_value (north b) (west b) dem b = Ok v /\
              pixel dem 0 0 = Some v) /\
   (exists v, get_dem_value (south b) (east b) dem b = Ok v /\
              pixel dem (shape0 dem - 1) (shape1 dem - 1) = Some v)).
Proof.
  split.
  { intros lat lon Hout. unfold in_bounds in Hout. unfold get_dem_value.
    now rewrite Hout. }
  intros Hb Hdem.
  pose proof Hdem as (Hrect & H0 & H1).
  pose proof (col_at_west dem b Hb Hdem) as Hcw.
  pose proof (col_at_east dem b Hb Hdem) as Hce.
  pose proof (row_at_north dem b Hb Hdem) as Hrn.
  pose proof (row_at_south dem b Hb Hdem) as Hrs.
  destruct (corners_in_bounds b Hb) as [Hnw Hse].
  repeat apply conj.
  - intros lat lon Hin.
    destruct (sample_clamped dem b lat lon Hb Hdem Hin)
      as (row & col & v & _ & _ & Hr & Hc & Hget & Hpix).
    exists (Z.min row (shape0 dem - 1)), (Z.min col (shape1 dem - 1)), v.
    repeat split; try assumption; lia.
  - intros lat Hin.
    destruct (sample_in_column dem b lat _ 0 Hb Hdem Hin Hcw ltac:(lia))
      as (r & v & Hr & Hget & Hpix).
    rewrite Z.min_l in Hpix by lia. now exists r, v.
  - intros lat Hin.
    destruct (sample_in_column dem b lat _ _ Hb Hdem Hin Hce ltac:(lia))
      as (r & v & Hr & Hget & Hpix).
    rewrite Z.min_r in Hpix by lia. now exists r, v.
  - intros lon Hin.
    destruct (sample_in_row dem b _ lon 0 Hb Hdem Hin Hrn ltac:(lia))
      as (c & v & Hc & Hget & Hpix).
    rewrite Z.min_l in Hpix by lia. now exists c, v.
  - intros lon Hin.
    destruct (sample_in_row dem b _ lon _ Hb Hdem Hin Hrs ltac:(lia))
      as (c & v & Hc & Hget & Hpix).
    rewrite Z.min_r in Hpix by lia. now exists c, v.
  - destruct (sample_at dem b _ _ 0 0 Hrect ltac:(lia) ltac:(lia) Hnw
                Hrn ltac:(lia) Hcw ltac:(lia)) as (v & Hget & Hpix).
    rewrite !Z.min_l in Hpix by lia. now exists v.
  - destruct (sample_at dem b _ _ _ _ Hrect ltac:(lia) ltac:(lia) Hse
                Hrs ltac:(lia) Hce ltac:(lia)) as (v & Hget & Hpix).
    rewrite !Z.min_r in Hpix by lia. now exists v.
Qed.

Lemma get_dem_value_bounds_and_clamping_witness :
  wf_bounds unit_bounds /\ wf_raster grid2x2 /\
  in_bounds unit_bounds 0 1.5 = false /\
  get_dem_value 0 1.5 grid2x2 unit_bounds = Ok nan /\
  (exists v, get_dem_value 1 (-1) grid2x2 unit_bounds = Ok v /\
             pixel grid2x2 0 0 = Some v) /\
  (exists v, get_dem_value (-1) 1 grid2x2 unit_bounds = Ok v /\
             pixel grid2x2 1 1 = Some v).
Proof.
  assert (Hb : wf_bounds unit_bounds) by (repeat split; reflexivity).
  assert (Hr : wf_raster grid2x2) by (repeat split; repeat constructor).
  destruct (get_dem_value_bounds_and_clamping grid2x2 unit_bounds)
    as (Hout & Hin).
  destruct (Hin Hb Hr) as (_ & _ & _ & _ & _ & Hnw & Hse).
  split; [exact Hb|]. split; [exact Hr|]. split; [reflexivity|].
  split; [apply Hout; reflexivity|]. split; [exact Hnw | exact Hse].
Defined.

(** C10.  The closure [get_value] of [02_dem_elevation.py] and
    [get_dem_value] of [03_gw_potential.py] return the same result (the same
    float, NaN included, or the same exception) for every raster, every
    bounds and every point; in particular for bounds with [west < east] and
    [south < north]. *)
Theorem get_value_get_dem_value (dem : ndarray) (b : Bounds) (lat lon : float) :
  DemElevation.get_value dem b lat lon = get_dem_value lat lon dem b.
Proof. reflexivity. Qed.

End SamplerSpec.

(** * The dataset computation *)

Module DatasetFacts.
Import GwPotential DatasetSpec.

Lemma mapM_Forall2 {A B} (f : A -> result B) (xs : list A) (ys : list B) :
  mapM f xs = Ok ys -> Forall2 (fun x y => f x = Ok y) xs ys.
Proof.
  revert ys. induction xs as [|x xs IH]; intros ys; cbn [mapM].
  - intros [= <-]. constructor.
  - destruct (f x) as [y|e] eqn:Hy; [|discriminate].
    destruct (mapM f xs) as [ys'|e] eqn:Hys; [|discriminate].
    intros [= <-]. constructor; [exact Hy | now apply IH].
Qed.

Lemma Forall2_mapM {A B} (f : A -> result B) (xs : list A) (ys : list B) :
  Forall2 (fun x y => f x = Ok y) xs ys -> mapM f xs = Ok ys.
Proof.
  induction 1 as [|x y xs ys Hy _ IH]; cbn [mapM]; [reflexivity|].
  now rewrite Hy, IH.
Qed.

(** When nothing raises, the column-wise assignments of the source are the
    row-wise transform [row6_of]. *)
Lemma potential_rows_rowwise dem bounds depth_unit rows out :
  potential_rows dem bounds depth_unit rows = Ok out ->
  Forall2 (fun r o => row6_of dem bounds depth_unit r = Ok o) rows out.
Proof.
  unfold potential_rows.
  destruct (depth_m_column depth_unit rows) as [depth_m|e] eqn:Hd; [|discriminate].
  cbn [mbind result_bind Py.bind].
  destruct (mapM _ rows) as [dem_m|e] eqn:Hdem; [|discriminate].
  cbn [mbind result_bind Py.bind].
  destruct (mapM _ (zip dem_m depth_m)) as [pot|e] eqn:Hpot; [|discriminate].
  cbn [mbind result_bind Py.bind]. intros [= <-].
  apply mapM_Forall2 in Hdem, Hpot.
  assert (Hdep : Forall2 (fun r c =>
            (if String.eqb (lower depth_unit) "ft"
             then mul_cell (r_depth_original r) 0.3048%float
             else Ok (r_depth_original r)) = Ok c) rows depth_m).
  { unfold depth_m_column in Hd. destruct (String.eqb (lower depth_unit) "ft").
    - now apply mapM_Forall2.
    - injection Hd as <-. clear. induction rows; constructor; auto. }
  clear Hd. revert dem_m depth_m pot Hdem Hpot Hdep.
  induction rows as [|r rows IH]; intros dem_m depth_m pot Hdem Hpot Hdep.
  - inversion Hdem; subst. constructor.
  - inversion Hdem as [|? d ? dem_m' Hd1 Hd2]; subst.
    inversion Hdep as [|? c ? depth_m' Hc1 Hc2]; subst.
    cbn [zip zip_with] in Hpot.
    inversion Hpot as [|? q ? pot' Hq1 Hq2]; subst.
    cbn [zip zip_with]. constructor; [|eapply IH; eassumption].
    unfold row6_of. rewrite Hc1. cbn [mbind result_bind Py.bind].
    rewrite Hd1. cbn [mbind result_bind Py.bind].
    cbn [fst snd] in Hq1. rewrite Hq1. reflexivity.
Qed.

Lemma select3_idx df lat_col lon_col depth_col rows :
  select3 df lat_col lon_col depth_col = Ok rows ->
  forall i r, rows !! i = Some r -> r_idx r = i.
Proof.
  unfold select3.
  destruct (getcol df lat_col) as [lats|]; [|discriminate].
  destruct (getcol df lon_col) as [lons|]; [|discriminate].
  destruct (getcol df depth_col) as [depths|]; [|discriminate].
  cbn [mbind result_bind Py.bind]. intros [= <-] i r.
  rewrite list_lookup_imap. destruct (_ !! i); [|discriminate].
  now intros [= <-].
Qed.

Lemma row6_of_fields dem bounds depth_unit r o :
  row6_of dem bounds depth_unit r = Ok o ->
  idx o = r_idx r /\ Lat o = r_lat r /\ Lon o = r_lon r /\
  Depth_original o = r_depth_original r /\
  (exists d, r_depth_original r = CNum d /\
             Depth_m o = if String.eqb (lower depth_unit) "ft"
                         then (d * 0.3048)%float else d) /\
  get_dem_value_cells dem bounds (r_lat r) (r_lon r) = Ok (DEM_m o) /\
  Potential_m o = (DEM_m o - Depth_m o)%float.
Proof.
  unfold row6_of.
  destruct (get_dem_value_cells dem bounds (r_lat r) (r_lon r)) as [dem_m|e] eqn:Hdem.
  - destruct (r_depth_original r) as [d|t] eqn:Hd;
      destruct (String.eqb (lower depth_unit) "ft");
      cbn [mul_cell sub_cell mbind result_bind Py.bind]; try discriminate;
      intros [= <-]; cbn; repeat split; eauto.
  - destruct (String.eqb (lower depth_unit) "ft");
      [destruct (mul_cell _ _)|]; discriminate.
Qed.

Lemma StronglySorted_fmap_filter {A B} (R : relation B) (f : A -> B)
    (P : A -> Prop) `{forall x, Decision (P x)} (l : list A) :
  StronglySorted R (f <$> l) -> StronglySorted R (f <$> filter P l).
Proof.
  induction l as [|x l IH]; [done|].
  rewrite fmap_cons. intros Hs. apply StronglySorted_inv in Hs as [Hs Hx].
  rewrite filter_cons. destruct (decide (P x)); [|auto].
  rewrite fmap_cons. constructor; [auto|].
  rewrite Forall_fmap in Hx |- *. eapply Forall_impl; [|done].
  apply Forall_forall. intros y Hy. apply list_elem_of_filter in Hy as [_ Hy].
  rewrite Forall_forall in Hx. now apply Hx.
Qed.

Lemma StronglySorted_seq (j n : nat) : StronglySorted lt (seq j n).
Proof.
  revert j. induction n as [|n IH]; intros j; cbn [seq]; constructor; [apply IH|].
  apply Forall_seq. intros; lia.
Qed.

Lemma select3_sorted df lat_col lon_col depth_col rows :
  select3 df lat_col lon_col depth_col = Ok rows ->
  StronglySorted lt (r_idx <$> rows).
Proof.
  intros Hsel.
  assert (Heq : r_idx <$> rows = seq 0 (length rows)).
  { apply list_eq. intros i. rewrite list_lookup_fmap.
    destruct (rows !! i) as [r|] eqn:Hr; cbn.
    - rewrite (select3_idx _ _ _ _ _ Hsel i r Hr).
      symmetry. apply lookup_seq. split; [lia|]. eapply lookup_lt_Some, Hr.
    - symmetry. apply lookup_seq_ge. now apply lookup_ge_None. }
  rewrite Heq. apply StronglySorted_seq.
Qed.

(** The heart of C1: the records that survive both [dropna] calls, against
    the rows of the selected columns. *)
Lemma dataset_core df lat_col lon_col depth_col dem bounds depth_unit rows out :
  select3 df lat_col lon_col depth_col = Ok rows ->
  potential_rows dem bounds depth_unit (dropna3 rows) = Ok out ->
  dataset_ok idx Lat Lon Depth_m DEM_m Potential_m dem bounds depth_unit rows
             (dropna6 out).
Proof.
  intros Hsel Hpot. apply potential_rows_rowwise in Hpot.
  assert (Hidx : idx <$> out = r_idx <$> dropna3 rows).
  { clear Hsel. induction Hpot as [|r o rs os Ho _ IH]; [done|].
    rewrite !fmap_cons, IH. f_equal. now apply row6_of_fields in Ho as [-> _]. }
  assert (Hsrc : forall o, o ∈ dropna6 out ->
            exists r, rows !! idx o = Some r /\ r ∈ dropna3 rows /\
                      row6_of dem bounds depth_unit r = Ok o).
  { intros o Ho. apply list_elem_of_filter in Ho as [_ Ho].
    apply list_elem_of_lookup in Ho as [j Hj].
    destruct (Forall2_lookup_r _ _ _ _ _ Hpot Hj) as (r & Hr & Hro).
    exists r. assert (Hin : r ∈ dropna3 rows) by (eapply list_elem_of_lookup_2, Hr).
    split; [|now split].
    pose proof Hin as Hin'. apply list_elem_of_filter in Hin' as [_ Hin'].
    apply list_elem_of_lookup in Hin' as [i Hi].
    apply row6_of_fields in Hro as [-> _].
    now rewrite (select3_idx _ _ _ _ _ Hsel i r Hi). }
  unfold dataset_ok. repeat split.
  - apply Forall_forall. intros o Ho.
    destruct (Hsrc o Ho) as (r & _ & _ & Hro).
    now apply row6_of_fields in Hro.
  - unfold dropna6. apply StronglySorted_fmap_filter. rewrite Hidx.
    unfold dropna3. apply StronglySorted_fmap_filter.
    eapply select3_sorted, Hsel.
  - apply Forall_forall. intros o Ho.
    destruct (Hsrc o Ho) as (r & Hr & _ & Hro). exists r. split; [exact Hr|].
    apply list_elem_of_filter in Ho as [Hna _].
    apply row6_of_fields in Hro as (_ & Hlat & Hlon & _ & Hd & Hdem & Hp).
    repeat (apply orb_false_iff in Hna as [Hna ?]).
    unfold record_of. repeat split; auto.
  - intros i r Hr Hdrop Hin.
    apply list_elem_of_fmap in Hin as (o & -> & Ho).
    destruct (Hsrc o Ho) as (r' & Hr' & Hin' & Hro).
    rewrite Hr in Hr'. injection Hr' as <-.
    apply list_elem_of_filter in Hin' as [Hna3 _].
    apply list_elem_of_filter in Ho as [Hna6 _].
    repeat (apply orb_false_iff in Hna3 as [Hna3 ?]).
    repeat (apply orb_false_iff in Hna6 as [Hna6 ?]).
    apply row6_of_fields in Hro as (_ & _ & _ & _ & _ & Hdem & _).
    destruct Hdrop as [Hd|[Hd|[Hd|Hd]]]; try congruence.
    rewrite Hd in Hdem. injection Hdem as Hdem. rewrite <- Hdem in *. discriminate.
Qed.

Lemma dataset_ok_fmap {R S : Type} (g : R -> S)
    (p_idx : R -> nat) (p_lat p_lon : R -> cell) (p_d p_e p_p : R -> float)
    (q_idx : S -> nat) (q_lat q_lon : S -> cell) (q_d q_e q_p : S -> float)
    dem bounds depth_unit rows (recs : list R) :
  (forall r, q_idx (g r) = p_idx r) -> (forall r, q_lat (g r) = p_lat r) ->
  (forall r, q_lon (g r) = p_lon r) -> (forall r, q_d (g r) = p_d r) ->
  (forall r, q_e (g r) = p_e r) -> (forall r, q_p (g r) = p_p r) ->
  dataset_ok p_idx p_lat p_lon p_d p_e p_p dem bounds depth_unit rows recs ->
  dataset_ok q_idx q_lat q_lon q_d q_e q_p dem bounds depth_unit rows (g <$> recs).
Proof.
  intros Hi Hla Hlo Hd He Hp (H1 & H2 & H3 & H4).
  assert (Hidx : q_idx <$> (g <$> recs) = p_idx <$> recs).
  { rewrite <- list_fmap_compose. apply list_fmap_ext. intros; apply Hi. }
  unfold dataset_ok. rewrite Hidx, !Forall_fmap. repeat split; try assumption.
  - eapply Forall_impl; [exact H1|]. intros r Hr. cbn. now rewrite Hp, He, Hd.
  - eapply Forall_impl; [exact H3|]. intros r Hr. cbn.
    now rewrite Hi, Hla, Hlo, Hd, He, Hp.
Qed.

(** What a successful run went through. *)
Lemma calculate_potential_inv df fetched depth_col depth_unit lat_col lon_col recs rep :
  calculate_potential df fetched depth_col depth_unit lat_col lon_col = Ok (recs, rep) ->
  exists dem bounds dcol rows out,
    fetched = Ok (dem, bounds) /\
    select3 df lat_col lon_col dcol = Ok rows /\
    potential_rows dem bounds depth_unit (dropna3 rows) = Ok out /\
    recs = dropna6 out /\ depth_column rep = dcol /\
    total_points rep = length recs.
Proof.
  unfold calculate_potential.
  destruct (match depth_col with Some c => Ok c | None => _ end) as [dcol|];
    [|discriminate].
  cbn [mbind result_bind Py.bind].
  destruct fetched as [[dem bounds]|]; [|discriminate].
  cbn [mbind result_bind Py.bind].
  destruct (select3 df lat_col lon_col dcol) as [rows|] eqn:Hsel; [|discriminate].
  cbn [mbind result_bind Py.bind].
  destruct (potential_rows _ _ _ _) as [out|] eqn:Hout; [|discriminate].
  cbn [mbind result_bind Py.bind]. intros [= <- <-].
  exists dem, bounds, dcol, rows, out. repeat split; assumption || reflexivity.
Qed.

Lemma create_potential_dataset_inv df fetched depth_col depth_unit lat_col lon_col recs rep :
  create_potential_dataset df fetched depth_col depth_unit lat_col lon_col = Ok (recs, rep) ->
  exists dem bounds dcol rows out,
    fetched = Ok (dem, bounds) /\
    select3 df lat_col lon_col dcol = Ok rows /\
    potential_rows dem bounds depth_unit (dropna3 rows) = Ok out /\
    recs = final_columns <$> dropna6 out /\ depth_column rep = dcol /\
    total_points rep = length recs.
Proof.
  unfold create_potential_dataset.
  destruct (match depth_col with Some c => Ok c | None => _ end) as [dcol|];
    [|discriminate].
  cbn [mbind result_bind Py.bind].
  destruct fetched as [[dem bounds]|]; [|discriminate].
  cbn [mbind result_bind Py.bind].
  destruct (select3 df lat_col lon_col dcol) as [rows|] eqn:Hsel; [|discriminate].
  cbn [mbind result_bind Py.bind].
  destruct (potential_rows _ _ _ _) as [out|] eqn:Hout; [|discriminate].
  cbn [mbind result_bind Py.bind]. intros [= <- <-].
  exists dem, bounds, dcol, rows, out. repeat split; assumption || reflexivity.
Qed.

End DatasetFacts.

(** * Claims about the dataset computation *)

Module DatasetClaims.
Import GwPotential DatasetSpec DatasetFacts Sample.

(** C1.  Whenever [calculate_potential] or [create_potential_dataset]
    produces records, every record satisfies
    [Potential_m = DEM_m - Depth_m] as a binary64 subtraction of the two
    stored fields; the records carry strictly increasing input indices, so
    they stand in the order of the input rows with nothing in place of a
    dropped row; each one is computed from the input row of its index; and
    no record exists for a row with a missing latitude, longitude or depth
    or with a NaN elevation ([dataset_ok]). *)
Theorem potential_records_invariant_and_order
    (df : DataFrame) (fetched : result (ndarray * Bounds))
    (depth_col : option string) (depth_unit lat_col lon_col : string) :
  (forall recs rep,
     calculate_potential df fetched depth_col depth_unit lat_col lon_col = Ok (recs, rep) ->
     exists dem bounds rows,
       fetched = Ok (dem, bounds) /\
       select3 df lat_col lon_col (depth_column rep) = Ok rows /\
       dataset_ok idx Lat Lon Depth_m DEM_m Potential_m
                  dem bounds depth_unit rows recs) /\
  (forall recs rep,
     create_potential_dataset df fetched depth_col depth_unit lat_col lon_col = Ok (recs, rep) ->
     exists dem bounds rows,
       fetched = Ok (dem, bounds) /\
       select3 df lat_col lon_col (depth_column rep) = Ok rows /\
       dataset_ok idx5 Lat5 Lon5 Depth_m5 DEM_m5 Potential_m5
                  dem bounds depth_unit rows recs).
Proof.
  split; intros recs rep Hrun.
  - apply calculate_potential_inv in Hrun
      as (dem & bounds & dcol & rows & out & Hf & Hsel & Hout & -> & <- & _).
    exists dem, bounds, rows. split; [exact Hf|]. split; [exact Hsel|].
    eapply dataset_core; eassumption.
  - apply create_potential_dataset_inv in Hrun
      as (dem & bounds & dcol & rows & out & Hf & Hsel & Hout & -> & <- & _).
    exists dem, bounds, rows. split; [exact Hf|]. split; [exact Hsel|].
    eapply (dataset_ok_fmap final_columns idx Lat Lon Depth_m DEM_m Potential_m);
      try reflexivity.
    eapply dataset_core; eassumption.
Qed.

Lemma potential_records_invariant_and_order_witness :
  exists recs rep,
    create_potential_dataset wells (Ok (grid2x2, unit_bounds)) None "ft" "Lat" "Lon"
    = Ok (recs, rep) /\
    idx5 <$> recs = [0; 3]%nat /\
    exists dem bounds rows,
      Ok (grid2x2, unit_bounds) = Ok (dem, bounds) /\
      select3 wells "Lat" "Lon" (depth_column rep) = Ok rows /\
      dataset_ok idx5 Lat5 Lon5 Depth_m5 DEM_m5 Potential_m5
                 dem bounds "ft" rows recs.
Proof.
  destruct (create_potential_dataset wells (Ok (grid2x2, unit_bounds)) None "ft" "Lat" "Lon")
    as [[recs rep]|e] eqn:Hrun; [|discriminate Hrun].
  exists recs, rep. split; [reflexivity|]. split.
  - vm_compute in Hrun. injection Hrun as <- _. reflexivity.
  - destruct (potential_records_invariant_and_order wells (Ok (grid2x2, unit_bounds))
                None "ft" "Lat" "Lon") as [_ H].
    exact (H recs rep Hrun).
Defined.

(** C5, as amended.  A depth unit that reads [ft] in any letter case
    multiplies every depth by 0.3048; every other unit string, [m] included,
    leaves the depths unchanged, and no unit string makes the conversion
    fail. *)
Theorem depth_unit_conversion (rows : list row3) :
  Forall (fun r => exists d, r_depth_original r = CNum d) rows ->
  depth_m_column "ft" rows = Ok (feet_to_m <$> rows) /\
  depth_m_column "m" rows = Ok (r_depth_original <$> rows) /\
  (forall depth_unit, lower depth_unit = "ft"%string ->
     depth_m_column depth_unit rows = Ok (feet_to_m <$> rows)) /\
  (forall depth_unit, lower depth_unit <> "ft"%string ->
     depth_m_column depth_unit rows = Ok (r_depth_original <$> rows)).
Proof.
  intros Hnum.
  assert (Hft : forall depth_unit, lower depth_unit = "ft"%string ->
            depth_m_column depth_unit rows = Ok (feet_to_m <$> rows)).
  { intros u Hu. unfold depth_m_column. rewrite Hu. cbn [String.eqb Ascii.eqb].
    change (String.eqb "ft" "ft") with true. cbv iota.
    apply Forall2_mapM. apply Forall2_fmap_r, Forall_Forall2_diag.
    eapply Forall_impl; [exact Hnum|]. intros r [d Hd].
    unfold compose, feet_to_m. now rewrite Hd. }
  assert (Hother : forall depth_unit, lower depth_unit <> "ft"%string ->
            depth_m_column depth_unit rows = Ok (r_depth_original <$> rows)).
  { intros u Hu. unfold depth_m_column.
    destruct (String.eqb_spec (lower u) "ft") as [E|_]; [contradiction|reflexivity]. }
  split; [now apply Hft|]. split; [now apply Hother|]. now split.
Qed.

Lemma depth_unit_conversion_witness :
  Forall (fun r => exists d, r_depth_original r = CNum d) two_rows /\
  depth_m_column "ft" two_rows = Ok (feet_to_m <$> two_rows) /\
  depth_m_column "m" two_rows = Ok (r_depth_original <$> two_rows) /\
  lower "Ft" = "ft"%string /\
  depth_m_column "Ft" two_rows = Ok (feet_to_m <$> two_rows) /\
  lower "cm" <> "ft"%string /\
  depth_m_column "cm" two_rows = Ok (r_depth_original <$> two_rows).
Proof.
  assert (Hnum : Forall (fun r => exists d, r_depth_original r = CNum d) two_rows)
    by (repeat constructor; eexists; reflexivity).
  destruct (depth_unit_conversion two_rows Hnum) as (Hft & Hm & Hany & Hother).
  split; [exact Hnum|]. split; [exact Hft|]. split; [exact Hm|].
  split; [reflexivity|]. split; [apply Hany; reflexivity|].
  assert (Hne : lower "cm" <> "ft"%string) by discriminate.
  split; [exact Hne | apply Hother, Hne].
Defined.

(** C5 as stated fails: a unit that is neither feet nor meters is no error;
    the depths pass through unchanged and the dataset is built. *)
Lemma unknown_unit_is_not_an_error :
  depth_m_column "yd" two_rows = Ok [CNum 10; CNum 20]%float /\
  (exists recs rep,
     create_potential_dataset wells (Ok (grid2x2, unit_bounds)) None "yd" "Lat" "Lon"
     = Ok (recs, rep) /\ Depth_m5 <$> recs = [10; 40]%float).
Proof.
  split; [reflexivity|].
  destruct (create_potential_dataset wells (Ok (grid2x2, unit_bounds)) None "yd" "Lat" "Lon")
    as [[recs rep]|e] eqn:Hrun; [|discriminate Hrun].
  exists recs, rep. split; [reflexivity|].
  vm_compute in Hrun. injection Hrun as <- _. reflexivity.
Qed.

(** C6, the code at the failing input.  With the later date first in the
    file, inference returns the earlier date: [date_cols[-1]] is the last
    date-like label in file order.  Any ten-character label with a hyphen
    counts as date-like. *)
Theorem infer_depth_col_takes_last_in_file_order :
  columns wells = ["Lat"; "Lon"; "Site"; "2023-06-20"; "2023-01-15"]%string /\
  infer_depth_col wells "Lat" "Lon" = Ok "2023-01-15"%string /\
  (forall df lat_col lon_col c,
     last (date_cols df) = Some c -> infer_depth_col df lat_col lon_col = Ok c) /\
  is_date_col "Well-Depth" = true.
Proof.
  split; [reflexivity|]. split; [reflexivity|]. split; [|reflexivity].
  intros df lat_col lon_col c Hc. unfold infer_depth_col. now rewrite Hc.
Qed.

(** C7.  When no label is date-like and no numeric column lies outside the
    reserved [lat_col], [lon_col] and [Site], both entry points fail with
    the IndexError of [[...][0]] (the column-inference error), whatever the
    raster fetch would have given and whatever the rows hold: nothing is
    computed. *)
Theorem no_candidate_column_fails
    (df : DataFrame) (fetched : result (ndarray * Bounds))
    (depth_unit lat_col lon_col : string) :
  date_cols df = [] ->
  filter (fun c => c ∉ [lat_col; lon_col; "Site"%string]) (numeric_columns df) = [] ->
  infer_depth_col df lat_col lon_col = Raise IndexError /\
  calculate_potential df fetched None depth_unit lat_col lon_col = Raise IndexError /\
  create_potential_dataset df fetched None depth_unit lat_col lon_col = Raise IndexError.
Proof.
  intros Hdate Hnum.
  assert (Hinf : infer_depth_col df lat_col lon_col = Raise IndexError).
  { unfold infer_depth_col. now rewrite Hdate, Hnum. }
  unfold calculate_potential, create_potential_dataset. now rewrite Hinf.
Qed.

Lemma no_candidate_column_fails_witness :
  date_cols no_depth = [] /\
  filter (fun c => c ∉ ["Lat"; "Lon"; "Site"]%string) (numeric_columns no_depth) = [] /\
  infer_depth_col no_depth "Lat" "Lon" = Raise IndexError /\
  calculate_potential no_depth (Ok (grid2x2, unit_bounds)) None "ft" "Lat" "Lon"
  = Raise IndexError /\
  create_potential_dataset no_depth (Ok (grid2x2, unit_bounds)) None "ft" "Lat" "Lon"
  = Raise IndexError.
Proof.
  split; [reflexivity|]. split; [reflexivity|].
  apply (no_candidate_column_fails no_depth (Ok (grid2x2, unit_bounds)) "ft" "Lat" "Lon");
    reflexivity.
Defined.

(** C8, the code at the failing input.  One complete well outside the
    raster: both entry points succeed with no record, and every statistic
    is the float NaN, which [json.dumps] writes as the token [NaN]; the
    guarded sibling [get_dem_at_points] reports [null] on the same table.
    The same holds whenever no record survives. *)
Theorem zero_survivors_report_nan :
  (exists rep,
     create_potential_dataset far_well (Ok (grid2x2, unit_bounds)) None "ft" "Lat" "Lon"
     = Ok ([], rep) /\
     total_points rep = 0%nat /\ stats_depth_m rep = nan_stats /\
     stats_dem_m rep = nan_stats /\ stats_potential_m rep = nan_stats) /\
  (exists rep,
     calculate_potential far_well (Ok (grid2x2, unit_bounds)) None "ft" "Lat" "Lon"
     = Ok ([], rep) /\
     total_points rep = 0%nat /\ stats_depth_m rep = nan_stats /\
     stats_dem_m rep = nan_stats /\ stats_potential_m rep = nan_stats) /\
  (exists rep,
     DemElevation.get_dem_at_points (Ok (grid2x2, unit_bounds)) far_well "Lat" "Lon"
     = Ok rep /\
     DemElevation.dp_points_with_dem rep = 0%nat /\
     DemElevation.dp_min rep = JNull /\ DemElevation.dp_max rep = JNull /\
     DemElevation.dp_mean rep = JNull) /\
  (forall df fetched depth_col depth_unit lat_col lon_col rep,
     create_potential_dataset df fetched depth_col depth_unit lat_col lon_col
     = Ok ([], rep) ->
     stats_depth_m rep = nan_stats /\ stats_dem_m rep = nan_stats /\
     stats_potential_m rep = nan_stats).
Proof.
  split; [|split; [|split]].
  - eexists. split; [vm_compute; reflexivity|]. repeat split.
  - eexists. split; [vm_compute; reflexivity|]. repeat split.
  - eexists. split; [vm_compute; reflexivity|]. repeat split.
  - intros df fetched depth_col depth_unit lat_col lon_col rep Hrun.
    pose proof Hrun as Hinv.
    apply create_potential_dataset_inv in Hinv
      as (dem & bounds & dcol & rows & out & _ & _ & _ & Hrecs & _ & _).
    unfold create_potential_dataset in Hrun.
    destruct (match depth_col with Some c => Ok c | None => _ end); [|discriminate].
    cbn [mbind result_bind Py.bind] in Hrun.
    destruct fetched as [[dem' bounds']|]; [|discriminate].
    cbn [mbind result_bind Py.bind] in Hrun.
    destruct (select3 _ _ _ _); [|discriminate].
    cbn [mbind result_bind Py.bind] in Hrun.
    destruct (potential_rows _ _ _ _); [|discriminate].
    cbn [mbind result_bind Py.bind] in Hrun.
    injection Hrun as Hnil <-. rewrite Hnil. cbn. repeat split.
Qed.

End DatasetClaims.

(** * The percentile classifier *)

Module ClassifierFacts.
Import MapService SamplerFacts.

Section Generic.
Context {V : Type} `{PyOrd V}.
Implicit Types (depth : V) (valid : list (Z * V)).

Lemma axis_index_nat {A} (xs : list A) (i : nat) (x : A) :
  xs !! i = Some x -> axis_index xs (Z.of_nat i) = Ok x.
Proof.
  intros Hx. pose proof (lookup_lt_Some _ _ _ Hx) as Hlt.
  destruct (axis_index_in_range xs (Z.of_nat i) ltac:(lia)) as (y & -> & Hy).
  rewrite Nat2Z.id in Hy. congruence.
Qed.

Lemma axis_index_head {A} (xs : list A) (x : A) :
  xs !! 0%nat = Some x -> axis_index xs 0 = Ok x.
Proof. apply (axis_index_nat xs 0). Qed.

Lemma axis_index_last {A} (xs : list A) (x : A) :
  last xs = Some x -> axis_index xs (-1) = Ok x.
Proof.
  rewrite last_lookup. intros Hx. pose proof (lookup_lt_Some _ _ _ Hx) as Hlt.
  unfold axis_index. cbn [Z.leb Z.compare andb].
  replace ((- Z.of_nat (length xs) <=? -1) && (-1 <? 0)) with true.
  - replace (Z.to_nat (-1 + Z.of_nat (length xs))) with (pred (length xs)) by lia.
    now rewrite Hx.
  - symmetry. apply andb_true_iff. split; [apply Z.leb_le; lia | reflexivity].
Qed.

(** The loop raises nothing while its indices stay inside [valid], and
    returns the class of the first bracketing pair of its range. *)
Lemma interval_loop_find depth valid (range : list nat) :
  Forall (fun i => (S i < length valid)%nat) range ->
  interval_loop depth valid range
  = Ok (i ← List.find (bracket_at depth valid) range; class_at valid i).
Proof.
  induction 1 as [|i range Hi _ IH]; [reflexivity|].
  destruct (lookup_lt_is_Some_2 valid i ltac:(lia)) as [[p1 v1] H1].
  destruct (lookup_lt_is_Some_2 valid (S i) Hi) as [[p2 v2] H2].
  cbn [interval_loop List.find]. unfold bracket_at at 1. rewrite H1, H2.
  rewrite (axis_index_nat valid i _ H1).
  replace (Z.of_nat i + 1) with (Z.of_nat (S i)) by lia.
  rewrite (axis_index_nat valid (S i) _ H2).
  cbn [mbind result_bind Py.bind].
  destruct (py_le v2 depth && py_le depth v1); [|exact IH].
  cbn [mbind option_bind]. unfold class_at. now rewrite H1, H2.
Qed.

Lemma find_seq_first (f : nat -> bool) (k n i : nat) :
  (k <= i < k + n)%nat -> f i = true -> (forall j, (k <= j < i)%nat -> f j = false) ->
  List.find f (seq k n) = Some i.
Proof.
  revert k. induction n as [|n IH]; intros k Hi Hf Hbefore; [lia|].
  cbn [seq List.find]. destruct (decide (k = i)) as [->|Hne].
  - now rewrite Hf.
  - rewrite (Hbefore k) by lia. apply IH; [lia|exact Hf|].
    intros j Hj. apply Hbefore. lia.
Qed.

Lemma find_seq_none (f : nat -> bool) (k n : nat) :
  (forall j, f j = false) -> List.find f (seq k n) = None.
Proof.
  intros Hf. revert k. induction n as [|n IH]; intros k; [reflexivity|].
  cbn [seq List.find]. now rewrite Hf.
Qed.

Lemma range_in_valid valid :
  Forall (fun i => (S i < length valid)%nat) (seq 0 (length valid - 1)).
Proof. apply Forall_seq. intros; lia. Qed.

Lemma classify_valid_unfold depth valid :
  (2 <= length valid)%nat ->
  classify_valid depth valid
  = match i ← List.find (bracket_at depth valid) (seq 0 (length valid - 1));
          class_at valid i with
    | Some (label, rank) => Ok (Some label, Some rank)
    | None =>
        first ← axis_index valid 0;
        if py_lt first.2 depth
        then Ok (Some ("<" +:+ str_of_int first.1), Some 0)
        else
          final ← axis_index valid (-1);
          if py_lt depth final.2
          then Ok (Some (">" +:+ str_of_int final.1), Some 100)
          else Ok (None, None)
    end.
Proof.
  intros Hlen. unfold classify_valid.
  replace (Z.of_nat (length valid) <? 2) with false
    by (symmetry; apply Z.ltb_ge; lia).
  now rewrite (interval_loop_find depth valid _ (range_in_valid valid)).
Qed.

(** The value lies in the pair [i], [i + 1] and in no earlier pair. *)
Lemma classify_valid_bracket depth valid i p1 v1 p2 v2 :
  valid !! i = Some (p1, v1) -> valid !! S i = Some (p2, v2) ->
  py_le v2 depth = true -> py_le depth v1 = true ->
  (forall j, (j < i)%nat -> bracket_at depth valid j = false) ->
  classify_valid depth valid
  = Ok (Some (str_of_int p1 +:+ "-" +:+ str_of_int p2), Some ((p1 + p2) / 2)).
Proof.
  intros H1 H2 Hlo Hhi Hfirst.
  pose proof (lookup_lt_Some _ _ _ H2) as Hlen.
  rewrite classify_valid_unfold by lia.
  rewrite (find_seq_first _ 0 _ i); [| lia | | intros; apply Hfirst; lia].
  - cbn [mbind option_bind]. unfold class_at. now rewrite H1, H2.
  - unfold bracket_at. now rewrite H1, H2, Hlo, Hhi.
Qed.

Lemma classify_valid_above depth valid p0 v0 :
  (2 <= length valid)%nat -> head valid = Some (p0, v0) ->
  (forall j, bracket_at depth valid j = false) ->
  py_lt v0 depth = true ->
  classify_valid depth valid = Ok (Some ("<" +:+ str_of_int p0), Some 0).
Proof.
  intros Hlen Hhead Hnone Hgt.
  rewrite classify_valid_unfold, find_seq_none by assumption.
  rewrite head_lookup in Hhead. cbn [mbind option_bind].
  rewrite (axis_index_head valid _ Hhead). cbn [mbind result_bind Py.bind snd fst].
  now rewrite Hgt.
Qed.

Lemma classify_valid_below depth valid p0 v0 pn vn :
  (2 <= length valid)%nat -> head valid = Some (p0, v0) -> last valid = Some (pn, vn) ->
  (forall j, bracket_at depth valid j = false) ->
  py_lt v0 depth = false -> py_lt depth vn = true ->
  classify_valid depth valid = Ok (Some (">" +:+ str_of_int pn), Some 100).
Proof.
  intros Hlen Hhead Hlast Hnone Hngt Hlt.
  rewrite classify_valid_unfold, find_seq_none by assumption.
  rewrite head_lookup in Hhead. cbn [mbind option_bind].
  rewrite (axis_index_head valid _ Hhead). cbn [mbind result_bind Py.bind snd fst].
  rewrite Hngt, (axis_index_last valid _ Hlast).
  cbn [mbind result_bind Py.bind snd fst]. now rewrite Hlt.
Qed.

Lemma classify_valid_neither depth valid p0 v0 pn vn :
  (2 <= length valid)%nat -> head valid = Some (p0, v0) -> last valid = Some (pn, vn) ->
  (forall j, bracket_at depth valid j = false) ->
  py_lt v0 depth = false -> py_lt depth vn = false ->
  classify_valid depth valid = Ok (None, None).
Proof.
  intros Hlen Hhead Hlast Hnone Hngt Hnlt.
  rewrite classify_valid_unfold, find_seq_none by assumption.
  rewrite head_lookup in Hhead. cbn [mbind option_bind].
  rewrite (axis_index_head valid _ Hhead). cbn [mbind result_bind Py.bind snd fst].
  rewrite Hngt, (axis_index_last valid _ Hlast).
  cbn [mbind result_bind Py.bind snd fst]. now rewrite Hnlt.
Qed.

(** No exception leaves the classifier. *)
Lemma classify_valid_total depth valid :
  exists r, classify_valid depth valid = Ok r.
Proof.
  destruct (decide (2 <= length valid)%nat) as [Hlen|Hlen].
  - rewrite classify_valid_unfold by assumption.
    destruct (_ ≫= _) as [[label rank]|]; [eauto|].
    destruct (lookup_lt_is_Some_2 valid 0 ltac:(lia)) as [x0 H0].
    rewrite (axis_index_head valid _ H0). cbn [mbind result_bind Py.bind].
    destruct (py_lt _ _); [eauto|].
    destruct (last valid) as [xn|] eqn:Hn.
    + rewrite (axis_index_last valid _ Hn). cbn [mbind result_bind Py.bind].
      destruct (py_lt _ _); eauto.
    + apply last_None in Hn. subst valid. cbn in Hlen. lia.
  - unfold classify_valid.
    replace (Z.of_nat (length valid) <? 2) with true
      by (symmetry; apply Z.ltb_lt; lia).
    eauto.
Qed.

End Generic.

(** binary64 comparisons and integer comparisons obey the laws. *)
#[global] Instance float_PyOrdLaws : PyOrdLaws float.
Proof.
  split; cbn [py_le py_lt float_PyOrd]; intros *;
    rewrite ?FloatAxioms.leb_spec, ?FloatAxioms.ltb_spec.
  - apply SFFacts.SFleb_trans.
  - apply SFFacts.SFltb_leb.
  - apply SFFacts.SFltb_not_leb.
Qed.

#[global] Instance int_PyOrdLaws : PyOrdLaws Z.
Proof.
  split; cbn [py_le py_lt int_PyOrd]; intros *;
    rewrite ?Z.leb_le, ?Z.ltb_lt, ?Z.leb_gt; lia.
Qed.

Section Monotone.
Context {V : Type} `{PyOrdLaws V}.
Implicit Types (depth : V) (valid : list (Z * V)).

Lemma non_increasing_le_head p0 v0 (rest : list (Z * V)) i p v :
  non_increasing ((p0, v0) :: rest) = true -> rest !! i = Some (p, v) ->
  py_le v v0 = true.
Proof.
  revert p0 v0 i. induction rest as [|[p1 v1] rest IH]; intros p0 v0 i; [done|].
  cbn [non_increasing]. intros [H01 Hrest]%andb_true_iff.
  destruct i as [|i]; cbn; [now intros [= -> ->]|].
  intros Hi. eapply py_le_trans; [|exact H01]. exact (IH p1 v1 i Hrest Hi).
Qed.

Lemma non_increasing_last_le valid i p v pn vn :
  non_increasing valid = true -> last valid = Some (pn, vn) ->
  valid !! i = Some (p, v) -> (S i < length valid)%nat ->
  py_le vn v = true.
Proof.
  revert i. induction valid as [|[p0 v0] rest IH]; intros i Hmono Hlast Hi Hlen; [done|].
  destruct rest as [|[p1 v1] rest']; [cbn in Hlen; lia|].
  rewrite last_cons_cons in Hlast.
  pose proof Hmono as Hmono'. cbn [non_increasing] in Hmono'.
  apply andb_true_iff in Hmono' as [H01 Hrest].
  destruct i as [|i].
  - injection Hi as -> ->.
    rewrite last_lookup in Hlast.
    exact (non_increasing_le_head _ _ _ _ _ _ Hmono Hlast).
  - apply (IH i); [assumption|assumption|exact Hi|cbn [length] in *; lia].
Qed.

(** In a non-increasing table a value above the first anchor, or below the
    last, lies in no bracket. *)
Lemma above_first_no_bracket depth valid p0 v0 :
  non_increasing valid = true -> head valid = Some (p0, v0) ->
  py_lt v0 depth = true -> forall j, bracket_at depth valid j = false.
Proof.
  intros Hmono Hhead Hgt j. apply py_lt_not_le in Hgt.
  destruct valid as [|[q0 w0] rest]; [done|]. injection Hhead as -> ->.
  unfold bracket_at.
  destruct (_ !! j) as [[p1 v1]|] eqn:H1; [|done].
  destruct (_ !! S j) as [[p2 v2]|]; [|done].
  apply andb_false_iff. right.
  destruct (py_le depth v1) eqn:Hle; [|done].
  destruct j as [|j]; [cbn in H1; congruence|].
  cbn in H1. rewrite <- Hgt. symmetry.
  eapply py_le_trans; [exact Hle|].
  eapply non_increasing_le_head; eassumption.
Qed.

Lemma below_last_no_bracket depth valid pn vn :
  non_increasing valid = true -> last valid = Some (pn, vn) ->
  py_lt depth vn = true -> forall j, bracket_at depth valid j = false.
Proof.
  intros Hmono Hlast Hlt j. apply py_lt_not_le in Hlt.
  unfold bracket_at.
  destruct (valid !! j) as [[p1 v1]|] eqn:H1; [|done].
  destruct (valid !! S j) as [[p2 v2]|] eqn:H2; [|done].
  apply andb_false_iff. left.
  destruct (py_le v2 depth) eqn:Hle; [|done].
  pose proof (lookup_lt_Some _ _ _ H2) as Hlen.
  destruct (decide (S (S j) < length valid)%nat) as [Hin|Hout].
  - rewrite <- Hlt. symmetry. eapply py_le_trans; [|exact Hle].
    eapply non_increasing_last_le; eassumption.
  - rewrite last_lookup in Hlast.
    replace (pred (length valid)) with (S j) in Hlast by lia. congruence.
Qed.

Lemma below_last_not_above depth valid p0 v0 pn vn :
  (2 <= length valid)%nat -> non_increasing valid = true ->
  head valid = Some (p0, v0) -> last valid = Some (pn, vn) ->
  py_lt depth vn = true -> py_lt v0 depth = false.
Proof.
  intros Hlen Hmono Hhead Hlast Hlt.
  destruct (py_lt v0 depth) eqn:Hgt; [|done].
  apply py_lt_le in Hgt. apply py_lt_not_le in Hlt.
  rewrite head_lookup in Hhead.
  rewrite <- Hlt. symmetry. eapply py_le_trans; [|exact Hgt].
  eapply non_increasing_last_le; eassumption || lia.
Qed.

End Monotone.
End ClassifierFacts.

(** * Claims about the classifier *)

Module ClassifierClaims.
Import MapService ClassifierFacts Sample.

(** C4, as amended.  With at least two non-null anchors: when the value
    lies in a pair of adjacent anchors ([v2 <= value <= v1]) and in no
    earlier pair, the class is ["p1-p2"] with rank [(p1 + p2) // 2] (a value
    equal to a shared anchor value belongs to the earlier pair); when it
    lies in no pair and exceeds the first anchor's value, the class is
    ["<p0"] with rank 0; when it lies in no pair, does not exceed the first
    value and is below the last anchor's value, the class is [">pn"] with
    rank 100.  In a table whose values do not increase with the rank, a
    value above the first anchor or below the last one lies in no pair, so
    the two edge classes follow from the comparison alone. *)
Theorem percentile_class_brackets {V : Type} `{PyOrd V}
    (depth : V) (pct_data : gmap string (option V)) :
  let valid := valid_of (boundaries pct_data) in
  (2 <= length valid)%nat ->
  (forall i p1 v1 p2 v2,
     valid !! i = Some (p1, v1) -> valid !! S i = Some (p2, v2) ->
     py_le v2 depth = true -> py_le depth v1 = true ->
     (forall j, (j < i)%nat -> bracket_at depth valid j = false) ->
     calculate_percentile_class (Some depth) pct_data
     = Ok (Some (str_of_int p1 +:+ "-" +:+ str_of_int p2), Some ((p1 + p2) / 2))) /\
  (forall p0 v0,
     head valid = Some (p0, v0) ->
     (forall j, bracket_at depth valid j = false) -> py_lt v0 depth = true ->
     calculate_percentile_class (Some depth) pct_data
     = Ok (Some ("<" +:+ str_of_int p0), Some 0)) /\
  (forall p0 v0 pn vn,
     head valid = Some (p0, v0) -> last valid = Some (pn, vn) ->
     (forall j, bracket_at depth valid j = false) ->
     py_lt v0 depth = false -> py_lt depth vn = true ->
     calculate_percentile_class (Some depth) pct_data
     = Ok (Some (">" +:+ str_of_int pn), Some 100)) /\
  (PyOrdLaws V -> non_increasing valid = true ->
   (forall p0 v0,
      head valid = Some (p0, v0) -> py_lt v0 depth = true ->
      calculate_percentile_class (Some depth) pct_data
      = Ok (Some ("<" +:+ str_of_int p0), Some 0)) /\
   (forall pn vn,
      last valid = Some (pn, vn) -> py_lt depth vn = true ->
      calculate_percentile_class (Some depth) pct_data
      = Ok (Some (">" +:+ str_of_int pn), Some 100))).
Proof.
  intros valid Hlen. cbn [calculate_percentile_class]. fold valid.
  split; [|split; [|split]].
  - intros. eapply classify_valid_bracket; eassumption.
  - intros. eapply classify_valid_above; eassumption.
  - intros. eapply classify_valid_below; eassumption.
  - intros Hlaws Hmono. split.
    + intros p0 v0 Hhead Hgt.
      eapply classify_valid_above; try eassumption.
      eapply above_first_no_bracket; eassumption.
    + intros pn vn Hlast Hlt.
      destruct (head valid) as [[p0 v0]|] eqn:Hhead.
      * eapply classify_valid_below; try eassumption; try reflexivity.
        -- eapply below_last_no_bracket; eassumption.
        -- eapply below_last_not_above; eassumption.
      * apply head_None in Hhead. rewrite Hhead in Hlen. cbn in Hlen. lia.
Qed.

Lemma percentile_class_brackets_witness :
  (2 <= length (valid_of (boundaries boundary)))%nat /\
  non_increasing (valid_of (boundaries boundary)) = true /\
  calculate_percentile_class (Some 15%float) boundary = Ok (Some "25-50"%string, Some 37) /\
  calculate_percentile_class (Some 45%float) boundary = Ok (Some "<0"%string, Some 0) /\
  calculate_percentile_class (Some 1%float) boundary = Ok (Some ">100"%string, Some 100).
Proof.
  assert (Hlen : (2 <= length (valid_of (boundaries boundary)))%nat)
    by (vm_compute; lia).
  assert (Hmono : non_increasing (valid_of (boundaries boundary)) = true)
    by (vm_compute; reflexivity).
  split; [exact Hlen|]. split; [exact Hmono|]. split; [|split].
  - destruct (percentile_class_brackets 15%float boundary Hlen) as (Hin & _).
    apply (Hin 2%nat 25 18%float 50 12%float); try (vm_compute; reflexivity).
    intros [|[|j]] Hj; try (vm_compute; reflexivity). lia.
  - destruct (percentile_class_brackets 45%float boundary Hlen) as (_ & _ & _ & Hedge).
    destruct (Hedge float_PyOrdLaws Hmono) as [Habove _].
    apply (Habove 0 40%float); vm_compute; reflexivity.
  - destruct (percentile_class_brackets 1%float boundary Hlen) as (_ & _ & _ & Hedge).
    destruct (Hedge float_PyOrdLaws Hmono) as [_ Hbelow].
    apply (Hbelow 100 2%float); vm_compute; reflexivity.
Defined.

(** C4 as stated fails.  In the specification's table the value 25 lies
    between the anchors of ranks 10 and 25 ([18 <= 25 <= 25]), and the class
    is ["0-10"], rank 5: the pair of ranks 0 and 10 holds it too and comes
    first.  And in a table that is not monotonic a value above the first
    anchor's value can fall in a later pair. *)
Lemma percentile_class_shared_anchor :
  (valid_of (boundaries boundary) !! 1%nat = Some (10, 25%float) /\
   valid_of (boundaries boundary) !! 2%nat = Some (25, 18%float) /\
   py_le 18%float 25%float = true /\ py_le 25%float 25%float = true /\
   calculate_percentile_class (Some 25%float) boundary
   = Ok (Some "0-10"%string, Some 5)) /\
  (head (valid_of (boundaries crooked)) = Some (0, 10%float) /\
   py_lt 10%float 25%float = true /\
   calculate_percentile_class (Some 25%float) crooked
   = Ok (Some "10-25"%string, Some 17)).
Proof. vm_compute. repeat split; reflexivity. Qed.

(** C9.  [calculate_percentile_class] raises nothing: it always returns a
    pair.  The pair is [(None, None)] when the depth is [None], when fewer
    than two anchors are non-null, and when the value lies in no pair of
    anchors, does not exceed the first anchor's value and is not below the
    last one's. *)
Theorem percentile_class_never_raises {V : Type} `{PyOrd V}
    (depth : option V) (pct_data : gmap string (option V)) :
  let valid := valid_of (boundaries pct_data) in
  (exists r, calculate_percentile_class depth pct_data = Ok r) /\
  (depth = None -> calculate_percentile_class depth pct_data = Ok (None, None)) /\
  ((length valid < 2)%nat ->
   calculate_percentile_class depth pct_data = Ok (None, None)) /\
  (forall d p0 v0 pn vn,
     depth = Some d -> (2 <= length valid)%nat ->
     head valid = Some (p0, v0) -> last valid = Some (pn, vn) ->
     (forall j, bracket_at d valid j = false) ->
     py_lt v0 d = false -> py_lt d vn = false ->
     calculate_percentile_class depth pct_data = Ok (None, None)).
Proof.
  intros valid. split; [|split; [|split]].
  - destruct depth as [d|]; cbn [calculate_percentile_class]; [|eauto].
    apply classify_valid_total.
  - now intros ->.
  - intros Hlen. destruct depth as [d|]; cbn [calculate_percentile_class]; [|done].
    fold valid. unfold classify_valid.
    replace (Z.of_nat (length valid) <? 2) with true; [done|].
    symmetry. apply Z.ltb_lt. lia.
  - intros d p0 v0 pn vn -> Hlen Hhead Hlast Hnone Hngt Hnlt.
    cbn [calculate_percentile_class]. fold valid.
    eapply classify_valid_neither; eassumption.
Qed.

Lemma percentile_class_never_raises_witness :
  (length (valid_of (boundaries (<["pct_50"%string := Some 12%float]> (∅ : gmap string (option float))))) < 2)%nat /\
  calculate_percentile_class (Some 15%float)
    (<["pct_50"%string := Some 12%float]> (∅ : gmap string (option float)))
  = Ok (None, None) /\
  calculate_percentile_class (None : option float) boundary = Ok (None, None) /\
  (2 <= length (valid_of (boundaries boundary)))%nat /\
  calculate_percentile_class (Some nan) boundary = Ok (None, None).
Proof.
  assert (H1 : (length (valid_of (boundaries
             (<["pct_50"%string := Some 12%float]> (∅ : gmap string (option float))))) < 2)%nat)
    by (vm_compute; lia).
  assert (H2 : (2 <= length (valid_of (boundaries boundary)))%nat)
    by (vm_compute; lia).
  split; [exact H1|]. split; [|split; [|split; [exact H2|]]].
  - destruct (percentile_class_never_raises (Some 15%float)
                (<["pct_50"%string := Some 12%float]> (∅ : gmap string (option float))))
      as (_ & _ & Hfew & _).
    exact (Hfew H1).
  - destruct (percentile_class_never_raises (None : option float) boundary)
      as (_ & Hnone & _).
    exact (Hnone eq_refl).
  - destruct (percentile_class_never_raises (Some nan) boundary)
      as (_ & _ & _ & Hneither).
    apply (Hneither nan 0 40%float 100 2%float); try (vm_compute; reflexivity);
      try exact H2.
    intros j. unfold bracket_at.
    destruct (_ !! j) as [[p1 v1]|]; [|reflexivity].
    destruct (_ !! S j) as [[p2 v2]|]; [|reflexivity].
    apply andb_false_iff. left. cbn [py_le float_PyOrd].
    rewrite FloatAxioms.leb_spec. change (Prim2SF nan) with S754_nan.
    now destruct (Prim2SF v2).
Defined.

End ClassifierClaims.

(** * More about the tables: runs that cannot fail, and runs that must *)

Module TableFacts.
Import GwPotential DatasetSpec DatasetFacts SamplerFacts.

Lemma mapM_total {A B} (f : A -> result B) (xs : list A) :
  Forall (fun x => exists y, f x = Ok y) xs ->
  exists ys, mapM f xs = Ok ys /\ length ys = length xs.
Proof.
  induction 1 as [|x xs [y Hy] _ (ys & Hys & Hlen)]; cbn [mapM].
  - now exists [].
  - rewrite Hy, Hys. exists (y :: ys). cbn [length]. auto.
Qed.

(** [mapM] stops with the exception that every failing element raises. *)
Lemma mapM_raises {A B} (f : A -> result B) (e : exn) (xs : list A) (x : A) :
  Forall (fun x => (exists y, f x = Ok y) \/ f x = Raise e) xs ->
  x ∈ xs -> f x = Raise e -> mapM f xs = Raise e.
Proof.
  intros Hall Hin Hx. induction Hall as [|a xs Ha _ IH]; [by apply elem_of_nil in Hin|].
  cbn [mapM]. destruct Ha as [[y Hy]|Ha]; [|now rewrite Ha].
  rewrite Hy. apply elem_of_cons in Hin as [->|Hin]; [congruence|].
  now rewrite (IH Hin).
Qed.

(** With well-formed bounds and raster the sampler returns a value for every
    pair of coordinates: NaN outside the bounds, a pixel inside. *)
Lemma get_dem_value_total (dem : ndarray) (b : Bounds) (lat lon : float) :
  wf_bounds b -> wf_raster dem -> exists v, get_dem_value lat lon dem b = Ok v.
Proof.
  intros Hb Hdem. destruct (in_bounds b lat lon) eqn:Hin.
  - destruct (sample_clamped dem b lat lon Hb Hdem Hin)
      as (row & col & v & _ & _ & _ & _ & Hget & _).
    now exists v.
  - exists nan. unfold in_bounds in Hin. unfold get_dem_value. now rewrite Hin.
Qed.


Lemma columns_getcol (df : DataFrame) (c : string) :
  c ∈ columns df -> exists s, getcol df c = Ok s.
Proof.
  unfold getcol, columns. induction df as [|[c' s'] df IH]; rewrite ?fmap_cons.
  - intros Hin. by apply elem_of_nil in Hin.
  - cbn [find fst]. destruct (String.eqb_spec c' c) as [->|Hne]; [eauto|].
    intros Hin. apply elem_of_cons in Hin as [->|Hin]; [congruence|]. now apply IH.
Qed.

End TableFacts.

Module PointsReport.
Import DemElevation GwPotential SamplerFacts TableFacts Sample.





End PointsReport.

Module PotentialRuns.
Import GwPotential DatasetSpec DatasetFacts SamplerFacts TableFacts Sample Cases PotentialSpec.

Lemma select3_numeric df lat_col lon_col depth_col lats lons depths :
  getcol df lat_col = Ok (Float64 lats) -> getcol df lon_col = Ok (Float64 lons) ->
  getcol df depth_col = Ok depths ->
  exists rows,
    select3 df lat_col lon_col depth_col = Ok rows /\
    Forall (fun r => numeric_cell (r_lat r) /\ numeric_cell (r_lon r)) rows /\
    (forall i r, rows !! i = Some r ->
       exists la lo, lats !! i = Some la /\ lons !! i = Some lo /\
                     r_lat r = CNum la /\ r_lon r = CNum lo /\
                     cells depths !! i = Some (r_depth_original r)) /\
    (forall i la lo d, lats !! i = Some la -> lons !! i = Some lo ->
       cells depths !! i = Some d ->
       rows !! i = Some {| r_idx := i; r_lat := CNum la; r_lon := CNum lo;
                           r_depth_original := d |}).
Proof.
  intros Hlat Hlon Hdep. unfold select3. rewrite Hlat, Hlon, Hdep.
  cbn [mbind result_bind Py.bind cells]. eexists. split; [reflexivity|].
  assert (Hrow : forall i r,
            imap (fun i c => {| r_idx := i; r_lat := c.1.1; r_lon := c.1.2;
                                r_depth_original := c.2 |})
                 (zip (zip (CNum <$> lats) (CNum <$> lons)) (cells depths)) !! i = Some r ->
            exists la lo, lats !! i = Some la /\ lons !! i = Some lo /\
                          r_lat r = CNum la /\ r_lon r = CNum lo /\
                          cells depths !! i = Some (r_depth_original r)).
  { intros i r. rewrite list_lookup_imap.
    destruct (zip _ _ !! i) as [[[a b0] d]|] eqn:Hz; [|discriminate].
    intros [= <-]. cbn [r_lat r_lon r_depth_original fst snd].
    apply lookup_zip_with_Some in Hz as ([a' b'] & d' & [= -> -> ->] & Hab & Hd).
    apply lookup_zip_with_Some in Hab as (a'' & b'' & [= -> ->] & Ha & Hb0).
    rewrite list_lookup_fmap in Ha, Hb0.
    destruct (lats !! i) as [la|]; [|discriminate].
    destruct (lons !! i) as [lo|]; [|discriminate].
    cbn in Ha, Hb0. injection Ha as <-. injection Hb0 as <-.
    exists la, lo. auto. }
  split; [|split; [exact Hrow|]].
  - apply Forall_forall. intros r Hr. apply list_elem_of_lookup in Hr as [i Hi].
    destruct (Hrow i r Hi) as (la & lo & _ & _ & -> & -> & _).
    split; eexists; reflexivity.
  - intros i la lo d Hla Hlo Hd. rewrite list_lookup_imap.
    assert (Hz : zip (zip (CNum <$> lats) (CNum <$> lons)) (cells depths) !! i
                 = Some (CNum la, CNum lo, d)).
    { apply lookup_zip_with_Some. exists (CNum la, CNum lo), d.
      split; [reflexivity|]. split; [|exact Hd].
      apply lookup_zip_with_Some. exists (CNum la), (CNum lo).
      split; [reflexivity|]. rewrite !list_lookup_fmap, Hla, Hlo. auto. }
    now rewrite Hz.
Qed.

Lemma get_dem_value_cells_numeric dem b (r : row3) :
  wf_bounds b -> wf_raster dem ->
  numeric_cell (r_lat r) -> numeric_cell (r_lon r) ->
  exists v, get_dem_value_cells dem b (r_lat r) (r_lon r) = Ok v.
Proof.
  intros Hb Hdem [la ->] [lo ->]. cbn [get_dem_value_cells].
  now apply get_dem_value_total.
Qed.

Lemma depth_m_column_cases depth_unit rows :
  (exists ds, depth_m_column depth_unit rows = Ok ds /\ length ds = length rows /\
              forall i d, ds !! i = Some d ->
                exists r, rows !! i = Some r /\
                          (numeric_cell (r_depth_original r) <-> numeric_cell d)) \/
  (depth_m_column depth_unit rows = Raise TypeError /\
   exists r, r ∈ rows /\ ~ numeric_cell (r_depth_original r)).
Proof.
  unfold depth_m_column. destruct (String.eqb (lower depth_unit) "ft").
  - induction rows as [|r rows IH]; cbn [mapM].
    + left. exists []. split; [reflexivity|]. split; [reflexivity|].
      intros i d Hd. destruct i; discriminate.
    + destruct (r_depth_original r) as [x|t] eqn:Hr; cbn [mul_cell].
      * destruct IH as [(ds & -> & Hlen & Hds)|(-> & r' & Hin & Hr')].
        -- left. eexists. split; [reflexivity|]. split; [cbn; lia|].
           intros [|i] d; cbn.
           ++ intros [= <-]. exists r. split; [reflexivity|].
              rewrite Hr. split; intros _; eexists; reflexivity.
           ++ apply Hds.
        -- right. split; [reflexivity|]. exists r'. split; [|exact Hr'].
           apply elem_of_cons. now right.
      * right. split; [reflexivity|]. exists r. split; [apply elem_of_cons; now left|].
        rewrite Hr. intros [x Hx]. discriminate.
  - left. eexists. split; [reflexivity|]. split; [apply length_fmap|].
    intros i d. rewrite list_lookup_fmap.
    destruct (rows !! i) as [r|]; [|discriminate]. cbn. intros [= <-].
    exists r. split; [reflexivity|tauto].
Qed.

Lemma sub_cell_cases (dem_m : float) (d : cell) :
  (numeric_cell d /\ exists p, sub_cell dem_m d = Ok p) \/
  (~ numeric_cell d /\ sub_cell dem_m d = Raise TypeError).
Proof.
  destruct d as [x|t]; cbn [sub_cell].
  - left. split; eexists; reflexivity.
  - right. split; [intros [x Hx]; discriminate|reflexivity].
Qed.

(** The three column assignments on rows with numeric coordinates: they go
    through when every depth is a number, and raise TypeError when one is
    text. *)
Lemma potential_rows_numeric dem b depth_unit rows :
  wf_bounds b -> wf_raster dem ->
  Forall (fun r => numeric_cell (r_lat r) /\ numeric_cell (r_lon r)) rows ->
  (Forall (fun r => numeric_cell (r_depth_original r)) rows ->
   exists out, potential_rows dem b depth_unit rows = Ok out) /\
  (forall r, r ∈ rows -> ~ numeric_cell (r_depth_original r) ->
   potential_rows dem b depth_unit rows = Raise TypeError).
Proof.
  intros Hb Hdem Hcoord.
  destruct (mapM_total (fun r => get_dem_value_cells dem b (r_lat r) (r_lon r)) rows)
    as (dem_m & Hdem_m & Hlen_dem).
  { eapply Forall_impl; [exact Hcoord|]. intros r [Hla Hlo].
    now apply get_dem_value_cells_numeric. }
  unfold potential_rows.
  destruct (depth_m_column_cases depth_unit rows)
    as [(ds & -> & Hlen & Hds)|(-> & r' & Hin' & Hr')].
  2:{ split; [|reflexivity].
      intros Hall. rewrite Forall_forall in Hall. now destruct (Hr' (Hall r' Hin')). }
  cbn [mbind result_bind Py.bind]. rewrite Hdem_m. cbn [mbind result_bind Py.bind].
  split.
  - intros Hall.
    destruct (mapM_total (fun c : float * cell => sub_cell c.1 c.2) (zip dem_m ds))
      as (pot & -> & _); [|cbn [mbind result_bind Py.bind]; eauto].
    apply Forall_forall. intros [e d] Hin. cbn [fst snd].
    apply list_elem_of_lookup in Hin as [i Hi].
    apply lookup_zip_with_Some in Hi as (e' & d' & [= -> ->] & _ & Hd).
    destruct (Hds i d' Hd) as (r & Hr & Hnum).
    rewrite Forall_forall in Hall.
    destruct (sub_cell_cases e' d') as [[_ Hok]|[Hno _]]; [exact Hok|].
    destruct Hno. apply Hnum, Hall. eapply list_elem_of_lookup_2, Hr.
  - intros r Hin Hr.
    apply list_elem_of_lookup in Hin as [i Hi].
    destruct (lookup_lt_is_Some_2 ds i) as [d Hd];
      [rewrite Hlen; eapply lookup_lt_Some, Hi|].
    destruct (lookup_lt_is_Some_2 dem_m i) as [e He];
      [rewrite Hlen_dem; eapply lookup_lt_Some, Hi|].
    destruct (Hds i d Hd) as (r0 & Hr0 & Hnum). rewrite Hi in Hr0. injection Hr0 as <-.
    rewrite (mapM_raises (fun c : float * cell => sub_cell c.1 c.2) TypeError
               (zip dem_m ds) (e, d)); [reflexivity| | |].
    + apply Forall_forall. intros [e' d'] _. cbn [fst snd].
      destruct (sub_cell_cases e' d') as [[_ Hok]|[_ Hraise]]; auto.
    + eapply list_elem_of_lookup_2. apply lookup_zip_with_Some. exists e, d. eauto.
    + cbn [fst snd]. destruct (sub_cell_cases e d) as [[Hn _]|[_ Hraise]]; [|exact Hraise].
      destruct Hr. now apply Hnum.
Qed.

Lemma dropna3_sub (rows : list row3) (r : row3) : r ∈ dropna3 rows -> r ∈ rows.
Proof. intros Hin. now apply list_elem_of_filter in Hin as [_ Hin]. Qed.

Lemma calculate_potential_unfold df dem b depth_col depth_unit lat_col lon_col c rows :
  resolve_depth_col df depth_col lat_col lon_col = Ok c ->
  select3 df lat_col lon_col c = Ok rows ->
  calculate_potential df (Ok (dem, b)) depth_col depth_unit lat_col lon_col
  = (out ← potential_rows dem b depth_unit (dropna3 rows);
     Ok (dropna6 out,
         {| depth_column := c; depth_unit_echo := Some depth_unit;
            total_points := length (dropna6 out);
            stats_depth_m := describe (Depth_m <$> dropna6 out);
            stats_dem_m := describe (DEM_m <$> dropna6 out);
            stats_potential_m := describe (Potential_m <$> dropna6 out) |})).
Proof.
  unfold resolve_depth_col, calculate_potential. intros -> Hsel.
  cbn [mbind result_bind Py.bind]. now rewrite Hsel.
Qed.

Lemma entry_points_equation
    (df : DataFrame) (fetched : result (ndarray * Bounds))
    (depth_col : option string) (depth_unit lat_col lon_col : string) :
  create_potential_dataset df fetched depth_col depth_unit lat_col lon_col
  = match calculate_potential df fetched depth_col depth_unit lat_col lon_col with
    | Ok (recs, rep) => Ok (final_columns <$> recs, dataset_report rep)
    | Raise e => Raise e
    end.
Proof.
  unfold create_potential_dataset, calculate_potential.
  destruct (match depth_col with Some c => Ok c | None => _ end) as [c|e];
    [|reflexivity].
  cbn [mbind result_bind Py.bind].
  destruct fetched as [[dem b]|e]; [|reflexivity].
  cbn [mbind result_bind Py.bind].
  destruct (select3 df lat_col lon_col c) as [rows|e]; [|reflexivity].
  cbn [mbind result_bind Py.bind].
  destruct (potential_rows dem b depth_unit (dropna3 rows)) as [out|e]; [|reflexivity].
  cbn [mbind result_bind Py.bind]. unfold dataset_report.
  cbn [depth_column total_points stats_depth_m stats_dem_m stats_potential_m].
  rewrite length_fmap, <- !list_fmap_compose. reflexivity.
Qed.



(** X3.  The two entry points run the same computation:
    [create_potential_dataset] fails exactly when [calculate_potential]
    fails, with the same exception, and otherwise returns the same records
    cut to the five output columns, with the same count and statistics; the
    response only lacks the echo of the depth unit. *)
Theorem entry_points_agree
    (df : DataFrame) (fetched : result (ndarray * Bounds))
    (depth_col : option string) (depth_unit lat_col lon_col : string) :
  (forall e,
     calculate_potential df fetched depth_col depth_unit lat_col lon_col = Raise e <->
     create_potential_dataset df fetched depth_col depth_unit lat_col lon_col = Raise e) /\
  (forall recs rep,
     calculate_potential df fetched depth_col depth_unit lat_col lon_col = Ok (recs, rep) ->
     create_potential_dataset df fetched depth_col depth_unit lat_col lon_col
     = Ok (final_columns <$> recs, dataset_report rep)) /\
  (forall recs5 rep5,
     create_potential_dataset df fetched depth_col depth_unit lat_col lon_col
     = Ok (recs5, rep5) ->
     exists recs rep,
       calculate_potential df fetched depth_col depth_unit lat_col lon_col
       = Ok (recs, rep) /\
       recs5 = final_columns <$> recs /\ rep5 = dataset_report rep).
Proof.
  rewrite entry_points_equation.
  destruct (calculate_potential df fetched depth_col depth_unit lat_col lon_col)
    as [[recs rep]|e]; cbv beta iota.
  - split; [intros e; split; discriminate|]. split.
    + now intros ?? [= <- <-].
    + intros ?? [= <- <-]. eauto.
  - split; [intros e0; split; intros [= ->]; reflexivity|]. split; discriminate.
Qed.

(** X4.  A depth that is text is not a missing value: one row with numeric
    coordinates and a text depth makes both entry points fail with
    TypeError, under any unit, instead of being dropped. *)
Theorem text_depth_aborts (dem : ndarray) (b : Bounds) (df : DataFrame)
    (depth_col : option string) (depth_unit lat_col lon_col c : string)
    (lats lons : list float) (depths : list cell)
    (i : nat) (la lo : float) (t : string) :
  wf_bounds b -> wf_raster dem ->
  resolve_depth_col df depth_col lat_col lon_col = Ok c ->
  getcol df lat_col = Ok (Float64 lats) -> getcol df lon_col = Ok (Float64 lons) ->
  getcol df c = Ok (Object depths) ->
  lats !! i = Some la -> lons !! i = Some lo -> depths !! i = Some (CStr t) ->
  PrimFloat.is_nan la = false -> PrimFloat.is_nan lo = false ->
  calculate_potential df (Ok (dem, b)) depth_col depth_unit lat_col lon_col
  = Raise TypeError /\
  create_potential_dataset df (Ok (dem, b)) depth_col depth_unit lat_col lon_col
  = Raise TypeError.
Proof.
  intros Hb Hdem Hc Hlat Hlon Hdep Hla Hlo Ht Hna Hno.
  destruct (select3_numeric df lat_col lon_col c lats lons (Object depths) Hlat Hlon Hdep)
    as (rows & Hsel & Hcoord & _ & Hrow).
  specialize (Hrow i la lo (CStr t) Hla Hlo Ht).
  set (r := {| r_idx := i; r_lat := CNum la; r_lon := CNum lo;
               r_depth_original := CStr t |}) in *.
  assert (Hin : r ∈ dropna3 rows).
  { apply list_elem_of_filter. split; [|eapply list_elem_of_lookup_2, Hrow].
    cbn [r r_lat r_lon r_depth_original isna]. now rewrite Hna, Hno. }
  destruct (potential_rows_numeric dem b depth_unit (dropna3 rows) Hb Hdem) as [_ Hraise].
  { apply Forall_forall. intros r' Hr'. rewrite Forall_forall in Hcoord.
    apply Hcoord. now apply dropna3_sub. }
  specialize (Hraise r Hin). 
  assert (Hrun : calculate_potential df (Ok (dem, b)) depth_col depth_unit lat_col lon_col
                 = Raise TypeError).
  { rewrite (calculate_potential_unfold df dem b depth_col depth_unit lat_col lon_col
               c rows Hc Hsel), Hraise; [reflexivity|].
    cbn [r r_depth_original]. intros [x Hx]. discriminate. }
  split; [exact Hrun|]. now rewrite entry_points_equation, Hrun.
Qed.

Lemma text_depth_aborts_witness :
  wf_bounds unit_bounds /\ wf_raster grid2x2 /\
  resolve_depth_col dry_well None "Lat" "Lon" = Ok "2024-05-01"%string /\
  calculate_potential dry_well (Ok (grid2x2, unit_bounds)) None "m" "Lat" "Lon"
  = Raise TypeError /\
  create_potential_dataset dry_well (Ok (grid2x2, unit_bounds)) None "m" "Lat" "Lon"
  = Raise TypeError.
Proof.
  assert (Hb : wf_bounds unit_bounds) by (repeat split; reflexivity).
  assert (Hr : wf_raster grid2x2) by (repeat split; repeat constructor).
  split; [exact Hb|]. split; [exact Hr|]. split; [reflexivity|].
  exact (text_depth_aborts grid2x2 unit_bounds dry_well None "m" "Lat" "Lon" "2024-05-01"
           [0.5; 0.25]%float [0.5; 0.5]%float [CStr "10"; CStr "dry"]
           1%nat 0.25%float 0.5%float "dry" Hb Hr eq_refl eq_refl eq_refl eq_refl
           eq_refl eq_refl eq_refl eq_refl eq_refl).
Defined.

(** X5.  What inference returns is a label of the table, so the column
    selection that follows finds it; the label is date-like (ten characters
    with a hyphen), or else no label is date-like and this one is a numeric
    column other than the latitude column, the longitude column and
    [Site]. *)
Theorem inferred_column_in_table (df : DataFrame) (lat_col lon_col c : string) :
  infer_depth_col df lat_col lon_col = Ok c ->
  c ∈ columns df /\ (exists s, getcol df c = Ok s) /\
  (is_date_col c = true \/
   (date_cols df = [] /\ c ∈ numeric_columns df /\
    c <> lat_col /\ c <> lon_col /\ c <> "Site"%string)).
Proof.
  unfold infer_depth_col. intros Hinf.
  assert (Hcases : c ∈ columns df /\
            (is_date_col c = true \/
             (date_cols df = [] /\ c ∈ numeric_columns df /\
              c <> lat_col /\ c <> lon_col /\ c <> "Site"%string))).
  { destruct (last (date_cols df)) as [c'|] eqn:Hlast.
    - injection Hinf as <-.
      assert (Hin : c' ∈ date_cols df).
      { rewrite last_lookup in Hlast. eapply list_elem_of_lookup_2, Hlast. }
      apply list_elem_of_filter in Hin as [Hd Hin]. auto.
    - apply last_None in Hlast.
      destruct (filter _ (numeric_columns df)) as [|c' rest] eqn:Hf; [discriminate|].
      injection Hinf as <-.
      assert (Hin : c' ∈ filter (fun c => c ∉ [lat_col; lon_col; "Site"%string])
                                (numeric_columns df))
        by (rewrite Hf; apply elem_of_cons; now left).
      apply list_elem_of_filter in Hin as [Hex Hin].
      split.
      + unfold numeric_columns in Hin. unfold columns.
        apply list_elem_of_fmap in Hin as (x & -> & Hx).
        apply list_elem_of_filter in Hx as [_ Hx].
        apply list_elem_of_fmap. eauto.
      + right. split; [exact Hlast|]. split; [exact Hin|].
        rewrite !not_elem_of_cons in Hex. tauto. }
  destruct Hcases as [Hin Hkind]. split; [exact Hin|]. split; [|exact Hkind].
  now apply columns_getcol.
Qed.

Lemma inferred_column_in_table_witness :
  infer_depth_col far_well "Lat" "Lon" = Ok "Depth"%string /\
  "Depth"%string ∈ columns far_well /\ (exists s, getcol far_well "Depth" = Ok s) /\
  (is_date_col "Depth" = true \/
   (date_cols far_well = [] /\ "Depth"%string ∈ numeric_columns far_well /\
    "Depth"%string <> "Lat"%string /\ "Depth"%string <> "Lon"%string /\
    "Depth"%string <> "Site"%string)).
Proof.
  split; [reflexivity|].
  exact (inferred_column_in_table far_well "Lat" "Lon" "Depth" eq_refl).
Defined.

End PotentialRuns.

Module ClassifierRanks.
Import MapService ClassifierFacts SamplerFacts Sample ClassifierSpec.

Section Ranks.
Context {V : Type} `{PyOrd V}.
Implicit Types (depth : V) (valid : list (Z * V)) (pct_data : gmap string (option V)).

Ltac sorted_ranks :=
  repeat first [ apply SSorted_nil | apply SSorted_cons
               | apply List.Forall_nil | apply List.Forall_cons; [lia|] ].

(** The ranks of the anchors that are kept: increasing, between 0 and 100. *)
Lemma valid_ranks pct_data :
  StronglySorted Z.lt (fst <$> valid_of (boundaries pct_data)) /\
  Forall (fun p => 0 <= p <= 100) (fst <$> valid_of (boundaries pct_data)).
Proof.
  unfold boundaries, valid_of. cbn [omap list_omap snd fst].
  destruct (dict_get pct_data "pct_lowest"), (dict_get pct_data "pct_10"),
    (dict_get pct_data "pct_25"), (dict_get pct_data "pct_50"),
    (dict_get pct_data "pct_75"), (dict_get pct_data "pct_90"),
    (dict_get pct_data "pct_highest");
    cbn [fmap list_fmap fst]; (split; [sorted_ranks|repeat constructor; lia]).
Qed.

Lemma sorted_lookup_le (ps : list Z) (i j : nat) (p q : Z) :
  StronglySorted Z.lt ps -> (i <= j)%nat -> ps !! i = Some p -> ps !! j = Some q -> p <= q.
Proof.
  intros Hs. revert i j. induction Hs as [|a l Hs IH Ha]; intros i j Hij Hi Hj; [done|].
  destruct i as [|i], j as [|j]; cbn in Hi, Hj; try lia.
  - injection Hi as <-. injection Hj as <-. lia.
  - injection Hi as <-. rewrite List.Forall_forall in Ha.
    assert (a < q); [|lia]. apply Ha. apply list_elem_of_In. eapply list_elem_of_lookup_2, Hj.
  - apply (IH i j); (assumption || lia).
Qed.

Lemma class_at_rank valid i label rank :
  Forall (fun p => 0 <= p <= 100) (fst <$> valid) ->
  class_at valid i = Some (label, rank) -> 0 <= rank <= 100.
Proof.
  intros Hr. unfold class_at.
  destruct (valid !! i) as [[p1 v1]|] eqn:H1; [|discriminate].
  destruct (valid !! S i) as [[p2 v2]|] eqn:H2; [|discriminate].
  intros [= _ <-]. rewrite Forall_forall in Hr.
  assert (0 <= p1 <= 100).
  { apply Hr. apply list_elem_of_fmap. exists (p1, v1). split; [done|].
    eapply list_elem_of_lookup_2, H1. }
  assert (0 <= p2 <= 100).
  { apply Hr. apply list_elem_of_fmap. exists (p2, v2). split; [done|].
    eapply list_elem_of_lookup_2, H2. }
  split; [apply Z.div_pos; lia|]. apply Z.div_le_upper_bound; lia.
Qed.

Lemma classify_valid_outcome depth valid :
  exists c, classify_valid depth valid = Ok c /\ outcome depth valid c.
Proof.
  destruct (decide (2 <= length valid)%nat) as [Hlen|Hlen].
  - rewrite classify_valid_unfold by assumption.
    destruct (List.find _ _) as [i|] eqn:Hfind; cbn [mbind option_bind].
    + destruct (class_at valid i) as [[label rank]|] eqn:Hc.
      * eexists. split; [reflexivity|]. eapply in_bracket; eassumption.
      * exfalso. apply List.find_some in Hfind as [Hin Hb].
        unfold bracket_at in Hb. unfold class_at in Hc.
        destruct (valid !! i) as [[p1 v1]|]; [|discriminate].
        destruct (valid !! S i) as [[p2 v2]|]; discriminate.
    + destruct (lookup_lt_is_Some_2 valid 0 ltac:(lia)) as [[p0 v0] H0].
      rewrite (axis_index_head valid _ H0). cbn [mbind result_bind Py.bind snd fst].
      assert (Hhead : head valid = Some (p0, v0)) by now rewrite head_lookup.
      destruct (py_lt v0 depth) eqn:Hgt.
      { eexists. split; [reflexivity|]. eapply above_all; eassumption. }
      destruct (last valid) as [[pn vn]|] eqn:Hn.
      * rewrite (axis_index_last valid _ Hn). cbn [mbind result_bind Py.bind snd fst].
        destruct (py_lt depth vn) eqn:Hlt; (eexists; split; [reflexivity|]).
        -- eapply below_all; eassumption.
        -- apply unclassified.
      * apply last_None in Hn. subst valid. cbn in Hlen. lia.
  - unfold classify_valid.
    replace (Z.of_nat (length valid) <? 2) with true
      by (symmetry; apply Z.ltb_lt; lia).
    eexists. split; [reflexivity|]. apply unclassified.
Qed.

(** X6.  The classifier returns a label and a rank together or neither,
    and a rank it returns lies between 0 and 100. *)
Theorem percentile_class_shape (depth : option V) pct_data :
  exists label rank,
    calculate_percentile_class depth pct_data = Ok (label, rank) /\
    (label = None <-> rank = None) /\
    (forall k, rank = Some k -> 0 <= k <= 100).
Proof.
  destruct depth as [d|]; cbn [calculate_percentile_class].
  2:{ exists None, None. split; [reflexivity|]. split; [tauto|discriminate]. }
  destruct (classify_valid_outcome d (valid_of (boundaries pct_data))) as (c & -> & Hc).
  destruct (valid_ranks pct_data) as [_ Hr].
  destruct Hc as [i label rank _ Hclass| | |]; eexists _, _; (split; [reflexivity|]).
  - split; [split; discriminate|]. intros k [= <-]. eapply class_at_rank; eassumption.
  - split; [split; discriminate|]. intros k [= <-]. lia.
  - split; [split; discriminate|]. intros k [= <-]. lia.
  - split; [tauto|discriminate].
Qed.

Lemma complete_valid pct_data :
  complete pct_data ->
  exists v0 v10 v25 v50 v75 v90 v100,
    valid_of (boundaries pct_data)
    = [(0, v0); (10, v10); (25, v25); (50, v50); (75, v75); (90, v90); (100, v100)].
Proof.
  intros Hc.
  destruct (Hc "pct_lowest" ltac:(repeat constructor)) as [v0 H0].
  destruct (Hc "pct_10" ltac:(repeat constructor)) as [v10 H10].
  destruct (Hc "pct_25" ltac:(repeat constructor)) as [v25 H25].
  destruct (Hc "pct_50" ltac:(repeat constructor)) as [v50 H50].
  destruct (Hc "pct_75" ltac:(repeat constructor)) as [v75 H75].
  destruct (Hc "pct_90" ltac:(repeat constructor)) as [v90 H90].
  destruct (Hc "pct_highest" ltac:(repeat constructor)) as [v100 H100].
  exists v0, v10, v25, v50, v75, v90, v100.
  unfold boundaries, valid_of, dict_get.
  now rewrite H0, H10, H25, H50, H75, H90, H100.
Qed.

(** X7.  With all seven anchors present the class of a depth is one of
    the six brackets, [<0], [>100], or none. *)
Theorem complete_table_classes depth pct_data :
  complete pct_data ->
  exists c, calculate_percentile_class (Some depth) pct_data = Ok c /\ c ∈ classes.
Proof.
  intros (v0 & v10 & v25 & v50 & v75 & v90 & v100 & Hv)%complete_valid.
  cbn [calculate_percentile_class]. rewrite Hv.
  rewrite classify_valid_unfold by (cbn; lia).
  cbn [length Nat.sub seq List.find]. unfold bracket_at, class_at.
  cbn [lookup list_lookup].
  repeat (destruct (py_le _ depth && py_le depth _);
          [ cbn; eexists; split; [reflexivity|]; unfold classes; repeat constructor |]).
  cbn [mbind option_bind].
  erewrite axis_index_head by reflexivity. erewrite axis_index_last by reflexivity.
  cbn [mbind result_bind Py.bind fst snd].
  destruct (py_lt v0 depth); [|destruct (py_lt depth v100)];
    cbn; eexists; (split; [reflexivity|]); unfold classes; repeat constructor.
Qed.

End Ranks.

Lemma complete_table_classes_witness :
  complete boundary /\
  exists c, calculate_percentile_class (Some 15%float) boundary = Ok c /\ c ∈ classes.
Proof.
  assert (Hc : complete boundary).
  { intros key Hk.
    repeat (apply elem_of_cons in Hk as [->|Hk]; [eexists; vm_compute; reflexivity|]).
    now apply elem_of_nil in Hk. }
  split; [exact Hc|]. exact (complete_table_classes 15%float boundary Hc).
Defined.

End ClassifierRanks.

Module OrderChains.
Import SpecFloat SFFacts MapService ClassifierFacts ClassifierRanks Sample ClassifierSpec.

Ltac float_order_cases x y z :=
  destruct x as [sx|sx| |sx mx ex], y as [sy|sy| |sy my ey], z as [sz|sz| |sz mz ez];
    cbn [SFcompare]; try easy;
    try (destruct sx; try easy; destruct sy; try easy; destruct sz; easy);
    try (destruct sx; try easy; destruct sy; easy);
    try (destruct sx; try easy; destruct sz; easy);
    try (destruct sy; try easy; destruct sz; easy);
  change (Pos.compare_cont Eq mx my) with (Pos.compare mx my);
  change (Pos.compare_cont Eq my mz) with (Pos.compare my mz);
  change (Pos.compare_cont Eq mx mz) with (Pos.compare mx mz);
  destruct sx, sy, sz; try easy;
    destruct (Z.compare_spec ex ey), (Z.compare_spec ey ez), (Z.compare_spec ex ez);
    try easy; try lia; subst;
    destruct (Pos.compare_spec mx my), (Pos.compare_spec my mz), (Pos.compare_spec mx mz);
    cbn [CompOpp]; try easy; lia.

Lemma SFleb_ltb_trans x y z :
  SFleb x y = true -> SFltb y z = true -> SFltb x z = true.
Proof. unfold SFleb, SFltb. float_order_cases x y z. Qed.

Lemma SFltb_leb_trans x y z :
  SFltb x y = true -> SFleb y z = true -> SFltb x z = true.
Proof. unfold SFleb, SFltb. float_order_cases x y z. Qed.

#[global] Instance float_PyOrdChain : PyOrdChain float.
Proof.
  split; cbn [py_le py_lt float_PyOrd]; intros *;
    rewrite ?FloatAxioms.leb_spec, ?FloatAxioms.ltb_spec.
  - apply SFleb_ltb_trans.
  - apply SFltb_leb_trans.
Qed.

#[global] Instance int_PyOrdChain : PyOrdChain Z.
Proof.
  split; cbn [py_le py_lt int_PyOrd]; intros *; rewrite ?Z.leb_le, ?Z.ltb_lt; lia.
Qed.

Section Antitone.
Context {V : Type} `{PyOrdLaws V} {chain : PyOrdChain V}.
Implicit Types (depth : V) (valid : list (Z * V)) (pct_data : gmap string (option V)).

Lemma find_seq_Some (f : nat -> bool) (k n i : nat) :
  List.find f (seq k n) = Some i ->
  (k <= i < k + n)%nat /\ f i = true /\ forall j, (k <= j < i)%nat -> f j = false.
Proof.
  revert k. induction n as [|n IH]; intros k; [discriminate|].
  cbn [seq List.find]. destruct (f k) eqn:Hk.
  - intros [= <-]. repeat split; [lia|lia|exact Hk|intros; lia].
  - intros Hf. destruct (IH _ Hf) as (Hi & Hfi & Hbefore).
    repeat split; [lia|lia|exact Hfi|].
    intros j Hj. destruct (decide (j = k)) as [->|Hne]; [exact Hk|apply Hbefore; lia].
Qed.

(** Later anchors are not larger. *)
Lemma non_increasing_lookup valid i j p v q w :
  non_increasing valid = true -> (i < j)%nat ->
  valid !! i = Some (p, v) -> valid !! j = Some (q, w) -> py_le w v = true.
Proof.
  revert i j. induction valid as [|[p0 v0] rest IH]; intros i j Hmono Hij Hi Hj; [done|].
  destruct j as [|j]; [lia|]. cbn in Hj.
  destruct i as [|i]; cbn in Hi.
  - injection Hi as -> ->. eapply non_increasing_le_head; eassumption.
  - apply (IH i j); [|lia|exact Hi|exact Hj].
    destruct rest as [|[p1 v1] rest']; [done|].
    cbn [non_increasing] in Hmono. now apply andb_true_iff in Hmono as [_ ?].
Qed.

(** The first bracket of a deeper reading is not a later one. *)
Lemma first_bracket_antitone d1 d2 valid i1 i2 :
  non_increasing valid = true -> py_le d1 d2 = true ->
  List.find (bracket_at d1 valid) (seq 0 (length valid - 1)) = Some i1 ->
  List.find (bracket_at d2 valid) (seq 0 (length valid - 1)) = Some i2 ->
  (i2 <= i1)%nat.
Proof.
  intros Hmono Hle (_ & Hb1 & _)%find_seq_Some (_ & Hb2 & Hfirst)%find_seq_Some.
  destruct (decide (i2 <= i1)%nat) as [|Hgt]; [assumption|exfalso].
  specialize (Hfirst i1 ltac:(lia)).
  unfold bracket_at in Hb1, Hb2, Hfirst.
  destruct (valid !! i1) as [[p1 v1]|] eqn:H1; [|discriminate].
  destruct (valid !! S i1) as [[p1' v1']|] eqn:H1'; [|discriminate].
  destruct (valid !! i2) as [[p2 v2]|] eqn:H2; [|discriminate].
  destruct (valid !! S i2) as [[p2' v2']|] eqn:H2'; [|discriminate].
  apply andb_true_iff in Hb1 as [Hlo1 Hhi1]. apply andb_true_iff in Hb2 as [Hlo2 Hhi2].
  assert (py_le v1' d2 = true) as Ha by (eapply py_le_trans; eassumption).
  assert (py_le d2 v1 = true) as Hb.
  { eapply py_le_trans; [exact Hhi2|].
    eapply (non_increasing_lookup valid i1 i2); (eassumption || lia). }
  rewrite Ha, Hb in Hfirst. discriminate.
Qed.

Lemma class_at_antitone valid i1 i2 l1 k1 l2 k2 :
  StronglySorted Z.lt (fst <$> valid) -> (i2 <= i1)%nat ->
  class_at valid i1 = Some (l1, k1) -> class_at valid i2 = Some (l2, k2) -> k2 <= k1.
Proof.
  intros Hs Hle. unfold class_at.
  destruct (valid !! i1) as [[p1 v1]|] eqn:H1; [|discriminate].
  destruct (valid !! S i1) as [[p1' v1']|] eqn:H1'; [|discriminate].
  destruct (valid !! i2) as [[p2 v2]|] eqn:H2; [|discriminate].
  destruct (valid !! S i2) as [[p2' v2']|] eqn:H2'; [|discriminate].
  intros [= _ <-] [= _ <-].
  assert (Hf : forall i p v, valid !! i = Some (p, v) -> (fst <$> valid) !! i = Some p).
  { intros i p v Hi. now rewrite list_lookup_fmap, Hi. }
  assert (p2 <= p1) by (eapply (sorted_lookup_le _ i2 i1); eauto).
  assert (p2' <= p1') by (eapply (sorted_lookup_le _ (S i2) (S i1)); eauto; lia).
  apply Z.div_le_mono; lia.
Qed.

(** X8.  On a table whose anchors do not increase with rank, a deeper
    reading never gets a higher rank. *)
Theorem deeper_ranks_lower (d1 d2 : V) pct_data l1 k1 l2 k2 :
  non_increasing (valid_of (boundaries pct_data)) = true ->
  py_le d1 d2 = true ->
  calculate_percentile_class (Some d1) pct_data = Ok (l1, Some k1) ->
  calculate_percentile_class (Some d2) pct_data = Ok (l2, Some k2) ->
  k2 <= k1.
Proof.
  cbn [calculate_percentile_class]. set (valid := valid_of (boundaries pct_data)).
  intros Hmono Hle E1 E2.
  destruct (valid_ranks pct_data) as [Hs Hr]. fold valid in Hs, Hr. clearbody valid.
  destruct (classify_valid_outcome d1 valid) as (c1 & E1' & O1).
  destruct (classify_valid_outcome d2 valid) as (c2 & E2' & O2).
  rewrite E1 in E1'. rewrite E2 in E2'. injection E1' as <-. injection E2' as <-.
  inversion O2 as [i2 l2' k2' Hf2 Hc2 | p0 v0 Hf2 Hh2 Hgt2 | p0 v0 pn vn Hf2 Hh2 Hl2 Hn2 Hlt2 | ];
    subst.
  - inversion O1 as [i1 l1' k1' Hf1 Hc1 | q0 w0 Hf1 Hh1 Hgt1 | q0 w0 qn wn Hf1 Hh1 Hl1 Hn1 Hlt1 | ];
      subst.
    + eapply class_at_antitone; [exact Hs| |exact Hc1|exact Hc2].
      eapply first_bracket_antitone; eassumption.
    + exfalso. apply find_seq_Some in Hf2 as (_ & Hb & _).
      rewrite (above_first_no_bracket d2 valid q0 w0 Hmono Hh1) in Hb; [discriminate|].
      eapply py_lt_le_trans; eassumption.
    + pose proof (class_at_rank valid i2 _ _ Hr Hc2). lia.
  - inversion O1 as [i1 l1' k1' Hf1 Hc1 | | | ]; subst; try lia.
    pose proof (class_at_rank valid i1 _ _ Hr Hc1). lia.
  - assert (Hlt1 : py_lt d1 vn = true) by (eapply py_le_lt_trans; eassumption).
    inversion O1 as [i1 l1' k1' Hf1 Hc1 | q0 w0 Hf1 Hh1 Hgt1 | | ]; subst; try lia.
    + exfalso. apply find_seq_Some in Hf1 as (_ & Hb & _).
      rewrite (below_last_no_bracket d1 valid pn vn Hmono Hl2 Hlt1) in Hb. discriminate.
    + exfalso. rewrite Hh2 in Hh1. injection Hh1 as <- <-.
      assert (2 <= length valid)%nat as Hlen.
      { destruct valid as [|a [|b rest]]; [discriminate Hh2| |cbn; lia].
        cbn in Hh2, Hl2. rewrite Hh2 in Hl2. injection Hl2 as <- <-.
        pose proof (py_lt_not_le _ _ Hgt1) as Hx. pose proof (py_lt_le _ _ Hlt1) as Hy.
        congruence. }
      rewrite (below_last_not_above d1 valid _ v0 pn vn Hlen Hmono Hh2 Hl2 Hlt1) in Hgt1.
      discriminate.
Qed.

End Antitone.

Lemma deeper_ranks_lower_witness :
  non_increasing (valid_of (boundaries boundary)) = true /\
  py_le 15%float 20%float = true /\
  calculate_percentile_class (Some 15%float) boundary = Ok (Some "25-50"%string, Some 37) /\
  calculate_percentile_class (Some 20%float) boundary = Ok (Some "10-25"%string, Some 17) /\
  17 <= 37.
Proof.
  repeat split; try (vm_compute; reflexivity).
  apply (deeper_ranks_lower 15%float 20%float boundary
           (Some "25-50"%string) 37 (Some "10-25"%string) 17);
    vm_compute; reflexivity.
Defined.

End OrderChains.

(** * The services: measurement histories and the data of the map *)

Module HistoryFacts.
Import Json CadwrGwinfo Replies.

Lemma str_leb_trans (a b c : string) :
  String.leb a b = true -> String.leb b c = true -> String.leb a c = true.
Proof.
  unfold String.leb. revert b c.
  induction a as [|x a IH]; intros [|y b] [|z c]; cbn [String.compare]; try easy.
  unfold Ascii.compare.
  destruct (N.compare_spec (N_of_ascii x) (N_of_ascii y)) as [Hxy|Hxy|Hxy],
    (N.compare_spec (N_of_ascii y) (N_of_ascii z)) as [Hyz|Hyz|Hyz],
    (N.compare_spec (N_of_ascii x) (N_of_ascii z)) as [Hxz|Hxz|Hxz];
    try easy; try lia.
  apply IH.
Qed.

#[global] Instance str_le_transitive : Transitive str_le.
Proof. intros a b c. apply str_leb_trans. Qed.

#[global] Instance date_le_transitive : Transitive date_le.
Proof. intros a b c. apply str_leb_trans. Qed.

Lemma StronglySorted_filter {A} (R : relation A) (P : A -> Prop) `{forall x, Decision (P x)}
    (l : list A) :
  StronglySorted R l -> StronglySorted R (filter P l).
Proof.
  induction 1 as [|x l Hl IH Hx]; [constructor|].
  rewrite filter_cons. destruct (decide (P x)); [|exact IH].
  constructor; [exact IH|]. apply List.Forall_forall. intros y Hy.
  apply list_elem_of_In, list_elem_of_filter in Hy as [_ Hy].
  rewrite List.Forall_forall in Hx. apply Hx. now apply list_elem_of_In.
Qed.

Lemma StronglySorted_map {A B} (f : A -> B) (R1 : relation A) (R2 : relation B)
    (l : list A) :
  (forall x y, R1 x y -> R2 (f x) (f y)) ->
  StronglySorted R1 l -> StronglySorted R2 (f <$> l).
Proof.
  intros Hf. induction 1 as [|x l Hl IH Hx]; cbn; constructor; [exact IH|].
  rewrite List.Forall_forall in Hx. apply List.Forall_forall. intros y Hy.
  apply list_elem_of_In, list_elem_of_fmap in Hy as (a & -> & Ha).
  apply Hf, Hx. now apply list_elem_of_In.
Qed.

Lemma str_ltb_false_leb (a b : string) : String.ltb a b = false -> String.leb b a = true.
Proof.
  unfold String.ltb, String.leb. rewrite (String.compare_antisym a b).
  now destruct (String.compare b a).
Qed.

Lemma str_ltb_leb (a b : string) : String.ltb a b = true -> String.leb a b = true.
Proof. unfold String.ltb, String.leb. now destruct (String.compare a b). Qed.

Lemma str_compare_refl (a : string) : String.compare a a = Eq.
Proof.
  pose proof (String.compare_antisym a a) as H. now destruct (String.compare a a).
Qed.

Lemma str_ltb_irrefl (a : string) : String.ltb a a = false.
Proof. unfold String.ltb. now rewrite str_compare_refl. Qed.

Lemma insert_by_date_head m l x :
  HdRel date_le x l -> date_le x m -> HdRel date_le x (insert_by_date m l).
Proof.
  intros Hx Hxm. destruct l as [|y l]; cbn [insert_by_date]; [now constructor|].
  destruct (String.ltb (date y) (date m)); constructor; [|assumption].
  now inversion Hx.
Qed.

Lemma insert_by_date_sorted m l :
  Sorted date_le l -> Sorted date_le (insert_by_date m l).
Proof.
  induction 1 as [|x l Hl IH Hx]; cbn [insert_by_date]; [repeat constructor|].
  destruct (String.ltb (date x) (date m)) eqn:Hlt.
  - constructor; [exact IH|].
    apply insert_by_date_head; [assumption|now apply str_ltb_leb].
  - constructor; [now constructor|]. constructor. now apply str_ltb_false_leb.
Qed.

Lemma sort_by_date_sorted ms : StronglySorted date_le (sort_by_date ms).
Proof.
  apply Sorted.Sorted_StronglySorted; [intros a b c; apply str_leb_trans|].
  induction ms as [|m ms IH]; cbn; [constructor|]. now apply insert_by_date_sorted.
Qed.

Lemma insert_by_date_perm m l : insert_by_date m l ≡ₚ m :: l.
Proof.
  induction l as [|x l IH]; cbn [insert_by_date]; [reflexivity|].
  destruct (String.ltb (date x) (date m)); [|reflexivity].
  rewrite IH. apply Permutation_swap.
Qed.

Lemma sort_by_date_perm ms : sort_by_date ms ≡ₚ ms.
Proof.
  induction ms as [|m ms IH]; cbn; [reflexivity|].
  now rewrite insert_by_date_perm, IH.
Qed.

(** Readings of one date keep their order. *)
Lemma insert_by_date_stable (d : string) m l :
  filter (fun x => date x = d) (insert_by_date m l)
  = filter (fun x => date x = d) (m :: l).
Proof.
  induction l as [|x l IH]; cbn [insert_by_date]; [reflexivity|].
  destruct (String.ltb (date x) (date m)) eqn:Hlt; [|reflexivity].
  rewrite filter_cons, IH, !filter_cons.
  destruct (decide (date x = d)) as [Hx|Hx], (decide (date m = d)) as [Hm|Hm];
    try reflexivity.
  rewrite Hx, Hm, str_ltb_irrefl in Hlt. discriminate.
Qed.

Lemma sort_by_date_stable (d : string) ms :
  filter (fun x => date x = d) (sort_by_date ms) = filter (fun x => date x = d) ms.
Proof.
  induction ms as [|m ms IH]; cbn [sort_by_date foldr]; [reflexivity|].
  fold (sort_by_date ms). now rewrite insert_by_date_stable, !filter_cons, IH.
Qed.

(** The loop returns the records it keeps, or stops at a date that is no
    text. *)
Lemma collect_kept s e rs ms : collect s e rs = Ok ms -> ms = kept s e rs.
Proof.
  revert ms. induction rs as [|r rs IH]; intros ms; cbn [collect kept omap list_omap].
  - now intros [= <-].
  - fold (kept s e rs).
    destruct (msmt_date r) as [d|err]; cbn [mbind result_bind Py.bind]; [|discriminate].
    destruct (skipped s e d); [now apply IH|].
    destruct (collect s e rs) as [ms'|]; cbn [mbind result_bind Py.bind]; [|discriminate].
    intros [= <-]. f_equal. now apply IH.
Qed.

Lemma collect_ok s e rs :
  Forall (fun r => exists d, msmt_date r = Ok d) rs -> exists ms, collect s e rs = Ok ms.
Proof.
  induction 1 as [|r rs [d Hd] _ [ms IH]]; cbn [collect]; [eauto|].
  rewrite Hd, IH. cbn [mbind result_bind Py.bind]. destruct (skipped s e d); eauto.
Qed.

Lemma msmt_date_raises r e : msmt_date r = Raise e -> e = TypeError.
Proof. unfold msmt_date. destruct (get_or _ _ _); congruence. Qed.

Lemma collect_raises s e rs r :
  r ∈ rs -> (forall d, msmt_date r <> Ok d) -> collect s e rs = Raise TypeError.
Proof.
  intros Hin Hbad. induction rs as [|x rs IH]; [now apply elem_of_nil in Hin|].
  cbn [collect]. destruct (msmt_date x) as [d|err] eqn:Hx; cbn [mbind result_bind Py.bind].
  - apply elem_of_cons in Hin as [->|Hin]; [now destruct (Hbad d)|].
    rewrite (IH Hin). now destruct (skipped s e d).
  - now rewrite (msmt_date_raises _ _ Hx).
Qed.

Lemma msmt_date_text r :
  (exists d, msmt_date r = Ok d) <->
  (forall v, r !! "msmt_date"%string = Some v -> exists t, v = SStr t).
Proof.
  unfold msmt_date, get_or. destruct (r !! "msmt_date"%string) as [v|]; cbn [default].
  - split.
    + intros [d Hd] v' [= <-]. destruct v; try discriminate. eauto.
    + intros Hv. destruct (Hv v eq_refl) as [t ->]. eauto.
  - split; [intros _ v; discriminate|eauto].
Qed.

Lemma skipped_window s e d : skipped s e d = false -> in_window s e d.
Proof.
  unfold skipped. intros [Hs He]%orb_false_iff. split.
  - intros s' -> Hne. apply andb_false_iff in Hs as [Hs|Hs].
    + apply negb_false_iff, String.eqb_eq in Hs. contradiction.
    + now apply str_ltb_false_leb.
  - intros e' -> Hne. apply andb_false_iff in He as [He|He].
    + apply negb_false_iff, String.eqb_eq in He. contradiction.
    + now apply str_ltb_false_leb.
Qed.

Lemma kept_window s e rs : Forall (fun m => in_window s e (date m)) (kept s e rs).
Proof.
  induction rs as [|r rs IH]; cbn [kept omap list_omap]; [constructor|].
  fold (kept s e rs). destruct (msmt_date r) as [d|]; [|exact IH].
  destruct (skipped s e d) eqn:Hs; [exact IH|].
  constructor; [|exact IH]. now apply skipped_window.
Qed.

Lemma substring_length (n : nat) (s : string) : (String.length (substring 0 n s) <= n)%nat.
Proof.
  revert s. induction n as [|n IH]; intros [|c s]; cbn; try lia.
  specialize (IH s). lia.
Qed.

Lemma kept_date_length s e rs :
  Forall (fun m => (String.length (date m) <= 10)%nat) (kept s e rs).
Proof.
  induction rs as [|r rs IH]; cbn [kept omap list_omap]; [constructor|].
  fold (kept s e rs). destruct (msmt_date r) as [d|] eqn:Hd; [|exact IH].
  destruct (skipped s e d); [exact IH|]. constructor; [|exact IH].
  cbn [measure date]. unfold msmt_date in Hd.
  destruct (get_or _ _ _); try discriminate. injection Hd as <-. apply substring_length.
Qed.

(** The result of a call, read off the reply. *)
Lemma history_inversion reply site s e site' s' e' n ms :
  get_measurement_history reply site s e = HMeasurements site' s' e' n ms ->
  exists data rs,
    reply = Some {| status_code := 200; json := Some data |} /\
    truthy (success data) = true /\ records data = Some rs /\
    collect s e rs = Ok (kept s e rs) /\
    site' = site /\ s' = s /\ e' = e /\ n = length ms /\ ms = sort_by_date (kept s e rs).
Proof.
  unfold get_measurement_history. destruct reply as [[code body]|]; [|discriminate].
  cbn [status_code json]. destruct (code =? 200) eqn:Hcode; [|discriminate].
  apply Z.eqb_eq in Hcode as ->. cbn [negb].
  destruct body as [data|]; [|discriminate].
  destruct (truthy (success data)) eqn:Hs; [|discriminate]. cbn [negb].
  destruct (records data) as [rs|] eqn:Hrs; [|discriminate].
  destruct (collect s e rs) as [ms'|] eqn:Hc; [|discriminate].
  pose proof (collect_kept _ _ _ _ Hc) as ->.
  intros [= <- <- <- <- <-]. exists data, rs. repeat split; auto.
Qed.

(** X9.  The measurements a call returns are in ascending order of date;
    every date has at most ten characters and lies in the window the
    caller gave; [count] is their number. *)
Theorem history_sorted_in_window reply site s e site' s' e' n ms :
  get_measurement_history reply site s e = HMeasurements site' s' e' n ms ->
  n = length ms /\
  StronglySorted date_le ms /\
  Forall (fun m => in_window s e (date m) /\ (String.length (date m) <= 10)%nat) ms.
Proof.
  intros (data & rs & _ & _ & _ & _ & _ & _ & _ & Hn & ->)%history_inversion.
  split; [exact Hn|]. split; [apply sort_by_date_sorted|].
  rewrite sort_by_date_perm. apply Forall_and. split.
  - apply kept_window.
  - apply kept_date_length.
Qed.

Lemma history_sorted_in_window_witness :
  get_measurement_history (good readings) "S1" (Some "2024-01-01"%string) None
  = HMeasurements "S1" (Some "2024-01-01"%string) None 2
      (sort_by_date (kept (Some "2024-01-01"%string) None readings)) /\
  2%nat = length (sort_by_date (kept (Some "2024-01-01"%string) None readings)) /\
  StronglySorted date_le (sort_by_date (kept (Some "2024-01-01"%string) None readings)) /\
  Forall (fun m => in_window (Some "2024-01-01"%string) None (date m) /\
                   (String.length (date m) <= 10)%nat)
    (sort_by_date (kept (Some "2024-01-01"%string) None readings)).
Proof.
  assert (H : get_measurement_history (good readings) "S1" (Some "2024-01-01"%string) None
              = HMeasurements "S1" (Some "2024-01-01"%string) None 2
                  (sort_by_date (kept (Some "2024-01-01"%string) None readings)))
    by (vm_compute; reflexivity).
  split; [exact H|]. exact (history_sorted_in_window _ _ _ _ _ _ _ _ _ H).
Defined.

(** X10.  A good reply loses no reading and reorders none of one date: the
    measurements are the readings of the window, and those of each date
    come in the order of the reply. *)
Theorem history_keeps_window (data : body) (rs : list object) site s e :
  truthy (success data) = true -> records data = Some rs ->
  Forall (fun r => forall v, r !! "msmt_date"%string = Some v -> exists t, v = SStr t) rs ->
  exists ms,
    get_measurement_history (Some {| status_code := 200; json := Some data |}) site s e
    = HMeasurements site s e (length ms) ms /\
    ms ≡ₚ kept s e rs /\
    forall d, filter (fun m => date m = d) ms = filter (fun m => date m = d) (kept s e rs).
Proof.
  intros Hs Hrs Htext. unfold get_measurement_history. cbn [status_code json Z.eqb negb].
  rewrite Hs, Hrs. cbn [negb].
  destruct (collect_ok s e rs) as [ms Hms].
  { eapply Forall_impl; [exact Htext|]. intros r Hr. exact (proj2 (msmt_date_text r) Hr). }
  rewrite Hms. pose proof (collect_kept _ _ _ _ Hms) as ->.
  eexists. split; [reflexivity|]. split; [apply sort_by_date_perm|].
  intros d. apply sort_by_date_stable.
Qed.

Lemma history_keeps_window_witness :
  exists ms,
    get_measurement_history (good readings) "S1" (Some "2024-01-01"%string) None
    = HMeasurements "S1" (Some "2024-01-01"%string) None (length ms) ms /\
    ms ≡ₚ kept (Some "2024-01-01"%string) None readings /\
    forall d, filter (fun m => date m = d) ms
              = filter (fun m => date m = d) (kept (Some "2024-01-01"%string) None readings).
Proof.
  apply (history_keeps_window {| success := SBool true; records := Some readings |}
           readings "S1" (Some "2024-01-01"%string) None); [reflexivity|reflexivity|].
  repeat constructor; intros v Hv; vm_compute in Hv; injection Hv as <-; eauto.
Defined.

(** X11.  One reading whose date is no text (null, a number) makes the
    whole call an error, whatever the window. *)
Theorem history_fails_on_untyped_date (data : body) (rs : list object) (r : object)
    (v : scalar) site s e :
  truthy (success data) = true -> records data = Some rs ->
  r ∈ rs -> r !! "msmt_date"%string = Some v -> (forall t, v <> SStr t) ->
  get_measurement_history (Some {| status_code := 200; json := Some data |}) site s e
  = HError (Exception TypeError).
Proof.
  intros Hs Hrs Hin Hv Hbad. unfold get_measurement_history.
  cbn [status_code json Z.eqb negb]. rewrite Hs, Hrs. cbn [negb].
  rewrite (collect_raises s e rs r Hin); [reflexivity|].
  intros d Hd. assert (Hex : exists d, msmt_date r = Ok d) by eauto.
  destruct (proj1 (msmt_date_text r) Hex v Hv) as [t ->]. now apply (Hbad t).
Qed.

Lemma history_fails_on_untyped_date_witness :
  get_measurement_history (good undated) "S1" None None = HError (Exception TypeError).
Proof.
  apply (history_fails_on_untyped_date
           {| success := SBool true; records := Some undated |} undated
           {[ "msmt_date"%string := SNull; "gse_gwe"%string := SStr "12.5" ]} SNull).
  - reflexivity.
  - reflexivity.
  - constructor.
  - vm_compute. reflexivity.
  - discriminate.
Defined.

End HistoryFacts.

Module DistributionFacts.
Import Json CadwrGwinfo.

Lemma total_insert (counts : gmap string Z) (k : string) (n : Z) :
  counts !! k = None -> total (<[k := n]> counts) = n + total counts.
Proof.
  intros Hk. unfold total.
  rewrite (map_fold_insert_L (fun _ n acc => n + acc)); [reflexivity| |exact Hk].
  intros; cbv beta. apply Z.add_shuffle3.
Qed.

Lemma total_step (counts : gmap string Z) (k : string) :
  total (<[k := default 0 (counts !! k) + 1]> counts) = total counts + 1.
Proof.
  destruct (counts !! k) as [n|] eqn:Hk;
    [change (default 0 (Some n)) with n|change (default 0 (@None Z)) with 0].
  - assert (Hl : total (<[k := n + 1]> counts) = n + 1 + total (delete k counts)).
    { rewrite <- insert_delete_eq. apply total_insert, lookup_delete_eq. }
    assert (Hr : total counts = n + total (delete k counts)).
    { rewrite <- (insert_delete_id counts k n Hk) at 1.
      apply total_insert, lookup_delete_eq. }
    lia.
  - rewrite total_insert by exact Hk. lia.
Qed.

Lemma count_classes_snoc (classes : list (option string)) (c : option string) :
  count_classes (classes ++ [c])
  = <[class_key c := default 0 (count_classes classes !! class_key c) + 1]>
      (count_classes classes).
Proof. unfold count_classes. now rewrite foldl_app. Qed.

(** X12.  The class distribution is an exact histogram: a class is a key
    when some well has it, with the number of those wells; wells without a
    class (null or empty) are counted under [Unknown], the empty string is no
    key, and the counts add up to the number of wells. *)
Theorem class_distribution_counts (classes : list (option string)) :
  (forall k : string,
     count_classes classes !! k
     = match length (filter (fun c => class_key c = k) classes) with
       | O => None
       | S n => Some (Z.of_nat (S n))
       end) /\
  count_classes classes !! ""%string = None /\
  total (count_classes classes) = Z.of_nat (length classes).
Proof.
  assert (Hcount : forall k : string,
            count_classes classes !! k
            = match length (filter (fun c => class_key c = k) classes) with
              | O => None
              | S n => Some (Z.of_nat (S n))
              end).
  { induction classes as [|c classes IH] using rev_ind; intros k; [reflexivity|].
    rewrite count_classes_snoc, filter_app, length_app, filter_cons, filter_nil.
    destruct (decide (class_key c = k)) as [->|Hne].
    - rewrite lookup_insert_eq, IH. cbn [length].
      destruct (length (filter _ classes)) as [|n]; [reflexivity|].
      replace (S n + 1)%nat with (S (S n)) by lia.
      change (default 0 (Some (Z.of_nat (S n)))) with (Z.of_nat (S n)).
      f_equal. lia.
    - rewrite lookup_insert_ne by assumption. rewrite IH. cbn [length].
      now rewrite Nat.add_0_r. }
  split; [exact Hcount|]. split.
  - rewrite Hcount. replace (filter _ classes) with (@nil (option string)); [reflexivity|].
    symmetry. clear Hcount. induction classes as [|c classes IH]; [reflexivity|].
    rewrite filter_cons, decide_False; [exact IH|].
    unfold class_key. destruct c as [s|]; [|discriminate].
    destruct (String.eqb_spec s ""); [discriminate|assumption].
  - clear Hcount. induction classes as [|c classes IH] using rev_ind; [reflexivity|].
    rewrite count_classes_snoc, total_step, IH, length_app. cbn [length]. lia.
Qed.

End DistributionFacts.

Module FetchFacts.
Import Json CadwrGwinfo MapService MapData ClassifierFacts ClassifierSpec ClassifierRanks HistoryFacts.

Section Fetch.
Context {V : Type} `{PyOrd V}.
Implicit Types (w : well V) (r : ranked V) (p : point V)
  (points : list (point V)) (series : gmap string site_series).

(** The index gives the last well of a code. *)
Lemma index_by_site_lookup (rs : list (ranked V)) (k : option string) :
  index_by_site rs !! k = last (filter (fun r => r_site_code r = k) rs).
Proof.
  unfold index_by_site.
  enough (Hgen : forall m : gmap (option string) (ranked V),
             foldl (fun acc (x : ranked V) => <[r_site_code x := x]> acc) m rs !! k
             = match last (filter (fun r => r_site_code r = k) rs) with
               | Some r => Some r
               | None => m !! k
               end).
  { rewrite Hgen, lookup_empty. now destruct (last _). }
  induction rs as [|r rs IH]; intros m; [reflexivity|].
  cbn [foldl]. rewrite IH, filter_cons.
  destruct (decide (r_site_code r = k)) as [<-|Hne].
  - rewrite lookup_insert_eq.
    destruct (filter _ rs) as [|x l] eqn:Hf; [reflexivity|].
    rewrite last_cons_cons.
    destruct (last (x :: l)) eqn:E; [reflexivity|]. now apply last_None in E.
  - now rewrite lookup_insert_ne.
Qed.

Lemma label_nonempty (depth : V) (valid : list (Z * V)) label rank :
  outcome depth valid (Some label, rank) -> String.eqb label "" = false.
Proof.
  intros Ho. apply String.eqb_neq.
  inversion Ho as [i l k _ Hc| | |]; subst; try discriminate.
  unfold class_at in Hc.
  destruct (valid !! i) as [[p1 v1]|]; [|discriminate].
  destruct (valid !! S i) as [[p2 v2]|]; [|discriminate].
  injection Hc as <- _. destruct (str_of_int p1); discriminate.
Qed.

(** The point of a well: the dict of its fields, with the class computed
    again where the classifier gives one. *)
Lemma point_of_cases (c : string) w (info : option (ranked V)) :
  exists p, point_of c w info = Ok p /\
    match info, w_depth_ft w with
    | Some r, Some d =>
        exists label rank,
          calculate_percentile_class (Some d) (table_of r) = Ok (label, rank) /\
          p = match label with
              | Some l => with_class (point_info_of c w info) (Some l)
              | None => point_info_of c w info
              end
    | _, _ => p = point_info_of c w info
    end.
Proof.
  unfold point_of. cbn [depth_ft point_info_of].
  destruct info as [r|]; [|eauto]. destruct (w_depth_ft w) as [d|] eqn:Hd; [|eauto].
  cbn [calculate_percentile_class].
  destruct (classify_valid_outcome d (valid_of (boundaries (table_of r))))
    as ([label rank] & Hc & Ho).
  rewrite Hc. cbn [mbind result_bind Py.bind].
  destruct label as [l|].
  - rewrite (label_nonempty _ _ _ _ Ho). cbn [negb]. eauto 6.
  - eauto 6.
Qed.

Lemma point_of_frame (c : string) w info p :
  point_of c w info = Ok p ->
  with_class p None = with_class (point_info_of c w info) None.
Proof.
  intros Hp. destruct (point_of_cases c w info) as (p' & Hp' & Hcase).
  rewrite Hp in Hp'. injection Hp' as <-.
  destruct info as [r|]; [|now subst]. destruct (w_depth_ft w); [|now subst].
  destruct Hcase as (label & rank & _ & ->). now destruct label.
Qed.

(** The points of the wells: one for each well with a code and both
    coordinates, in the order of the wells. *)
Lemma points_of_spec (pct_wells : gmap (option string) (ranked V)) (wells : list (well V)) :
  exists points,
    points_of pct_wells wells = Ok points /\
    Forall2 (fun w p => exists c, located w = Some c /\
                                  point_of c w (pct_wells !! Some c) = Ok p)
      (filter (fun w => is_Some (located w)) wells) points.
Proof.
  induction wells as [|w wells (points & Hps & IH)]; [exists []; split; [reflexivity|constructor]|].
  cbn [points_of]. rewrite filter_cons.
  destruct (located w) as [c|] eqn:Hloc.
  - rewrite decide_True by eauto. pose proof Hloc as Hloc'. unfold located in Hloc.
    destruct (w_site_code w) as [c'|]; [|discriminate].
    destruct (w_lat w) as [la|]; [|discriminate].
    destruct (w_lon w) as [lo|]; [|discriminate].
    destruct (String.eqb c' "") eqn:Hne; [discriminate|]. injection Hloc as ->.
    destruct (point_of_cases c w (pct_wells !! Some c)) as (p & Hp & _).
    rewrite Hp, Hps. cbn [mbind result_bind Py.bind].
    eexists. split; [reflexivity|]. constructor; [|exact IH]. exists c. now split.
  - rewrite decide_False by (intros [? ?]; discriminate). unfold located in Hloc.
    exists points. split; [|exact IH].
    destruct (w_site_code w) as [c'|]; [|exact Hps].
    destruct (w_lat w) as [la|]; [|exact Hps].
    destruct (w_lon w) as [lo|]; [|exact Hps].
    destruct (String.eqb c' ""); [exact Hps|discriminate].
Qed.

Lemma mapM_fmap {A B} (f : A -> result B) (g : A -> B) (xs : list A) :
  Forall (fun x => f x = Ok (g x)) xs -> mapM f xs = Ok (g <$> xs).
Proof. induction 1 as [|x xs Hx _ IH]; cbn [mapM]; [reflexivity|]. now rewrite Hx, IH. Qed.

(** The dates of the valid readings are dates of the measurements, in their
    order. *)
Lemma valid_data_dates (ms : list measurement) valid :
  valid_data ms = Ok valid ->
  valid.*1 = date <$> filter (fun m => truthy (py_or (CadwrGwinfo.depth_ft m)
                                                   (CadwrGwinfo.gwe_ft m)) = true) ms.
Proof.
  unfold valid_data. generalize (filter (fun m => truthy (py_or (CadwrGwinfo.depth_ft m)
                                                   (CadwrGwinfo.gwe_ft m)) = true) ms).
  intros l. revert valid. induction l as [|m l IH]; intros valid; cbn [mapM].
  - now intros [= <-].
  - destruct (reading m) as [v|]; cbn [mbind result_bind Py.bind]; [|discriminate].
    destruct (mapM _ l) as [vs|]; [|discriminate]. intros [= <-].
    cbn. f_equal. now apply IH.
Qed.

(** With a depth in every measurement the valid readings are the depths. *)
Lemma valid_data_depths (ms : list measurement) :
  Forall (fun m => truthy (CadwrGwinfo.depth_ft m) = true) ms ->
  valid_data ms = Ok ((fun m => (date m, CadwrGwinfo.depth_ft m)) <$> ms).
Proof.
  intros Hall. unfold valid_data.
  assert (Hf : filter (fun m => truthy (py_or (CadwrGwinfo.depth_ft m)
                                          (CadwrGwinfo.gwe_ft m)) = true) ms = ms).
  { induction Hall as [|m ms Hm _ IH]; [reflexivity|].
    rewrite filter_cons, decide_True, IH; [reflexivity|].
    unfold py_or. now rewrite Hm. }
  rewrite Hf. apply mapM_fmap. eapply Forall_impl; [exact Hall|].
  intros m Hm. unfold reading. now rewrite Hm.
Qed.

Lemma measurements_sorted (reply : option response) (site : string)
    (start_date end_date : option string) :
  StronglySorted date_le
    (measurements_of (get_measurement_history reply site start_date end_date)).
Proof.
  destruct (get_measurement_history _ _ _ _) as [|site' s' e' n ms] eqn:Hh; [constructor|].
  apply history_inversion in Hh as (data & rs & ? & ? & ? & ? & ? & ? & ? & ? & Hms).
  rewrite Hms. apply sort_by_date_sorted.
Qed.

(** What [site_update] stores: the valid readings, which are not empty. *)
Lemma site_update_series (h : history) sr c :
  site_update h = Some (sr, c) ->
  exists valid, valid_data (measurements_of h) = Ok valid /\ valid <> [] /\
                dates sr = valid.*1 /\ values sr = valid.*2.
Proof.
  unfold site_update. destruct (measurements_of h) as [|m ms]; [discriminate|].
  destruct (valid_data (m :: ms)) as [[|first valid]|]; try discriminate.
  intros [= <- _]. eexists. split; [reflexivity|]. split; [discriminate|]. split; reflexivity.
Qed.

Section Pass.
Variables (reply : nat -> string -> option response) (start_date end_date : option string).

#[local] Abbreviation history_at i site :=
  (get_measurement_history (reply i site) site start_date end_date).

(** One step of the second loop, by what the [try] block writes. *)
Lemma visit_unfold points series (i : nat) :
  visit reply start_date end_date (points, series) i
  = match points !! i with
    | None => (points, series)
    | Some p =>
        match site_update (history_at i (site_no p)) with
        | None => (points, series)
        | Some (sr, c) =>
            (match c with
             | Some c => <[i := with_change p c]> points
             | None => points
             end, <[site_no p := sr]> series)
        end
    end.
Proof.
  unfold visit, site_update. destruct (points !! i) as [p|]; [|reflexivity].
  destruct (measurements_of _) as [|m ms]; [reflexivity|].
  destruct (valid_data (m :: ms)) as [[|first valid]|]; try reflexivity.
  destruct (2 <=? _); [|reflexivity].
  destruct (last (first :: valid)) as [final|]; [|reflexivity].
  cbn [head]. now destruct (sub _ _).
Qed.

Lemma pass_invariant (points0 : list (point V)) (n : nat) :
  let st := foldl (visit reply start_date end_date) (points0, ∅) (seq 0 n) in
  length st.1 = length points0 /\
  (forall j p0, points0 !! j = Some p0 -> st.1 !! j = Some (after reply start_date end_date n j p0)) /\
  (forall site sr, st.2 !! site = Some sr ->
     exists j p0 c, (j < n)%nat /\ points0 !! j = Some p0 /\ site_no p0 = site /\
                    site_update (history_at j site) = Some (sr, c)) /\
  (forall j p0 sr c, (j < n)%nat -> points0 !! j = Some p0 ->
     site_update (history_at j (site_no p0)) = Some (sr, c) ->
     is_Some (st.2 !! site_no p0) /\
     ((forall j' p', (j < j' < n)%nat -> points0 !! j' = Some p' ->
                     site_no p' <> site_no p0) ->
      st.2 !! site_no p0 = Some sr)).
Proof.
  induction n as [|n IH]; cbn zeta.
  - cbn [seq foldl fst snd]. split; [reflexivity|]. split.
    { intros j p0 Hj. unfold after. now rewrite decide_False by lia. }
    split; [intros site sr; rewrite lookup_empty; discriminate|]. intros; lia.
  - rewrite seq_S, foldl_app. cbn [foldl Nat.add].
    cbn zeta in IH. destruct (foldl _ _ (seq 0 n)) as [points series].
    cbn [fst snd] in IH. destruct IH as (Hlen & Hpts & Hfrom & Hto).
    rewrite visit_unfold.
    destruct (points !! n) as [p|] eqn:Hn.
    2:{ cbn [fst snd]. apply lookup_ge_None in Hn.
        split; [exact Hlen|]. split.
        { intros j p0 Hj. rewrite (Hpts j p0 Hj). f_equal. unfold after.
          pose proof (lookup_lt_Some _ _ _ Hj).
          destruct (decide (j < n)%nat), (decide (j < S n)%nat); try reflexivity; lia. }
        split.
        { intros site sr Hs. destruct (Hfrom site sr Hs) as (j & p0 & c & ? & ?).
          exists j, p0, c. split; [lia|assumption]. }
        intros j p0 sr c Hj Hp0 Hu. pose proof (lookup_lt_Some _ _ _ Hp0).
        assert (Hjn : (j < n)%nat) by lia.
        destruct (Hto j p0 sr c Hjn Hp0 Hu) as [Hsome Huniq].
        split; [exact Hsome|]. intros Hlater. apply Huniq.
        intros j' p' Hj'. apply Hlater. lia. }
    assert (Hp0 : points0 !! n = Some p).
    { destruct (points0 !! n) as [p0|] eqn:H0.
      - rewrite (Hpts n p0 H0) in Hn. unfold after in Hn.
        rewrite decide_False in Hn by lia. congruence.
      - apply lookup_ge_None in H0. apply lookup_lt_Some in Hn. lia. }
    destruct (site_update (history_at n (site_no p))) as [[sr c]|] eqn:Hu; cbn [fst snd].
    + split; [destruct c; now rewrite ?length_insert|]. split.
      { intros j p0 Hj. unfold after. destruct (decide (j = n)) as [->|Hne].
        - rewrite Hp0 in Hj. injection Hj as <-.
          rewrite decide_True by lia. rewrite Hu. destruct c as [c|]; [|exact Hn].
          apply list_lookup_insert_eq. apply lookup_lt_Some in Hn. exact Hn.
        - assert (Hold : points !! j = Some (after reply start_date end_date n j p0)) by now apply Hpts.
          replace (match c with Some c0 => <[n:=with_change p c0]> points | None => points end
                   !! j) with (points !! j)
            by (destruct c; [now rewrite list_lookup_insert_ne|reflexivity]).
          rewrite Hold. f_equal. unfold after.
          destruct (decide (j < n)%nat), (decide (j < S n)%nat); try reflexivity; lia. }
      split.
      { intros site sr'. destruct (decide (site_no p = site)) as [<-|Hne].
        - rewrite lookup_insert_eq. intros [= <-]. exists n, p, c. repeat split; auto.
        - rewrite lookup_insert_ne by assumption. intros Hs.
          destruct (Hfrom site sr' Hs) as (j & p0 & c' & ? & ?).
          exists j, p0, c'. split; [lia|assumption]. }
      intros j p0 sr' c' Hj Hj0 Hu'. destruct (decide (j = n)) as [->|Hne].
      * rewrite Hp0 in Hj0. injection Hj0 as <-. rewrite Hu in Hu'. injection Hu' as <- <-.
        rewrite lookup_insert_eq. split; [eauto|reflexivity].
      * assert (Hjn : (j < n)%nat) by lia.
        destruct (Hto j p0 sr' c' Hjn Hj0 Hu') as [Hsome Huniq].
        destruct (decide (site_no p = site_no p0)) as [Heq|Hdiff].
        -- rewrite Heq, lookup_insert_eq. split; [eauto|].
           intros Hlater. exfalso. apply (Hlater n p); [lia|exact Hp0|exact Heq].
        -- rewrite lookup_insert_ne by assumption. split; [exact Hsome|].
           intros Hlater. apply Huniq. intros j' p' Hj'. apply Hlater. lia.
    + split; [exact Hlen|]. split.
      { intros j p0 Hj. rewrite (Hpts j p0 Hj). f_equal. unfold after.
        destruct (decide (j = n)) as [->|Hne].
        - rewrite Hp0 in Hj. injection Hj as <-.
          rewrite decide_False by lia. rewrite decide_True by lia. now rewrite Hu.
        - destruct (decide (j < n)%nat), (decide (j < S n)%nat); try reflexivity; lia. }
      split.
      { intros site sr Hs. destruct (Hfrom site sr Hs) as (j & p0 & c & ? & ?).
        exists j, p0, c. split; [lia|assumption]. }
      intros j p0 sr c Hj Hj0 Hu'. destruct (decide (j = n)) as [->|Hne].
      * rewrite Hp0 in Hj0. injection Hj0 as <-. rewrite Hu in Hu'. discriminate.
      * assert (Hjn : (j < n)%nat) by lia.
        destruct (Hto j p0 sr c Hjn Hj0 Hu') as [Hsome Huniq].
        split; [exact Hsome|]. intros Hlater. apply Huniq.
        intros j' p' Hj'. apply Hlater. lia.
Qed.

Lemma after_frame (n j : nat) (p0 : point V) :
  with_change (after reply start_date end_date n j p0) (SInt 0) = with_change p0 (SInt 0).
Proof.
  unfold after. destruct (decide _); [|reflexivity].
  now destruct (site_update _) as [[sr [c|]]|].
Qed.

(** The loop changes no field of a point but [change]. *)
Lemma pass_frame (points0 : list (point V)) (n : nat) :
  (fun p => with_change p (SInt 0))
    <$> (foldl (visit reply start_date end_date) (points0, ∅) (seq 0 n)).1
  = (fun p => with_change p (SInt 0)) <$> points0.
Proof.
  destruct (pass_invariant points0 n) as (Hlen & Hpts & _).
  apply list_eq. intros j. rewrite !list_lookup_fmap.
  destruct (points0 !! j) as [p0|] eqn:Hj.
  - rewrite (Hpts j p0 Hj). cbn. now rewrite after_frame.
  - apply lookup_ge_None in Hj. rewrite lookup_ge_None_2; [reflexivity|]. now rewrite Hlen.
Qed.

End Pass.

(** The whole function: the points of the wells, then the loop over the
    first fifty when both dates are given. *)
Lemma fetch_spec (levels : option (list (well V))) (percentiles : option (list (ranked V)))
    (reply : nat -> string -> option response) (start_date end_date : option string) :
  exists points1,
    points_of (index_by_site (default [] percentiles)) (default [] levels) = Ok points1 /\
    Forall2 (fun w p => exists c, located w = Some c /\
               point_of c w (index_by_site (default [] percentiles) !! Some c) = Ok p)
      (filter (fun w => is_Some (located w)) (default [] levels)) points1 /\
    fetch_cadwr_data levels percentiles reply start_date end_date
    = Ok (foldl (visit reply start_date end_date) (points1, ∅)
            (seq 0 (if given start_date && given end_date
                    then Nat.min 50 (length points1) else 0%nat))).
Proof.
  destruct (points_of_spec (index_by_site (default [] percentiles)) (default [] levels))
    as (points1 & Hps & Hall).
  exists points1. split; [exact Hps|]. split; [exact Hall|].
  unfold fetch_cadwr_data. destruct levels as [[|w wells]|];
    [change (default [] (Some [])) with (@nil (well V)) in *
    |change (default [] (Some (w :: wells))) with (w :: wells) in *
    |change (default [] None) with (@nil (well V)) in *].
  - injection Hps as <-. now destruct (given start_date && given end_date).
  - rewrite Hps. cbn [mbind result_bind Py.bind].
    destruct (given start_date && given end_date); cbn [andb]; [|reflexivity].
    destruct points1 as [|p ps]; [reflexivity|].
    rewrite bool_decide_eq_false_2 by discriminate. reflexivity.
  - injection Hps as <-. now destruct (given start_date && given end_date).
Qed.

Lemma built_points (pct_wells : gmap (option string) (ranked V)) (wells : list (well V))
    points :
  Forall2 (fun w p => exists c, located w = Some c /\
             point_of c w (pct_wells !! Some c) = Ok p)
    (filter (fun w => is_Some (located w)) wells) points ->
  site_no <$> points = omap located wells /\
  Forall (fun p => site_no p <> ""%string /\ is_Some (lat p) /\ is_Some (lon p)) points.
Proof.
  revert points. induction wells as [|w wells IH]; intros points.
  - rewrite filter_nil. intros ->%Forall2_nil_inv_l. split; [reflexivity|constructor].
  - rewrite filter_cons. cbn [omap list_omap]. fold (omap located wells).
    destruct (located w) as [c|] eqn:Hloc.
    + rewrite decide_True by eauto.
      intros (p & ps & (c' & Hc' & Hp) & Hrest & ->)%Forall2_cons_inv_l.
      rewrite Hloc in Hc'. injection Hc' as <-. destruct (IH ps Hrest) as [Hsites Hall].
      pose proof (point_of_frame _ _ _ _ Hp) as Hframe.
      assert (Hs : site_no p = c) by exact (f_equal site_no Hframe).
      assert (Hla : lat p = w_lat w) by exact (f_equal lat Hframe).
      assert (Hlo : lon p = w_lon w) by exact (f_equal lon Hframe).
      split; [cbn [fmap list_fmap]; now rewrite Hs, <- Hsites|].
      constructor; [|exact Hall]. rewrite Hs, Hla, Hlo. unfold located in Hloc.
      destruct (w_site_code w) as [c'|]; [|discriminate].
      destruct (w_lat w); [|discriminate]. destruct (w_lon w); [|discriminate].
      destruct (String.eqb c' "") eqn:Hne; [discriminate|]. injection Hloc as ->.
      apply String.eqb_neq in Hne. eauto.
    + rewrite decide_False by (intros [? ?]; discriminate). apply IH.
Qed.

(** X13.  [fetch_cadwr_data] raises nothing, whatever the three services
    answer.  Its points are the wells that have a site code and both
    coordinates, in the order of the wells: no point lacks a coordinate, and
    a reply with an error or without wells gives no point. *)
Theorem fetch_points (levels : option (list (well V))) (percentiles : option (list (ranked V)))
    (reply : nat -> string -> option response) (start_date end_date : option string) :
  exists points series,
    fetch_cadwr_data levels percentiles reply start_date end_date = Ok (points, series) /\
    site_no <$> points = omap located (default [] levels) /\
    Forall (fun p => site_no p <> ""%string /\ is_Some (lat p) /\ is_Some (lon p)) points.
Proof.
  destruct (fetch_spec levels percentiles reply start_date end_date)
    as (points1 & _ & Hall & ->).
  set (n := if given start_date && given end_date then _ else _).
  pose proof (pass_frame reply start_date end_date points1 n) as Hframe.
  destruct (foldl _ _ _) as [points series]. cbn [fst] in Hframe.
  exists points, series. split; [reflexivity|].
  destruct (built_points _ _ _ Hall) as [Hsites Hcoords].
  assert (Hsame : forall (B : Type) (f : point V -> B),
             (forall p, f (with_change p (SInt 0)) = f p) ->
             f <$> points = f <$> points1).
  { intros B f Hf.
    transitivity (f <$> ((fun p => with_change p (SInt 0)) <$> points)).
    - rewrite <- list_fmap_compose. apply list_fmap_ext. intros; cbn. now rewrite Hf.
    - rewrite Hframe, <- list_fmap_compose. apply list_fmap_ext. intros; cbn. now rewrite Hf. }
  split; [now rewrite (Hsame _ site_no) by reflexivity|].
  apply Forall_fmap with (f := fun p => (site_no p, lat p, lon p))
                         (P := fun t => t.1.1 <> ""%string /\ is_Some t.1.2 /\ is_Some t.2).
  rewrite (Hsame _ (fun p => (site_no p, lat p, lon p))) by reflexivity.
  apply Forall_fmap. exact Hcoords.
Qed.

Lemma fmap_eq_Forall2 {A B} (f : A -> B) (l k : list A) :
  f <$> l = f <$> k -> Forall2 (fun a b => f a = f b) l k.
Proof.
  revert k. induction l as [|a l IH]; intros [|b k]; cbn; try discriminate.
  - constructor.
  - intros [= Hab Hlk]. constructor; auto.
Qed.

(** How the class of a point comes about. *)
Lemma point_of_class (percentiles : list (ranked V)) (c : string) w p :
  point_of c w (index_by_site percentiles !! Some c) = Ok p ->
  site_no p = c /\ change p = SInt 0 /\
  match last (filter (fun r => r_site_code r = Some c) percentiles), w_depth_ft w with
  | Some r, Some d =>
      exists label rank,
        calculate_percentile_class (Some d) (table_of r) = Ok (label, rank) /\
        percentile_class p = match label with
                             | Some l => Some l
                             | None => r_percentile_class r
                             end
  | Some r, None => percentile_class p = r_percentile_class r
  | None, _ => percentile_class p = Some ""%string
  end.
Proof.
  intros Hp. pose proof (point_of_frame _ _ _ _ Hp) as Hframe.
  split; [exact (f_equal site_no Hframe)|]. split; [exact (f_equal change Hframe)|].
  destruct (point_of_cases c w (index_by_site percentiles !! Some c)) as (p' & Hp' & Hcase).
  rewrite Hp in Hp'. injection Hp' as <-.
  rewrite index_by_site_lookup in Hcase.
  destruct (last _) as [r|]; [|now subst].
  destruct (w_depth_ft w) as [d|]; [|now subst].
  destruct Hcase as (label & rank & Hc & ->). exists label, rank. split; [exact Hc|].
  now destruct label.
Qed.

(** X14.  The class of a point: where the percentile reply has the site
    (its last entry of that code) and the well has a depth, the class the
    classifier computes from them, and the class of the reply when the
    classifier finds none; the class of the reply when the well has no
    depth; the empty string when the reply lacks the site. *)
Theorem fetch_classes (levels : option (list (well V))) (percentiles : option (list (ranked V)))
    (reply : nat -> string -> option response) (start_date end_date : option string) :
  exists points series,
    fetch_cadwr_data levels percentiles reply start_date end_date = Ok (points, series) /\
    Forall2
      (fun w p =>
         match last (filter (fun r => r_site_code r = Some (site_no p))
                       (default [] percentiles)), w_depth_ft w with
         | Some r, Some d =>
             exists label rank,
               calculate_percentile_class (Some d) (table_of r) = Ok (label, rank) /\
               percentile_class p = match label with
                                    | Some l => Some l
                                    | None => r_percentile_class r
                                    end
         | Some r, None => percentile_class p = r_percentile_class r
         | None, _ => percentile_class p = Some ""%string
         end)
      (filter (fun w => is_Some (located w)) (default [] levels)) points.
Proof.
  destruct (fetch_spec levels percentiles reply start_date end_date)
    as (points1 & _ & Hall & ->).
  set (n := if given start_date && given end_date then _ else _).
  pose proof (pass_frame reply start_date end_date points1 n) as Hframe.
  destruct (foldl _ _ _) as [points series]. cbn [fst] in Hframe.
  exists points, series. split; [reflexivity|].
  symmetry in Hframe. apply fmap_eq_Forall2 in Hframe.
  eapply Forall2_trans; [|exact Hall|exact Hframe].
  intros w p1 p (c & _ & Hp) Heq. cbn in Heq.
  destruct (point_of_class _ _ _ _ Hp) as (Hsite & _ & Hclass).
  rewrite <- (f_equal site_no Heq : site_no p1 = site_no p).
  rewrite <- (f_equal percentile_class Heq : percentile_class p1 = percentile_class p).
  now rewrite Hsite.
Qed.

(** X15.  The time series leave the points in place: only the first fifty
    can get a [change], and only when both dates are given; a site has a
    series only if it is among those fifty, and a series is never empty,
    has as many dates as values, and its dates ascend; a point whose
    [change] is not the initial 0 has a series. *)
Theorem fetch_series (levels : option (list (well V))) (percentiles : option (list (ranked V)))
    (reply : nat -> string -> option response) (start_date end_date : option string) :
  exists points series,
    fetch_cadwr_data levels percentiles reply start_date end_date = Ok (points, series) /\
    (forall i p, points !! i = Some p -> (50 <= i)%nat -> change p = SInt 0) /\
    (given start_date && given end_date = false ->
     series = ∅ /\ Forall (fun p => change p = SInt 0) points) /\
    (forall site sr, series !! site = Some sr ->
       dates sr <> [] /\ length (dates sr) = length (values sr) /\
       StronglySorted str_le (dates sr) /\
       exists i p, (i < 50)%nat /\ points !! i = Some p /\ site_no p = site) /\
    (forall i p, points !! i = Some p -> change p <> SInt 0 ->
       is_Some (series !! site_no p)).
Proof.
  destruct (fetch_spec levels percentiles reply start_date end_date)
    as (points1 & _ & Hall & ->).
  set (n := if given start_date && given end_date then _ else _).
  assert (Hn : (n <= 50)%nat) by (subst n; destruct (_ && _); lia).
  assert (Hn0 : given start_date && given end_date = false -> n = 0%nat)
    by (subst n; now intros ->).
  assert (Hzero : forall j p0, points1 !! j = Some p0 -> change p0 = SInt 0).
  { intros j p0 Hj. destruct (Forall2_lookup_r _ _ _ _ _ Hall Hj) as (w & _ & c & _ & Hp).
    exact (f_equal change (point_of_frame _ _ _ _ Hp)). }
  destruct (pass_invariant reply start_date end_date points1 n) as (Hlen & Hpts & Hfrom & Hto).
  cbn zeta in *. clearbody n.
  destruct (foldl _ _ _) as [points series]. cbn [fst snd] in *.
  exists points, series. split; [reflexivity|].
  assert (Hback : forall i p, points !! i = Some p ->
            exists p0, points1 !! i = Some p0 /\
                       p = after reply start_date end_date n i p0).
  { intros i p Hi. destruct (points1 !! i) as [p0|] eqn:H0.
    - exists p0. split; [reflexivity|]. rewrite (Hpts i p0 H0) in Hi. congruence.
    - apply lookup_ge_None in H0. apply lookup_lt_Some in Hi. lia. }
  assert (Hsite : forall i p0, site_no (after reply start_date end_date n i p0) = site_no p0).
  { intros i p0. exact (f_equal site_no (after_frame reply start_date end_date n i p0)). }
  split; [|split; [|split]].
  - intros i p Hi Hge. destruct (Hback i p Hi) as (p0 & H0 & ->).
    unfold after. rewrite decide_False by lia. eauto.
  - intros Hnot. specialize (Hn0 Hnot). subst n. split.
    + apply map_eq. intros site. rewrite lookup_empty.
      destruct (series !! site) as [sr|] eqn:Hs; [|reflexivity].
      destruct (Hfrom site sr Hs) as (j & _ & _ & Hj & _). lia.
    + apply Forall_lookup. intros i p Hi. destruct (Hback i p Hi) as (p0 & H0 & ->).
      unfold after. rewrite decide_False by lia. eauto.
  - intros site sr Hs. destruct (Hfrom site sr Hs) as (j & p0 & c & Hj & H0 & Hc & Hu).
    destruct (site_update_series _ _ _ Hu) as (valid & Hv & Hne & Hd & Hvs).
    split; [rewrite Hd; now destruct valid|].
    split; [now rewrite Hd, Hvs, !length_fmap|]. split.
    + rewrite Hd, (valid_data_dates _ _ Hv).
      apply (StronglySorted_map date date_le str_le); [now intros|].
      apply StronglySorted_filter, measurements_sorted.
    + exists j, (after reply start_date end_date n j p0).
      split; [lia|]. split; [now apply Hpts|]. now rewrite Hsite.
  - intros i p Hi Hch. destruct (Hback i p Hi) as (p0 & H0 & ->).
    rewrite Hsite. unfold after in Hch. destruct (decide (i < n)%nat) as [Hlt|];
      [|now rewrite (Hzero i p0 H0) in Hch].
    destruct (site_update _) as [[sr [c|]]|] eqn:Hu;
      try (now rewrite (Hzero i p0 H0) in Hch).
    exact (proj1 (Hto i p0 sr (Some c) Hlt H0 Hu)).
Qed.

End Fetch.
End FetchFacts.

Module FetchChange.
Import Json CadwrGwinfo MapService MapData ClassifierFacts HistoryFacts FetchFacts Replies Wells.

Lemma str_leb_refl (a : string) : String.leb a a = true.
Proof. unfold String.leb. now rewrite str_compare_refl. Qed.

Lemma sorted_head_least (ms : list measurement) first :
  StronglySorted date_le ms -> head ms = Some first -> Forall (date_le first) ms.
Proof.
  intros Hs. destruct Hs as [|x l Hl Hx]; [discriminate|]. intros [= <-].
  constructor; [apply str_leb_refl|exact Hx].
Qed.

Lemma sorted_last_greatest (ms : list measurement) final :
  StronglySorted date_le ms -> last ms = Some final ->
  Forall (fun m => date_le m final) ms.
Proof.
  induction 1 as [|x l Hl IH Hx]; [constructor|].
  destruct l as [|y l']; cbn [last].
  - intros [= <-]. constructor; [apply str_leb_refl|constructor].
  - intros Hlast. constructor; [|now apply IH].
    rewrite List.Forall_forall in Hx. apply Hx.
    apply list_elem_of_In. rewrite last_lookup in Hlast.
    eapply list_elem_of_lookup_2, Hlast.
Qed.

(** With a depth in every measurement the block stores them all and
    subtracts the first from the last. *)
Lemma site_update_depths site s e n (ms : list measurement) first final :
  Forall (fun m => truthy (CadwrGwinfo.depth_ft m) = true) ms ->
  head ms = Some first -> last ms = Some final -> (2 <= length ms)%nat ->
  site_update (HMeasurements site s e n ms)
  = Some ({| dates := date <$> ms; values := CadwrGwinfo.depth_ft <$> ms |},
          match sub (CadwrGwinfo.depth_ft final) (CadwrGwinfo.depth_ft first) with
          | Ok c => Some c
          | Raise _ => None
          end).
Proof.
  intros Hall Hhead Hlast Hlen. unfold site_update. cbn [measurements_of].
  pose proof (valid_data_depths ms Hall) as Hv.
  destruct ms as [|m ms']; [discriminate|]. injection Hhead as ->.
  rewrite Hv. rewrite fmap_cons. cbv iota beta.
  set (g := fun m : measurement => (date m, CadwrGwinfo.depth_ft m)).
  change ((date first, CadwrGwinfo.depth_ft first) :: (g <$> ms')) with (g <$> first :: ms').
  replace (2 <=? Z.of_nat (length (g <$> first :: ms'))) with true
    by (symmetry; apply Z.leb_le; rewrite length_fmap; lia).
  rewrite fmap_last, Hlast. cbn [fmap option_fmap option_map snd g].
  rewrite <- !list_fmap_compose. reflexivity.
Qed.

Section Change.
Context {V : Type} `{PyOrd V}.

(** X16.  When both dates are given and every measurement of a site among
    the first fifty has a depth, the measurements run from the earliest date
    to the latest, and [change] is the latest depth minus the earliest: an
    int for two ints, a binary64 difference when one is a float, and the
    initial 0 when the subtraction raises, as it does on depths that are
    text.  The site has a series, and it holds every date and depth unless a
    later point of the same code replaces it. *)
Theorem change_is_latest_minus_earliest
    (levels : option (list (well V))) (percentiles : option (list (ranked V)))
    (reply : nat -> string -> option response) (start_date end_date : option string)
    (points : list (point V)) (series : gmap string site_series)
    (i : nat) (p : point V) site' s' e' n (ms : list measurement) first final :
  fetch_cadwr_data levels percentiles reply start_date end_date = Ok (points, series) ->
  given start_date && given end_date = true ->
  (i < 50)%nat -> points !! i = Some p ->
  get_measurement_history (reply i (site_no p)) (site_no p) start_date end_date
  = HMeasurements site' s' e' n ms ->
  Forall (fun m => truthy (CadwrGwinfo.depth_ft m) = true) ms ->
  head ms = Some first -> last ms = Some final -> (2 <= length ms)%nat ->
  Forall (fun m => date_le first m /\ date_le m final) ms /\
  change p = match sub (CadwrGwinfo.depth_ft final) (CadwrGwinfo.depth_ft first) with
             | Ok c => c
             | Raise _ => SInt 0
             end /\
  is_Some (series !! site_no p) /\
  ((forall j q, (i < j < 50)%nat -> points !! j = Some q -> site_no q <> site_no p) ->
   series !! site_no p
   = Some {| dates := date <$> ms; values := CadwrGwinfo.depth_ft <$> ms |}).
Proof.
  intros Hfetch Hgiven Hi Hp Hh Hall Hhead Hlast Hlen.
  split.
  { pose proof (measurements_sorted (reply i (site_no p)) (site_no p) start_date end_date)
      as Hs. rewrite Hh in Hs. cbn [measurements_of] in Hs.
    apply Forall_and. split; [now apply sorted_head_least|now apply sorted_last_greatest]. }
  destruct (fetch_spec levels percentiles reply start_date end_date)
    as (points1 & _ & Hbuilt & Hrun).
  rewrite Hgiven in Hrun. rewrite Hfetch in Hrun.
  set (k := Nat.min 50 (length points1)) in Hrun.
  assert (Hrun' : foldl (visit reply start_date end_date) (points1, ∅) (seq 0 k)
                  = (points, series)) by congruence.
  clear Hrun.
  assert (Hzero : forall j (p0 : point V), points1 !! j = Some p0 -> change p0 = SInt 0).
  { intros j p0 Hj. destruct (Forall2_lookup_r _ _ _ _ _ Hbuilt Hj) as (w & _ & c & _ & Hp0).
    exact (f_equal (@change V) (point_of_frame _ _ _ _ Hp0)). }
  destruct (pass_invariant reply start_date end_date points1 k) as (Hlength & Hpts & _ & Hto).
  cbn zeta in *. rewrite Hrun' in *. cbn [fst snd] in *.
  assert (Hsite : forall j (p0 : point V),
            site_no (after reply start_date end_date k j p0) = site_no p0).
  { intros j p0. exact (f_equal (@site_no V) (after_frame reply start_date end_date k j p0)). }
  assert (Hik : (i < k)%nat).
  { apply lookup_lt_Some in Hp. subst k. lia. }
  destruct (points1 !! i) as [p0|] eqn:H0;
    [|apply lookup_ge_None in H0; apply lookup_lt_Some in Hp; lia].
  rewrite (Hpts i p0 H0) in Hp. injection Hp as <-.
  rewrite Hsite in *.
  pose proof (site_update_depths site' s' e' n ms first final Hall Hhead Hlast Hlen) as Hu.
  rewrite <- Hh in Hu.
  split.
  { unfold after. rewrite decide_True by exact Hik. rewrite Hu.
    destruct (sub _ _) as [c|]; [reflexivity|eauto]. }
  destruct (Hto i p0 _ _ Hik H0 Hu) as [Hsome Huniq].
  split; [exact Hsome|]. intros Hlater. apply Huniq.
  intros j' p' Hj' H'. rewrite <- (Hsite j' p'). apply (Hlater j'); [subst k; lia|].
  now apply Hpts.
Qed.

End Change.

Lemma change_is_latest_minus_earliest_witness :
  exists points series p,
    fetch_cadwr_data (Some [well_a; well_b]) (Some [ranked_a]) (fun _ _ => good depths)
      year.1 year.2 = Ok (points, series) /\
    points !! 0%nat = Some p /\
    change p = SFloat (-1.5) /\ is_Some (series !! "S1"%string).
Proof.
  eexists _, _, _. split; [vm_compute; reflexivity|]. split; [reflexivity|].
  edestruct (change_is_latest_minus_earliest (V := float)
               (Some [well_a; well_b]) (Some [ranked_a]) (fun _ _ => good depths)
               year.1 year.2) as (_ & Hc & Hs & _).
  - vm_compute; reflexivity.
  - reflexivity.
  - instantiate (1 := 0%nat). lia.
  - reflexivity.
  - vm_compute; reflexivity.
  - repeat constructor.
  - reflexivity.
  - reflexivity.
  - cbn; lia.
  - split; [rewrite Hc; vm_compute; reflexivity|exact Hs].
Defined.

End FetchChange.

(** * The marker of the sites *)

Module MarkerFacts.
Import SF SFFacts F64Facts Json CadwrGwinfo MapData Marker FetchFacts.

(** The order of two ordered numbers is the order of their places. *)
Lemma SFltb_place (x y : spec_float) :
  valid_binary x = true -> valid_binary y = true ->
  x <> S754_nan -> y <> S754_nan ->
  SFltb x y = place_ltb (sf_place x) (sf_place y).
Proof.
  intros Vx Vy Nx Ny.
  destruct x as [sx|sx| |sx mx ex], y as [sy|sy| |sy my ey]; try congruence;
    try (unfold SFltb; rewrite SFcompare_units by (assumption || reflexivity);
         cbn [place_ltb sf_place]; unfold Z.ltb; now destruct (_ ?= _));
    try (destruct sx; reflexivity); try (destruct sy; reflexivity);
    try (destruct sx, sy; reflexivity).
Qed.

Lemma lt_place (a b : scalar) :
  ordered a -> ordered b -> lt a b = Ok (place_ltb (place_of a) (place_of b)).
Proof.
  assert (Hp : 0 < 2 ^ 1074) by (apply Z.pow_pos_nonneg; lia).
  destruct a as [| |m|x|], b as [| |n|y|]; cbn [ordered]; try easy; intros Ha Hb;
    cbn [lt as_num place_of].
  - f_equal. cbn [place_ltb]. apply eq_true_iff_eq. rewrite !Z.ltb_lt.
    split; intros; nia.
  - rewrite is_nan_spec in Hb. unfold int_lt_float.
    destruct (Prim2SF y) as [s|s| |s my ey]; try discriminate; try reflexivity.
    now destruct s.
  - rewrite is_nan_spec in Ha. unfold float_lt_int.
    destruct (Prim2SF x) as [s|s| |s mx ex]; try discriminate; try reflexivity.
    now destruct s.
  - rewrite is_nan_spec in Ha, Hb. rewrite FloatAxioms.ltb_spec. f_equal.
    pose proof (Prim2SF_valid x) as Vx. pose proof (Prim2SF_valid y) as Vy.
    rewrite (SFltb_place _ _ Vx Vy); [reflexivity| |];
      intros E; rewrite E in *; discriminate.
Qed.

Lemma place_ltb_trans p q r :
  place_ltb p q = true -> place_ltb q r = true -> place_ltb p r = true.
Proof.
  destruct p, q, r; cbn [place_ltb]; try easy; rewrite !Z.ltb_lt; lia.
Qed.

(** [p <= q] and [q <= r] give [p <= r], read on [<]. *)
Lemma place_le_trans p q r :
  place_ltb q p = false -> place_ltb r q = false -> place_ltb r p = false.
Proof.
  destruct p, q, r; cbn [place_ltb]; try easy; rewrite !Z.ltb_ge; lia.
Qed.

Lemma place_lt_le p q : place_ltb p q = true -> place_ltb q p = false.
Proof.
  destruct p, q; cbn [place_ltb]; try easy. rewrite Z.ltb_lt, Z.ltb_ge. lia.
Qed.

Lemma place_le_refl p : place_ltb p p = false.
Proof. destruct p; cbn [place_ltb]; try easy. apply Z.ltb_irrefl. Qed.

(** [min] and [max] over ordered numbers: an item of the list, below
    (above) every item. *)
Lemma min_from_spec (lowest : scalar) (rest : list scalar) :
  ordered lowest -> Forall ordered rest ->
  exists m, min_from lowest rest = Ok m /\ m ∈ lowest :: rest /\ ordered m /\
            Forall (fun c => place_ltb (place_of c) (place_of m) = false) (lowest :: rest).
Proof.
  intros Hl Hrest. revert lowest Hl.
  induction Hrest as [|item rest Hi _ IH]; intros lowest Hl; cbn [min_from].
  - exists lowest. repeat split; [constructor|assumption|].
    constructor; [apply place_le_refl|constructor].
  - rewrite (lt_place item lowest Hi Hl).
    destruct (place_ltb (place_of item) (place_of lowest)) eqn:Hlt.
    + destruct (IH item Hi) as (m & -> & Hin & Hm & Hall).
      exists m. split; [reflexivity|]. split; [now constructor|]. split; [assumption|].
      inversion Hall as [|? ? Hitem Htail]; subst.
      constructor; [|now constructor].
      eapply place_le_trans; [exact Hitem|]. now apply place_lt_le.
    + destruct (IH lowest Hl) as (m & -> & Hin & Hm & Hall).
      exists m. split; [reflexivity|]. split.
      { apply elem_of_cons in Hin as [->|Hin]; [constructor|now do 2 constructor]. }
      split; [assumption|].
      inversion Hall as [|? ? Hlow Htail]; subst.
      constructor; [assumption|]. constructor; [|assumption].
      eapply place_le_trans; [exact Hlow|exact Hlt].
Qed.

Lemma max_from_spec (highest : scalar) (rest : list scalar) :
  ordered highest -> Forall ordered rest ->
  exists m, max_from highest rest = Ok m /\ m ∈ highest :: rest /\ ordered m /\
            Forall (fun c => place_ltb (place_of m) (place_of c) = false) (highest :: rest).
Proof.
  intros Hl Hrest. revert highest Hl.
  induction Hrest as [|item rest Hi _ IH]; intros highest Hl; cbn [max_from].
  - exists highest. repeat split; [constructor|assumption|].
    constructor; [apply place_le_refl|constructor].
  - rewrite (lt_place highest item Hl Hi).
    destruct (place_ltb (place_of highest) (place_of item)) eqn:Hlt.
    + destruct (IH item Hi) as (m & -> & Hin & Hm & Hall).
      exists m. split; [reflexivity|]. split; [now constructor|]. split; [assumption|].
      inversion Hall as [|? ? Hitem Htail]; subst.
      constructor; [|now constructor].
      eapply place_le_trans; [|exact Hitem]. now apply place_lt_le.
    + destruct (IH highest Hl) as (m & -> & Hin & Hm & Hall).
      exists m. split; [reflexivity|]. split.
      { apply elem_of_cons in Hin as [->|Hin]; [constructor|now do 2 constructor]. }
      split; [assumption|].
      inversion Hall as [|? ? Hhigh Htail]; subst.
      constructor; [assumption|]. constructor; [|assumption].
      eapply place_le_trans; [exact Hlt|exact Hhigh].
Qed.

Lemma not_above_place (a b : scalar) :
  ordered a -> ordered b ->
  (not_above a b <-> place_ltb (place_of b) (place_of a) = false).
Proof.
  intros Ha Hb. unfold not_above. rewrite (lt_place b a Hb Ha).
  split; [now intros [= ->]|now intros ->].
Qed.

Lemma cmin_of_spec (changes : list scalar) :
  changes <> [] -> Forall ordered changes ->
  exists cmin, cmin_of changes = Ok cmin /\ ordered cmin /\
    (cmin = SInt (-10) \/ cmin ∈ changes) /\
    not_above cmin (SInt (-10)) /\ Forall (fun c => not_above cmin c) changes.
Proof.
  intros Hne Hall. destruct changes as [|x rest]; [congruence|].
  inversion Hall as [|? ? Hx Hrest]; subst.
  destruct (min_from_spec x rest Hx Hrest) as (m & Hmin & Hin & Hm & Hleast).
  unfold cmin_of. cbn [py_min]. rewrite Hmin. cbn [Py.bind].
  assert (H10 : ordered (SInt (-10))) by exact I.
  rewrite (lt_place _ _ H10 Hm). cbn [Py.bind].
  destruct (place_ltb (place_of (SInt (-10))) (place_of m)) eqn:Hlt.
  - exists (SInt (-10)). split; [reflexivity|]. split; [exact I|]. split; [now left|].
    split; [apply not_above_place; [exact I|exact I|apply place_le_refl]|].
    apply Forall_forall. intros c Hc.
    pose proof (proj1 (Forall_forall _ _) Hall c Hc) as Hoc.
    pose proof (proj1 (Forall_forall _ _) Hleast c Hc) as Hmc. cbv beta in Hmc.
    apply not_above_place; [exact I|exact Hoc|].
    eapply place_le_trans; [|exact Hmc]. now apply place_lt_le.
  - exists m. split; [reflexivity|]. split; [exact Hm|]. split; [now right|].
    split; [now apply not_above_place|].
    apply Forall_forall. intros c Hc.
    pose proof (proj1 (Forall_forall _ _) Hall c Hc) as Hoc.
    pose proof (proj1 (Forall_forall _ _) Hleast c Hc) as Hmc.
    now apply not_above_place.
Qed.

Lemma cmax_of_spec (changes : list scalar) :
  changes <> [] -> Forall ordered changes ->
  exists cmax, cmax_of changes = Ok cmax /\ ordered cmax /\
    (cmax = SInt 10 \/ cmax ∈ changes) /\
    not_above (SInt 10) cmax /\ Forall (fun c => not_above c cmax) changes.
Proof.
  intros Hne Hall. destruct changes as [|x rest]; [congruence|].
  inversion Hall as [|? ? Hx Hrest]; subst.
  destruct (max_from_spec x rest Hx Hrest) as (m & Hmax & Hin & Hm & Hmost).
  unfold cmax_of. cbn [py_max]. rewrite Hmax. cbn [Py.bind].
  assert (H10 : ordered (SInt 10)) by exact I.
  rewrite (lt_place _ _ Hm H10). cbn [Py.bind].
  destruct (place_ltb (place_of m) (place_of (SInt 10))) eqn:Hlt.
  - exists (SInt 10). split; [reflexivity|]. split; [exact I|]. split; [now left|].
    split; [apply not_above_place; [exact I|exact I|apply place_le_refl]|].
    apply Forall_forall. intros c Hc.
    pose proof (proj1 (Forall_forall _ _) Hall c Hc) as Hoc.
    pose proof (proj1 (Forall_forall _ _) Hmost c Hc) as Hmc. cbv beta in Hmc.
    apply not_above_place; [exact Hoc|exact I|].
    eapply place_le_trans; [exact Hmc|]. now apply place_lt_le.
  - exists m. split; [reflexivity|]. split; [exact Hm|]. split; [now right|].
    split; [now apply not_above_place|].
    apply Forall_forall. intros c Hc.
    pose proof (proj1 (Forall_forall _ _) Hall c Hc) as Hoc.
    pose proof (proj1 (Forall_forall _ _) Hmost c Hc) as Hmc.
    now apply not_above_place.
Qed.

(** X17.  On changes that are ints or floats other than NaN the marker is
    computed without an error.  It is the plain one when no colour scale is
    given or every change is zero; otherwise its range reaches from at most
    -10 to at least 10 and holds every change, and each end is that bound or
    one of the changes. *)
Theorem marker_range (colorscale : option string) (changes : list scalar) :
  Forall ordered changes ->
  exists m,
    marker_of colorscale changes = Ok m /\
    (m = Plain <-> given colorscale = false \/ Forall (fun c => nonzero c = false) changes) /\
    (forall cmin cmax, m = Scaled cmin cmax ->
       not_above cmin (SInt (-10)) /\ not_above (SInt 10) cmax /\
       Forall (fun c => not_above cmin c /\ not_above c cmax) changes /\
       (cmin = SInt (-10) \/ cmin ∈ changes) /\ (cmax = SInt 10 \/ cmax ∈ changes)).
Proof.
  intros Hall. unfold marker_of.
  destruct (given colorscale && existsb nonzero changes) eqn:Hcond.
  - apply andb_true_iff in Hcond as [Hgiven Hsome].
    assert (Hne : changes <> []) by (intros ->; discriminate).
    destruct (cmin_of_spec changes Hne Hall) as (cmin & -> & _ & Hlo & Hlo10 & Hlow).
    destruct (cmax_of_spec changes Hne Hall) as (cmax & -> & _ & Hhi & Hhi10 & Hhigh).
    cbn [Py.bind]. eexists. split; [reflexivity|]. split.
    + split; [discriminate|]. intros [Hn|Hz]; [congruence|].
      apply existsb_exists in Hsome as (c & Hc & Hnz).
      apply list_elem_of_In in Hc.
      rewrite (proj1 (Forall_forall _ _) Hz c Hc) in Hnz. discriminate.
    + intros ? ? [= <- <-]. repeat split; try assumption.
      apply Forall_and. now split.
  - eexists. split; [reflexivity|]. split; [|discriminate].
    split; [|reflexivity]. intros _.
    apply andb_false_iff in Hcond as [Hgiven|Hnone]; [now left|right].
    apply Forall_forall. intros c Hc. apply list_elem_of_In in Hc.
    destruct (nonzero c) eqn:Hnz; [|reflexivity].
    assert (existsb nonzero changes = true) by (apply existsb_exists; eauto). congruence.
Qed.

Lemma marker_range_witness :
  Forall ordered [SInt 0; SFloat (-1.5); SInt 12] /\
  exists m,
    marker_of (Some "RdYlBu_r"%string) [SInt 0; SFloat (-1.5); SInt 12] = Ok m /\
    (m = Plain <->
     given (Some "RdYlBu_r"%string) = false \/
     Forall (fun c => nonzero c = false) [SInt 0; SFloat (-1.5); SInt 12]) /\
    (forall cmin cmax, m = Scaled cmin cmax ->
       not_above cmin (SInt (-10)) /\ not_above (SInt 10) cmax /\
       Forall (fun c => not_above cmin c /\ not_above c cmax)
         [SInt 0; SFloat (-1.5); SInt 12] /\
       (cmin = SInt (-10) \/ cmin ∈ [SInt 0; SFloat (-1.5); SInt 12]) /\
       (cmax = SInt 10 \/ cmax ∈ [SInt 0; SFloat (-1.5); SInt 12])).
Proof.
  assert (H : Forall ordered [SInt 0; SFloat (-1.5); SInt 12])
    by (repeat constructor).
  split; [exact H|]. exact (marker_range (Some "RdYlBu_r"%string) _ H).
Defined.

Lemma lt_numeric (a b : scalar) : numeric a -> numeric b -> exists r, lt a b = Ok r.
Proof. destruct a, b; cbn [numeric lt as_num]; try easy; eauto. Qed.

Lemma min_from_numeric (lowest : scalar) (rest : list scalar) :
  numeric lowest -> Forall numeric rest ->
  exists m, min_from lowest rest = Ok m /\ numeric m.
Proof.
  intros Hl Hrest. revert lowest Hl.
  induction Hrest as [|item rest Hi _ IH]; intros lowest Hl; cbn [min_from]; [eauto|].
  destruct (lt_numeric item lowest Hi Hl) as [r ->]. destruct r; now apply IH.
Qed.

Lemma max_from_numeric (highest : scalar) (rest : list scalar) :
  numeric highest -> Forall numeric rest ->
  exists m, max_from highest rest = Ok m /\ numeric m.
Proof.
  intros Hl Hrest. revert highest Hl.
  induction Hrest as [|item rest Hi _ IH]; intros highest Hl; cbn [max_from]; [eauto|].
  destruct (lt_numeric highest item Hl Hi) as [r ->]. destruct r; now apply IH.
Qed.

(** No comparison of the marker fails on ints and floats. *)
Lemma marker_of_numeric (colorscale : option string) (changes : list scalar) :
  Forall numeric changes -> exists m, marker_of colorscale changes = Ok m.
Proof.
  intros Hall. unfold marker_of.
  destruct (given colorscale && existsb nonzero changes) eqn:Hcond; [|eauto].
  apply andb_true_iff in Hcond as [_ Hsome].
  destruct changes as [|x rest]; [discriminate|].
  inversion Hall as [|? ? Hx Hrest]; subst.
  destruct (min_from_numeric x rest Hx Hrest) as (lo & Hlo & Hnlo).
  destruct (max_from_numeric x rest Hx Hrest) as (hi & Hhi & Hnhi).
  unfold cmin_of, cmax_of. cbn [py_min py_max]. rewrite Hlo, Hhi. cbn [Py.bind].
  destruct (lt_numeric (SInt (-10)) lo I Hnlo) as [above ->].
  destruct (lt_numeric hi (SInt 10) Hnhi I) as [below ->].
  cbn [Py.bind]. destruct above, below; cbn [Py.bind]; eauto.
Qed.

Lemma sub_numeric (a b c : scalar) : sub a b = Ok c -> numeric c.
Proof.
  unfold sub. destruct (as_num a) as [[m|x]|], (as_num b) as [[n|y]|]; try discriminate.
  - now intros [= <-].
  - destruct (float_of_int m); cbn [mbind result_bind Py.bind]; [|discriminate].
    now intros [= <-].
  - destruct (float_of_int n); cbn [mbind result_bind Py.bind]; [|discriminate].
    now intros [= <-].
  - now intros [= <-].
Qed.

Lemma site_update_numeric (h : history) sr c :
  site_update h = Some (sr, Some c) -> numeric c.
Proof.
  unfold site_update. destruct (measurements_of h) as [|m ms]; [discriminate|].
  destruct (valid_data (m :: ms)) as [[|first valid]|]; try discriminate.
  destruct (2 <=? _); [|discriminate].
  destruct (last (first :: valid)) as [final|]; [|discriminate].
  destruct (sub final.2 first.2) as [c'|] eqn:Hsub; [|discriminate].
  intros [= _ <-]. exact (sub_numeric _ _ _ Hsub).
Qed.

Section Fetched.
Context {V : Type} `{PyOrd V}.

(** X18.  The points [fetch_cadwr_data] returns can be drawn: each [change]
    is an int or a float, so no comparison of [add_groundwater_sites] fails
    and the marker is computed, under any colour scale; nothing is drawn
    exactly when there is no point. *)
Theorem fetched_points_have_marker
    (levels : option (list (well V))) (percentiles : option (list (ranked V)))
    (reply : nat -> string -> option response) (start_date end_date : option string)
    (colorscale : option string) :
  exists points series m,
    fetch_cadwr_data levels percentiles reply start_date end_date = Ok (points, series) /\
    Forall (fun p => numeric (change p)) points /\
    site_marker points colorscale = Ok m /\
    (m = None <-> points = []).
Proof.
  destruct (fetch_spec levels percentiles reply start_date end_date)
    as (points1 & _ & Hbuilt & ->).
  set (n := if given start_date && given end_date then _ else _). clearbody n.
  assert (Hzero : forall j (p0 : point V), points1 !! j = Some p0 -> change p0 = SInt 0).
  { intros j p0 Hj. destruct (Forall2_lookup_r _ _ _ _ _ Hbuilt Hj) as (w & _ & c & _ & Hp0).
    exact (f_equal (@change V) (point_of_frame _ _ _ _ Hp0)). }
  destruct (pass_invariant reply start_date end_date points1 n) as (Hlen & Hpts & _).
  cbn zeta in *. destruct (foldl _ _ _) as [points series]. cbn [fst snd] in *.
  assert (Hnum : Forall (fun p => numeric (change p)) points).
  { apply Forall_lookup. intros i p Hi.
    destruct (points1 !! i) as [p0|] eqn:H0;
      [|apply lookup_ge_None in H0; apply lookup_lt_Some in Hi; lia].
    rewrite (Hpts i p0 H0) in Hi. injection Hi as <-. unfold after.
    destruct (decide _); [|now rewrite (Hzero i p0 H0)].
    destruct (site_update _) as [[sr [c|]]|] eqn:Hu;
      try (now rewrite (Hzero i p0 H0)).
    cbn [change with_change]. exact (site_update_numeric _ _ _ Hu). }
  destruct (marker_of_numeric colorscale (change <$> points)) as [m Hm].
  { apply Forall_fmap. exact Hnum. }
  destruct points as [|p ps] eqn:Hps.
  - exists [], series, None. repeat split; auto.
  - rewrite <- Hps in *. exists points, series, (Some m).
    split; [reflexivity|]. split; [exact Hnum|]. split.
    + unfold site_marker. rewrite Hps. rewrite Hps in Hm. rewrite Hm. reflexivity.
    + rewrite Hps. split; discriminate.
Qed.

End Fetched.
End MarkerFacts.
